(** * SubQG-Simulation: seeded generator, simulation engine, batch statistics
      and parameter search

    A shallow embedding of the TypeScript sources

    - [utils/seeded_rng.ts]       (class [SeededRandom]),
    - [utils/simulation_utils.ts] ([linspace], [calculateSimulationData]),
    - [components/StatisticalAnalysis.tsx] and its extended revision
      (histogram, Riemann scalar, mean / median / standard deviation),
    - [components/SubQGInteractive.tsx] and [App.tsx] (parameter search),

    followed by the properties established about them.

    Number model.  A JavaScript number is an IEEE-754 binary64 value.
    - The generator register only ever holds non-negative integers below
      [2^31], but the product [a * seed] exceeds [2^53]; it is therefore
      computed with the binary64 rounding of the Standard Library's
      [SpecFloat] (round to nearest, ties to even), not with exact integers.
    - Where a result of the code is decided by a binary64 rounding, the
      operation is modelled on doubles with the operations of module
      [B64]: the number of steps and the time points of a run
      ([TimeAxis64]), the bucket of a node in the time histogram
      ([Histogram64]), the bin of a value in the Re(s) histogram
      ([Riemann.count_reS]) and the products in the label tests of
      [make_point].  A rational passed to such an operation stands for the
      double nearest to it, as a decimal literal of the source does.
    - Every other quantity (wave values, thresholds, statistics) is
      modelled by an exact rational; [Math.sin], [Math.cos], [Math.log],
      [Math.sqrt] and [Math.PI] are supplied by a [MathHost] record, and
      [Math.random] by an oracle.  Rounding errors of binary64 arithmetic on
      these quantities, [NaN] and the infinities are outside the model. *)

From Stdlib Require Import ZArith QArith Qround Qabs Qminmax Qpower.
From Stdlib Require Import List Bool String Lia Lqa Permutation Sorted Orders Mergesort.
From Stdlib Require Import Floats.SpecFloat.
Import ListNotations.

Open Scope Q_scope.

(* ================================================================== *)
(** * JavaScript numbers *)
(* ================================================================== *)

Module JS.

(** binary64 *)
Definition prec : Z := 53.
Definition emax : Z := 1024.

(** The double nearest to an integer. *)
Definition of_int (z : Z) : spec_float := binary_normalize prec emax z 0 false.

(** The value of an integer-valued double ([0] for the non-finite ones,
    which the generator never produces). *)
Definition to_int (x : spec_float) : Z :=
  match x with
  | S754_finite s m e =>
      cond_Zopp s (if (0 <=? e)%Z then Z.pos m * 2 ^ e else Z.pos m / 2 ^ (- e))%Z
  | _ => 0%Z
  end.

(** Doubles that are not negative. *)
Definition nonneg_float (x : spec_float) : Prop :=
  match x with
  | S754_finite true _ _ => False
  | S754_infinity true => False
  | _ => True
  end.

(** [x * y] and [x + y] on integer-valued doubles. *)
Definition mul (x y : Z) : Z := to_int (SFmul prec emax (of_int x) (of_int y)).
Definition add (x y : Z) : Z := to_int (SFadd prec emax (of_int x) (of_int y)).

(** The exact value of a finite double. *)
Definition to_Q (x : spec_float) : Q :=
  match x with
  | S754_finite s m e => inject_Z (cond_Zopp s (Z.pos m)) * Qpower 2 e
  | _ => 0
  end.

(** [x % y]: exact, with the sign of the dividend. *)
Definition rem (x y : Z) : Z := Z.rem x y.

(** [parseFloat(x.toFixed(digits))]: [toFixed] picks the integer [n] with
    [n / 10^digits] closest to [|x|], the larger one on a tie, and keeps the
    sign; from [10^21] on it prints the number itself. *)
Definition toFixed (x : Q) (digits : nat) : Q :=
  if Qle_bool (inject_Z (10 ^ 21)) (Qabs x) then Qred x
  else
    let p := (10 ^ Z.of_nat digits)%Z in
    let n := Qfloor (Qabs x * inject_Z p + (1 # 2)) in
    Qred ((if Qle_bool 0 x then n else - n)%Z # Z.to_pos p).

(** [x === y] on numbers. *)
Definition eqb (x y : Q) : bool := Qeq_bool x y.

(** [x > y] and [x < y]. *)
Definition gtb (x y : Q) : bool := negb (Qle_bool x y).
Definition ltb (x y : Q) : bool := negb (Qle_bool y x).

End JS.

(* ================================================================== *)
(** * Arithmetic on doubles *)
(* ================================================================== *)

(** The operations of binary64 (round to nearest, ties to even) as the
    Standard Library's [SpecFloat] specifies them. *)
Module B64.

Definition mul (x y : spec_float) : spec_float := SFmul JS.prec JS.emax x y.
Definition add (x y : spec_float) : spec_float := SFadd JS.prec JS.emax x y.
Definition sub (x y : spec_float) : spec_float := SFsub JS.prec JS.emax x y.
Definition div (x y : spec_float) : spec_float := SFdiv JS.prec JS.emax x y.

(** [x < y], [x > y] and [x === y]; all three are false on [NaN]. *)
Definition ltb (x y : spec_float) : bool := SFltb x y.
Definition gtb (x y : spec_float) : bool := SFltb y x.
Definition eqb (x y : spec_float) : bool := SFeqb x y.

Definition of_int (z : Z) : spec_float := JS.of_int z.

(** The double nearest to a rational: the value of a decimal literal and of
    [parseFloat] on a decimal string.  The quotient of numerator and
    denominator is rounded once. *)
Definition of_Q (q : Q) : spec_float :=
  let q := Qred q in
  match Qnum q with
  | Z0 => S754_zero false
  | Zpos n =>
      let '(m, e, l) :=
        SFdiv_core_binary JS.prec JS.emax (Zpos n) 0 (Zpos (Qden q)) 0 in
      binary_round_aux JS.prec JS.emax false m e l
  | Zneg n =>
      let '(m, e, l) :=
        SFdiv_core_binary JS.prec JS.emax (Zpos n) 0 (Zpos (Qden q)) 0 in
      binary_round_aux JS.prec JS.emax true m e l
  end.

Definition to_Q (x : spec_float) : Q := JS.to_Q x.

(** [Math.floor] of a finite double, as an integer. *)
Definition floor (x : spec_float) : Z :=
  match x with
  | S754_finite s m e =>
      if (0 <=? e)%Z then cond_Zopp s (Z.pos m) * 2 ^ e
      else cond_Zopp s (Z.pos m) / 2 ^ (- e)
  | _ => 0
  end%Z.

(** [Math.min(Math.floor(q), k)] used as an array index: [NaN] and
    [-Infinity] index nothing, [Infinity] gives [k]. *)
Definition min_floor (q : spec_float) (k : Z) : option Z :=
  match q with
  | S754_nan => None
  | S754_infinity true => None
  | S754_infinity false => Some k
  | _ => Some (Z.min (floor q) k)
  end.

(** Doubles that are numbers and not below zero ([-0] and [Infinity]
    included), and those that are finite and above zero. *)
Definition nonneg (x : spec_float) : Prop :=
  match x with
  | S754_zero _ | S754_finite false _ _ | S754_infinity false => True
  | _ => False
  end.

Definition positive_finite (x : spec_float) : Prop :=
  match x with
  | S754_finite false _ _ => True
  | _ => False
  end.

Definition neither_nan_nor_infinite (x : spec_float) : Prop :=
  match x with
  | S754_zero _ | S754_finite _ _ _ => True
  | _ => False
  end.

End B64.

(** The host's [Math] object. *)
Record MathHost : Type := {
  Math_sin  : Q -> Q;
  Math_cos  : Q -> Q;
  Math_log  : Q -> Q;
  Math_sqrt : Q -> Q;
  Math_PI   : Q
}.

(** A host whose functions are rational approximations (Bhaskara's sine,
    an integer square root, a first-order logarithm); it serves to run the
    model on concrete inputs.  Every theorem below holds for all hosts. *)
Module Approx.

Definition PI : Q := 3.141592653589793.
Definition LN2 : Q := 0.6931471805599453.

Definition sin_half_turn (t : Q) : Q :=
  Qred (16 * t * (PI - t) / (5 * PI * PI - 4 * t * (PI - t))).

Definition sin (x : Q) : Q :=
  let t := Qred (x - 2 * PI * inject_Z (Qfloor (x / (2 * PI)))) in
  if Qle_bool t PI then sin_half_turn t else - sin_half_turn (t - PI).

Definition cos (x : Q) : Q := sin (x + PI / 2).

Definition sqrt (x : Q) : Q :=
  let x := Qred x in
  Qred (Z.sqrt (Qnum x * Z.pos (Qden x) * 10 ^ 12) # (Qden x * 1000000)).

Definition log (x : Q) : Q :=
  let x := Qred x in
  let k := (Z.log2 (Qnum x) - Z.log2 (Z.pos (Qden x)))%Z in
  let y := x * Qpower 2 (- k) in
  Qred (LN2 * inject_Z k + 2 * (y - 1) / (y + 1)).

Definition host : MathHost :=
  {| Math_sin := sin; Math_cos := cos; Math_log := log; Math_sqrt := sqrt;
     Math_PI := PI |}.

End Approx.

(** [Math.random()]: the [k]-th call returns [rnd k]. *)
Definition RandomOracle : Type := nat -> Q.

(* ================================================================== *)
(** * utils/seeded_rng.ts *)
(* ================================================================== *)

Module SeededRandom.

(** The object: its [seed] register.  [draws] is a ghost counter of the
    calls to [nextInt]; no code reads it. *)
Record t : Type := { seed : Z; draws : nat }.

(** LCG parameters (glibc) *)
Definition m : Z := 2147483648.    (* 0x80000000, 2^31 *)
Definition a : Z := 1103515245.
Definition c : Z := 12345.

(** [constructor(seed)] *)
Definition new (seed0 : Q) : t :=
  let s := JS.rem (Qfloor (Qabs seed0)) m in
  {| seed := if (s =? 0)%Z then 1%Z else s; draws := 0 |}.

(** [nextInt()] *)
Definition nextInt (r : t) : Z * t :=
  let s := JS.rem (JS.add (JS.mul a (seed r)) c) m in
  (s, {| seed := s; draws := S (draws r) |}).

(** [nextFloat()] *)
Definition nextFloat (r : t) : Q * t :=
  let (n, r') := nextInt r in
  (inject_Z n / inject_Z m, r').

(** [while (x === 0) x = this.nextFloat();] with at most [fuel]
    executions of the loop body. *)
Fixpoint redraw_while_zero (fuel : nat) (x : Q) (r : t) : option (Q * t) :=
  if JS.eqb x 0 then
    match fuel with
    | O => None
    | S fuel' => let (x', r') := nextFloat r in redraw_while_zero fuel' x' r'
    end
  else Some (x, r).

(** [randn()] *)
Definition randn (M : MathHost) (fuel : nat) (r : t) : option (Q * t) :=
  match redraw_while_zero fuel 0 r with
  | None => None
  | Some (u, r1) =>
      match redraw_while_zero fuel 0 r1 with
      | None => None
      | Some (v, r2) =>
          let val := Math_sqrt M (-(2) * Math_log M u) * Math_cos M (2 * Math_PI M * v) in
          Some (val, r2)
      end
  end.

(** The register is a non-negative integer below [m]. *)
Definition valid (r : t) : Prop := (0 <= seed r < m)%Z.

(** Whether the next uniform draw of [r] is [0]. *)
Definition next_draw_is_zero (r : t) : bool := (fst (nextInt r) =? 0)%Z.

(** The generator after [n] calls of [randn]. *)
Fixpoint after_randn (M : MathHost) (fuel : nat) (n : nat) (r : t) : option t :=
  match n with
  | O => Some r
  | S n' =>
      match randn M fuel r with
      | None => None
      | Some (_, r') => after_randn M fuel n' r'
      end
  end.

(** States of a generator: those of a freshly constructed object and
    those reached from one by [nextInt]. *)
Inductive reachable : t -> Prop :=
| reachable_new : forall seed0, reachable (new seed0)
| reachable_next : forall r, reachable r -> reachable (snd (nextInt r)).

End SeededRandom.

(* ================================================================== *)
(** * utils/simulation_utils.ts *)
(* ================================================================== *)

Record SimulationDataPoint : Type := {
  time : Q;
  energie : option Q;
  phase : option Q;
  knoten : option Q;
  characteristic : option string
}.

(** [xs.map((x, i) => f x i)] *)
Fixpoint mapi_from {A B : Type} (i : nat) (f : A -> nat -> B) (xs : list A) : list B :=
  match xs with
  | [] => []
  | x :: xs' => f x i :: mapi_from (S i) f xs'
  end.

Definition mapi {A B : Type} (f : A -> nat -> B) (xs : list A) : list B :=
  mapi_from 0 f xs.

(** [xs.map(x => f x)] for a callback that draws from the generator: the
    callbacks run in index order on the one shared generator. *)
Fixpoint map_rng {A B : Type}
    (f : A -> SeededRandom.t -> option (B * SeededRandom.t))
    (xs : list A) (r : SeededRandom.t) : option (list B * SeededRandom.t) :=
  match xs with
  | [] => Some ([], r)
  | x :: xs' =>
      match f x r with
      | None => None
      | Some (y, r1) =>
          match map_rng f xs' r1 with
          | None => None
          | Some (ys, r2) => Some (y :: ys, r2)
          end
      end
  end.

(** Helper: Generate numbers from start to stop.  This is the reading in
    exact arithmetic; [TimeAxis64.linspace] below has the rounded
    operations. *)
Definition linspace (start stop : Q) (num : Z) : list Q :=
  if (num <=? 0)%Z then []
  else if (num =? 1)%Z then [start]
  else
    let step := (stop - start) / inject_Z (num - 1) in
    map (fun i => start + step * inject_Z (Z.of_nat i)) (seq 0 (Z.to_nat num)).

Definition F_ENERGY : Q := 0.2.
Definition F_PHASE : Q := 0.203.
Definition STEPS_PER_UNIT_DURATION : Q := 100.

(** The time axis of a run on doubles: [steps], [linspace] and
    [timeArray] with every product, quotient and sum rounded as the code
    rounds it. *)
Module TimeAxis64.

(** [Math.max(10, Math.floor(currentDuration * STEPS_PER_UNIT_DURATION))];
    [None] when the product is [NaN] (the code then returns no sample) or
    [Infinity] (the loop of [linspace] then does not end). *)
Definition steps_of (currentDuration : spec_float) : option Z :=
  match B64.mul currentDuration (B64.of_int 100) with
  | S754_nan => None
  | S754_infinity false => None
  | S754_infinity true => Some 10%Z
  | product => Some (Z.max 10 (B64.floor product))
  end.

(** [linspace]; the counter [i] and [num - 1] are integers, exact as
    doubles. *)
Definition linspace (start stop : spec_float) (num : Z) : list spec_float :=
  if (num <=? 0)%Z then []
  else if (num =? 1)%Z then [start]
  else
    let step := B64.div (B64.sub stop start) (B64.of_int (num - 1)) in
    map (fun i => B64.add start (B64.mul step (B64.of_int (Z.of_nat i))))
        (seq 0 (Z.to_nat num)).

(** [timeArray], one entry per sample. *)
Definition timeArray (currentDuration : spec_float) : list spec_float :=
  match steps_of currentDuration with
  | Some steps => linspace (S754_zero false) currentDuration steps
  | None => []
  end.

(** [parseFloat(t.toFixed(2))] of a finite time point: the decimal that
    [toFixed] prints. *)
Definition time_field (t : spec_float) : Q := JS.toFixed (B64.to_Q t) 2.

(** The [time] fields of the samples that [calculateSimulationData]
    returns: one per entry of [timeArray], by the final
    [timeArray.map((t, i) => ...)]. *)
Definition sample_times (currentDuration : spec_float) : list Q :=
  map time_field (timeArray currentDuration).

End TimeAxis64.

Section Simulation.

Variable M : MathHost.
Variable fuel : nat.

Definition steps_of (currentDuration : Q) : Z :=
  Z.max 10 (Qfloor (currentDuration * STEPS_PER_UNIT_DURATION)).

Definition energie_at (currentNoise : Q) (t : Q) (rng : SeededRandom.t)
  : option (Q * SeededRandom.t) :=
  match SeededRandom.randn M fuel rng with
  | None => None
  | Some (x, rng') =>
      Some (Math_sin M (2 * Math_PI M * F_ENERGY * t) + currentNoise * x, rng')
  end.

Definition phase_at (currentNoise : Q) (t : Q) (rng : SeededRandom.t)
  : option (Q * SeededRandom.t) :=
  match SeededRandom.randn M fuel rng with
  | None => None
  | Some (x, rng') =>
      Some (Math_sin M (2 * Math_PI M * F_PHASE * t + Math_PI M / 4) + currentNoise * x, rng')
  end.

(** The callback of the final [timeArray.map((t, i) => ...)], given the
    two raw values [energieArray[i]] and [phaseArray[i]].  The label tests
    are made on doubles: [currentThreshold * 1.8] and
    [currentThreshold * 1.5] are rounded products, and [1.8], [1.5],
    [0.25] and [0.2] are the doubles of these literals. *)
Definition make_point (currentNoise currentThreshold : Q)
    (t rawEnergie rawPhase : Q) : SimulationDataPoint :=
  let displayEnergie := JS.toFixed rawEnergie 3 in
  let displayPhase := JS.toFixed rawPhase 3 in
  let point := {| time := JS.toFixed t 2;
                  energie := Some displayEnergie;
                  phase := Some displayPhase;
                  knoten := None;
                  characteristic := None |} in
  if JS.gtb rawEnergie currentThreshold
     && JS.gtb rawPhase currentThreshold
     && JS.eqb displayEnergie displayPhase
  then
    let label :=
      if B64.gtb (B64.of_Q displayEnergie)
                 (B64.mul (B64.of_Q currentThreshold) (B64.of_Q 1.8))
         && B64.ltb (B64.of_Q currentNoise) (B64.of_Q 0.25)
      then "Starker Hochenergie-Knoten (Niedrigrauschen)"%string
      else if B64.gtb (B64.of_Q displayEnergie)
                      (B64.mul (B64.of_Q currentThreshold) (B64.of_Q 1.5))
      then "Hochenergie-Knoten"%string
      else if B64.ltb (B64.of_Q currentNoise) (B64.of_Q 0.2)
      then "Niedrigrauschen-Knoten"%string
      else "Standard-Resonanzknoten"%string in
    {| time := time point;
       energie := energie point;
       phase := phase point;
       knoten := Some displayEnergie;
       characteristic := Some label |}
  else point.

(** The three arrays the function builds before the final map; the
    generator serves all of [energieArray] first, then all of
    [phaseArray]. *)
Definition raw_arrays (currentDuration currentNoise : Q) (rng : SeededRandom.t)
  : option (list Q * list Q * list Q * SeededRandom.t) :=
  let steps := steps_of currentDuration in
  let timeArray := linspace 0 currentDuration steps in
  match map_rng (energie_at currentNoise) timeArray rng with
  | None => None
  | Some (energieArray, rng1) =>
      match map_rng (phase_at currentNoise) timeArray rng1 with
      | None => None
      | Some (phaseArray, rng2) => Some (timeArray, energieArray, phaseArray, rng2)
      end
  end.

(** [calculateSimulationData]: the samples and the generator as the call
    leaves it; [None] when a re-draw loop of [randn] runs out of fuel. *)
Definition calculateSimulationData
    (currentDuration currentNoise currentThreshold : Q) (rng : SeededRandom.t)
  : option (list SimulationDataPoint * SeededRandom.t) :=
  let steps := steps_of currentDuration in
  let timeArray := linspace 0 currentDuration steps in
  if (List.length timeArray =? 0)%nat then Some ([], rng)
  else
    match raw_arrays currentDuration currentNoise rng with
    | None => None
    | Some (_, energieArray, phaseArray, rng2) =>
        Some (mapi (fun t i =>
                      let rawEnergie := nth i energieArray 0 in
                      let rawPhase := nth i phaseArray 0 in
                      make_point currentNoise currentThreshold t rawEnergie rawPhase)
                   timeArray,
              rng2)
    end.

End Simulation.

(** What one re-draw loop of [randn] returns and where it leaves the
    generator, in closed form: the first draw unless it is [0], else the
    draw after it, which is [12345 / 2^31]. *)
Definition loop_result (r : SeededRandom.t) : Q * SeededRandom.t :=
  let r1 := snd (SeededRandom.nextInt r) in
  if SeededRandom.next_draw_is_zero r
  then (inject_Z 12345 / inject_Z SeededRandom.m, snd (SeededRandom.nextInt r1))
  else (inject_Z (fst (SeededRandom.nextInt r)) / inject_Z SeededRandom.m, r1).

(* ================================================================== *)
(** * components/StatisticalAnalysis.tsx *)
(* ================================================================== *)

Module Stats.

(** [calculateMean] *)
Definition calculateMean (data : list Q) : Q :=
  if (List.length data =? 0)%nat then 0
  else fold_left (fun acc val => acc + val) data 0
       / inject_Z (Z.of_nat (List.length data)).

(** [[...data].sort((a, b) => a - b)]: ascending and stable. *)
Fixpoint insert (x : Q) (l : list Q) : list Q :=
  match l with
  | [] => [x]
  | y :: l' => if Qle_bool x y then x :: y :: l' else y :: insert x l'
  end.

Definition sort_ascending (data : list Q) : list Q := fold_right insert [] data.

(** [calculateMedian] *)
Definition calculateMedian (data : list Q) : Q :=
  if (List.length data =? 0)%nat then 0
  else
    let sorted := sort_ascending data in
    let mid := (List.length sorted / 2)%nat in
    if negb (List.length sorted mod 2 =? 0)%nat
    then nth mid sorted 0
    else (nth (mid - 1) sorted 0 + nth mid sorted 0) / 2.

(** [calculateStdDev]; the optional [mean] is [None] when omitted. *)
Definition calculateStdDev (M : MathHost) (data : list Q) (mean : option Q) : Q :=
  if (List.length data <=? 1)%nat then 0
  else
    let m := match mean with None => calculateMean data | Some m => m end in
    Math_sqrt M (fold_left (fun sq n => sq + (n - m) ^ 2) data 0
                 / inject_Z (Z.of_nat (List.length data) - 1)).

(** One entry of [knotenDistribution]; the label
    [`${start.toFixed(0)}-${end.toFixed(0)}`] is kept as its two numbers. *)
Record Segment : Type := { timeSegment : Q * Q; count : nat }.

Definition timeSegments : Z := 10.

Definition initial_distribution (currentDuration : Q) : list Segment :=
  let segmentDuration := currentDuration / inject_Z timeSegments in
  map (fun i =>
         let start := inject_Z (Z.of_nat i) * segmentDuration in
         let end_ := inject_Z (Z.of_nat i + 1) * segmentDuration in
         {| timeSegment := (JS.toFixed start 0, JS.toFixed end_ 0); count := 0 |})
      (seq 0 (Z.to_nat timeSegments)).

(** [Math.min(Math.floor(knoten.time / segmentDuration), timeSegments - 1)]
    in exact arithmetic, which serves for the totals; [Histogram64] below
    has the rounded quotients that decide the bucket.  For
    [currentDuration = 0] JavaScript divides by zero, which this model does
    not follow. *)
Definition segmentIndex_of (currentDuration : Q) (knoten_time : Q) : Z :=
  let segmentDuration := currentDuration / inject_Z timeSegments in
  Z.min (Qfloor (knoten_time / segmentDuration)) (timeSegments - 1).

Fixpoint increment_at (i : nat) (distribution : list Segment) : list Segment :=
  match distribution, i with
  | [], _ => []
  | s :: rest, O => {| timeSegment := timeSegment s; count := S (count s) |} :: rest
  | s :: rest, S i' => s :: increment_at i' rest
  end.

(** [if (distribution[segmentIndex]) distribution[segmentIndex].count++]:
    an index outside the array reads [undefined] and nothing is counted. *)
Definition count_knoten (distribution : list Segment) (segmentIndex : Z) : list Segment :=
  if (0 <=? segmentIndex)%Z && (segmentIndex <? Z.of_nat (List.length distribution))%Z
  then increment_at (Z.to_nat segmentIndex) distribution
  else distribution.

(** [allKnoten.forEach(knoten => ...)] on the fresh distribution. *)
Definition knotenDistribution_of (currentDuration : Q)
    (allKnoten : list SimulationDataPoint) : list Segment :=
  fold_left (fun distribution knoten =>
               count_knoten distribution (segmentIndex_of currentDuration (time knoten)))
            allKnoten (initial_distribution currentDuration).

Definition is_knoten (p : SimulationDataPoint) : bool :=
  match knoten p with Some _ => true | None => false end.

(** The loop over the runs: run [i] takes its seed from the next
    [Math.random()] and appends its nodes to [allKnoten]. *)
Fixpoint collect_knoten (M : MathHost) (fuel : nat) (rnd : RandomOracle)
    (currentDuration currentNoise currentThreshold : Q)
    (runs : nat) (call : nat) (allKnoten : list SimulationDataPoint)
  : option (list SimulationDataPoint) :=
  match runs with
  | O => Some allKnoten
  | S runs' =>
      let seed := Qfloor (rnd call * 10000000) in
      let rng := SeededRandom.new (inject_Z seed) in
      match calculateSimulationData M fuel currentDuration currentNoise currentThreshold rng with
      | None => None
      | Some (simData, _) =>
          collect_knoten M fuel rnd currentDuration currentNoise currentThreshold
            runs' (S call) (allKnoten ++ filter is_knoten simData)
      end
  end.

Record AnalysisResult : Type := {
  totalRuns : nat;
  totalKnoten : nat;
  avgKnotenPerRun : Q;
  knotenDistribution : list Segment
}.

(** [handleRunAnalysis] / [handleRunKnotFrequencyAnalysis], without the
    status messages. *)
Definition handleRunAnalysis (M : MathHost) (fuel : nat) (rnd : RandomOracle)
    (numRuns : nat) (currentDuration currentNoise currentThreshold : Q)
  : option AnalysisResult :=
  match collect_knoten M fuel rnd currentDuration currentNoise currentThreshold numRuns 0 [] with
  | None => None
  | Some allKnoten =>
      let totalKnotenFound := List.length allKnoten in
      let avgKnoten :=
        if (0 <? numRuns)%nat
        then inject_Z (Z.of_nat totalKnotenFound) / inject_Z (Z.of_nat numRuns)
        else 0 in
      Some {| totalRuns := numRuns;
              totalKnoten := totalKnotenFound;
              avgKnotenPerRun := JS.toFixed avgKnoten 2;
              knotenDistribution := knotenDistribution_of currentDuration allKnoten |}
  end.

Definition total_count (distribution : list Segment) : nat :=
  fold_right (fun s acc => (count s + acc)%nat) 0%nat distribution.

(** The per-node scalar of [handleRunRiemannAnalysis]. *)
Definition calculatedReS
    (energie currentThreshold currentNoise riemannScalingFactor : Q) : Q :=
  let relativeEnergyExcess :=
    if JS.gtb currentThreshold 0.001 then
      let clampedEnergy := Qmax energie currentThreshold in
      (clampedEnergy - currentThreshold) / currentThreshold
    else
      if JS.gtb energie 0 then energie * 2 else 0 in
  let relativeEnergyExcess := Qmax 0 (Qmin relativeEnergyExcess 5) in
  let deviationTerm := (relativeEnergyExcess - currentNoise) * riemannScalingFactor in
  let calculatedReS := 0.5 + deviationTerm in
  Qmax 0 (Qmin calculatedReS 1).

(** The formula in the words of the specification: [clamp] by cases, and
    the fallback excess taken as it is. *)
Definition clamp (x lo hi : Q) : Q :=
  if JS.ltb x lo then lo else if JS.gtb x hi then hi else x.

Definition stated_relativeExcess (e t : Q) : Q :=
  if JS.gtb t 0.001 then clamp ((Qmax e t - t) / t) 0 5
  else if JS.gtb e 0 then e * 2 else 0.

Definition stated_scalar (e t n C : Q) : Q :=
  clamp (0.5 + (stated_relativeExcess e t - n) * C) 0 1.

(** The same with the fallback excess clamped into [[0, 5]] as well. *)
Definition clamped_relativeExcess (e t : Q) : Q :=
  clamp (if JS.gtb t 0.001 then (Qmax e t - t) / t
         else if JS.gtb e 0 then e * 2 else 0) 0 5.

Definition clamped_scalar (e t n C : Q) : Q :=
  clamp (0.5 + (clamped_relativeExcess e t - n) * C) 0 1.

(** The sample standard deviation and the median in the words of the
    specification. *)
Definition sum_of_squares (data : list Q) (m : Q) : Q :=
  fold_right (fun x acc => (x - m) * (x - m) + acc) 0 data.

End Stats.

(** The time histogram on doubles: the bucket of a node is decided by the
    two rounded quotients [currentDuration / timeSegments] and
    [knoten.time / segmentDuration].  The time of a node is the double that
    [parseFloat] reads from its two decimals. *)
Module Histogram64.

Definition segmentDuration (currentDuration : Q) : spec_float :=
  B64.div (B64.of_Q currentDuration) (B64.of_int Stats.timeSegments).

Definition initial_distribution (currentDuration : Q) : list Stats.Segment :=
  map (fun i =>
         let start :=
           B64.mul (B64.of_int (Z.of_nat i)) (segmentDuration currentDuration) in
         let end_ :=
           B64.mul (B64.of_int (Z.of_nat i + 1)) (segmentDuration currentDuration) in
         {| Stats.timeSegment :=
              (JS.toFixed (B64.to_Q start) 0, JS.toFixed (B64.to_Q end_) 0);
            Stats.count := 0 |})
      (seq 0 (Z.to_nat Stats.timeSegments)).

(** [Math.min(Math.floor(knoten.time / segmentDuration), timeSegments - 1)];
    [None] when it is [NaN] or [-Infinity]. *)
Definition segmentIndex_of (currentDuration : Q) (knoten_time : Q) : option Z :=
  B64.min_floor
    (B64.div (B64.of_Q knoten_time) (segmentDuration currentDuration))
    (Stats.timeSegments - 1).

(** [if (distribution[segmentIndex]) distribution[segmentIndex].count++] *)
Definition count_knoten (distribution : list Stats.Segment) (segmentIndex : option Z)
  : list Stats.Segment :=
  match segmentIndex with
  | Some i => Stats.count_knoten distribution i
  | None => distribution
  end.

(** [allKnoten.forEach(knoten => ...)] on the fresh distribution. *)
Definition knotenDistribution_of (currentDuration : Q)
    (allKnoten : list SimulationDataPoint) : list Stats.Segment :=
  fold_left (fun distribution knoten =>
               count_knoten distribution (segmentIndex_of currentDuration (time knoten)))
            allKnoten (initial_distribution currentDuration).

End Histogram64.

(* ================================================================== *)
(** * App.tsx and components/SubQGInteractive.tsx: the parameter search *)
(* ================================================================== *)

Module App.

Definition MAX_SEARCH_ATTEMPTS : Z := 50.

(** [searchStatusMessage], by the template that produced it. *)
Inductive StatusMessage : Type :=
| NoMessage                                      (* "" *)
| Simulating (attempt maxAttempts : Z)           (* Simuliere Versuch a/max... *)
| Found (attempt : Z) (R S : Q) (seed : Z)       (* Knoten gefunden nach a Versuch(en)! (R:.., S:.., Seed:..) *)
| NotFound (maxAttempts : Z).                    (* Kein Knoten nach max Versuchen gefunden. *)

(** The state of [App]; [memo] holds the dependencies
    [[duration, noise, threshold, seed]] for which [SubQGInteractive] last
    computed [simulationData] ([None] before its first render), and
    [randomCalls] counts the calls of [Math.random()]. *)
Record state : Type := {
  duration : Q;
  noise : Q;
  threshold : Q;
  currentSeed : Z;
  isSearching : bool;
  currentSearchAttempt : Z;
  knotenCountFromSim : Z;
  searchStatusMessage : StatusMessage;
  memo : option (Q * Q * Q * Z);
  randomCalls : nat
}.

Definition setNoise (v : Q) (s : state) : state :=
  {| duration := duration s; noise := v; threshold := threshold s;
     currentSeed := currentSeed s; isSearching := isSearching s;
     currentSearchAttempt := currentSearchAttempt s;
     knotenCountFromSim := knotenCountFromSim s;
     searchStatusMessage := searchStatusMessage s;
     memo := memo s; randomCalls := randomCalls s |}.

Definition setThreshold (v : Q) (s : state) : state :=
  {| duration := duration s; noise := noise s; threshold := v;
     currentSeed := currentSeed s; isSearching := isSearching s;
     currentSearchAttempt := currentSearchAttempt s;
     knotenCountFromSim := knotenCountFromSim s;
     searchStatusMessage := searchStatusMessage s;
     memo := memo s; randomCalls := randomCalls s |}.

Definition setCurrentSeed (v : Z) (s : state) : state :=
  {| duration := duration s; noise := noise s; threshold := threshold s;
     currentSeed := v; isSearching := isSearching s;
     currentSearchAttempt := currentSearchAttempt s;
     knotenCountFromSim := knotenCountFromSim s;
     searchStatusMessage := searchStatusMessage s;
     memo := memo s; randomCalls := randomCalls s |}.

Definition setIsSearching (v : bool) (s : state) : state :=
  {| duration := duration s; noise := noise s; threshold := threshold s;
     currentSeed := currentSeed s; isSearching := v;
     currentSearchAttempt := currentSearchAttempt s;
     knotenCountFromSim := knotenCountFromSim s;
     searchStatusMessage := searchStatusMessage s;
     memo := memo s; randomCalls := randomCalls s |}.

Definition setCurrentSearchAttempt (v : Z) (s : state) : state :=
  {| duration := duration s; noise := noise s; threshold := threshold s;
     currentSeed := currentSeed s; isSearching := isSearching s;
     currentSearchAttempt := v;
     knotenCountFromSim := knotenCountFromSim s;
     searchStatusMessage := searchStatusMessage s;
     memo := memo s; randomCalls := randomCalls s |}.

Definition setKnotenCountFromSim (v : Z) (s : state) : state :=
  {| duration := duration s; noise := noise s; threshold := threshold s;
     currentSeed := currentSeed s; isSearching := isSearching s;
     currentSearchAttempt := currentSearchAttempt s;
     knotenCountFromSim := v;
     searchStatusMessage := searchStatusMessage s;
     memo := memo s; randomCalls := randomCalls s |}.

Definition setSearchStatusMessage (v : StatusMessage) (s : state) : state :=
  {| duration := duration s; noise := noise s; threshold := threshold s;
     currentSeed := currentSeed s; isSearching := isSearching s;
     currentSearchAttempt := currentSearchAttempt s;
     knotenCountFromSim := knotenCountFromSim s;
     searchStatusMessage := v;
     memo := memo s; randomCalls := randomCalls s |}.

Definition set_memo (v : option (Q * Q * Q * Z)) (s : state) : state :=
  {| duration := duration s; noise := noise s; threshold := threshold s;
     currentSeed := currentSeed s; isSearching := isSearching s;
     currentSearchAttempt := currentSearchAttempt s;
     knotenCountFromSim := knotenCountFromSim s;
     searchStatusMessage := searchStatusMessage s;
     memo := v; randomCalls := randomCalls s |}.

Definition set_randomCalls (v : nat) (s : state) : state :=
  {| duration := duration s; noise := noise s; threshold := threshold s;
     currentSeed := currentSeed s; isSearching := isSearching s;
     currentSearchAttempt := currentSearchAttempt s;
     knotenCountFromSim := knotenCountFromSim s;
     searchStatusMessage := searchStatusMessage s;
     memo := memo s; randomCalls := v |}.

(** The three random parameters of an attempt, from one [Math.random()]
    value each. *)
Definition random_noise (x : Q) : Q := JS.toFixed (x * (0.75 - 0.05) + 0.05) 2.
Definition random_threshold (x : Q) : Q := JS.toFixed (x * (1.8 - 0.7) + 0.7) 1.
Definition random_seed (x : Q) : Z := Qfloor (x * 1000000).

Section Search.

Variable M : MathHost.
Variable fuel : nat.
Variable rnd : RandomOracle.

(** [handleKnotenUpdate] *)
Definition handleKnotenUpdate (count : Z) (s : state) : state :=
  setKnotenCountFromSim count s.

(** [handleStartSearch] *)
Definition handleStartSearch (s : state) : state :=
  let call := randomCalls s in
  let initialNoise := random_noise (rnd call) in
  let initialThreshold := random_threshold (rnd (call + 1)%nat) in
  let initialSeed := random_seed (rnd (call + 2)%nat) in
  set_randomCalls (call + 3)%nat
    (setKnotenCountFromSim (-1)
       (setIsSearching true
          (setCurrentSearchAttempt 1
             (setCurrentSeed initialSeed
                (setThreshold initialThreshold
                   (setNoise initialNoise s)))))).

(** The state updates queued by the body of [App]'s [useEffect]; the body
    reads the state [st] of the render it belongs to. *)
Definition App_effect (st : state) (s : state) : state :=
  if negb (isSearching st) then s
  else if (knotenCountFromSim st =? -1)%Z then
    setSearchStatusMessage
      (Simulating (currentSearchAttempt st) MAX_SEARCH_ATTEMPTS) s
  else if (0 <? knotenCountFromSim st)%Z then
    setSearchStatusMessage
      (Found (currentSearchAttempt st) (JS.toFixed (noise st) 2)
             (JS.toFixed (threshold st) 1) (currentSeed st))
      (setIsSearching false s)
  else if (MAX_SEARCH_ATTEMPTS <=? currentSearchAttempt st)%Z then
    setSearchStatusMessage (NotFound MAX_SEARCH_ATTEMPTS) (setIsSearching false s)
  else
    let nextAttemptNumber := (currentSearchAttempt st + 1)%Z in
    let call := randomCalls st in
    let newNoise := random_noise (rnd call) in
    let newThreshold := random_threshold (rnd (call + 1)%nat) in
    let newSeedForNextAttempt := random_seed (rnd (call + 2)%nat) in
    set_randomCalls (call + 3)%nat
      (setKnotenCountFromSim (-1)
         (setCurrentSearchAttempt nextAttemptNumber
            (setCurrentSeed newSeedForNextAttempt
               (setThreshold newThreshold
                  (setNoise newNoise s))))).

(** [SubQGInteractive]: [detailedKnotenPoints.length] for given props. *)
Definition detailedKnotenPoints_length (d n t : Q) (seed : Z) : Z :=
  match calculateSimulationData M fuel d n t (SeededRandom.new (inject_Z seed)) with
  | None => 0%Z
  | Some (simulationData, _) =>
      Z.of_nat (List.length
        (filter (fun p => match knoten p, energie p, phase p with
                          | Some _, Some _, Some _ => true
                          | _, _, _ => false
                          end) simulationData))
  end.

(** [useMemo] compares each dependency with [Object.is]. *)
Definition same_deps (x y : Q * Q * Q * Z) : bool :=
  let '(d1, n1, t1, s1) := x in
  let '(d2, n2, t2, s2) := y in
  JS.eqb d1 d2 && JS.eqb n1 n2 && JS.eqb t1 t2 && (s1 =? s2)%Z.

Definition props_of (st : state) : Q * Q * Q * Z :=
  (duration st, noise st, threshold st, currentSeed st).

(** Whether rendering [st] recomputes [simulationData] (and with it
    [detailedKnotenPoints], the dependency of the child's effect). *)
Definition recomputes (st : state) : bool :=
  match memo st with
  | None => true
  | Some deps => negb (same_deps (props_of st) deps)
  end.

(** One render and commit of [App] in state [st]: [SubQGInteractive]
    recomputes its memoised data only when a dependency changed, and only
    then does its effect call [onKnotenUpdate]; the child's effect runs
    before [App]'s, both read the rendered state, and their updates are
    applied in that order. *)
Definition commit (st : state) : state :=
  let '(d, n, t, seed) := props_of st in
  let child :=
    if recomputes st
    then fun s => handleKnotenUpdate (detailedKnotenPoints_length d n t seed)
                    (set_memo (Some (d, n, t, seed)) s)
    else fun s => s in
  App_effect st (child st).

Fixpoint commits (k : nat) (st : state) : state :=
  match k with
  | O => st
  | S k' => commits k' (commit st)
  end.

(** [App] before its first commit: the [useState] initial values. *)
Definition initial : state :=
  {| duration := 100; noise := 0.3; threshold := 1.5;
     currentSeed := Qfloor (rnd 0%nat * 1000000);
     isSearching := false; currentSearchAttempt := 0;
     knotenCountFromSim := 0; searchStatusMessage := NoMessage;
     memo := None; randomCalls := 1 |}.

(** The outcomes of a search. *)
Definition succeeded (st : state) : Prop :=
  isSearching st = false /\
  exists attempt R S seed, searchStatusMessage st = Found attempt R S seed.

Definition exhausted (st : state) : Prop :=
  isSearching st = false /\
  searchStatusMessage st = NotFound MAX_SEARCH_ATTEMPTS.

(** Waiting for the count of the current attempt. *)
Definition pending (st : state) : Prop :=
  isSearching st = true /\ knotenCountFromSim st = (-1)%Z.

End Search.

End App.

(* ================================================================== *)
(** * components/SubQGInteractive.tsx: what the chart derives from a run *)
(* ================================================================== *)

(** An entry of [detailedKnotenPoints]; [energie] and [phase] carry what
    the non-null assertions [d.energie!] and [d.phase!] copy. *)
Module DetailedKnoten.
Record t : Type := {
  time : Q;
  energie : option Q;
  phase : option Q;
  characteristic : string
}.
End DetailedKnoten.

(** An entry of [knotenPointsForScatter]. *)
Module ScatterPoint.
Record t : Type := { time : Q; value : option Q }.
End ScatterPoint.

Module Chart.

Definition is_defined {A : Type} (x : option A) : bool :=
  match x with Some _ => true | None => false end.

(** [d.characteristic || "N/A"]: [undefined] and the empty string are
    falsy. *)
Definition characteristic_or_NA (c : option string) : string :=
  match c with
  | Some s => if String.eqb s "" then "N/A"%string else s
  | None => "N/A"%string
  end.

Definition detailedKnotenPoints (simulationData : list SimulationDataPoint)
  : list DetailedKnoten.t :=
  map (fun d => {| DetailedKnoten.time := time d;
                   DetailedKnoten.energie := energie d;
                   DetailedKnoten.phase := phase d;
                   DetailedKnoten.characteristic :=
                     characteristic_or_NA (characteristic d) |})
      (filter (fun d => is_defined (knoten d) && is_defined (energie d)
                        && is_defined (phase d))
              simulationData).

Definition knotenPointsForScatter (simulationData : list SimulationDataPoint)
  : list ScatterPoint.t :=
  map (fun d => {| ScatterPoint.time := time d; ScatterPoint.value := knoten d |})
      (filter (fun d => is_defined (knoten d)) simulationData).

(** [simulationData.flatMap(d => [d.energie, d.phase]).filter(v => v !== undefined)] *)
Definition allValues_of (simulationData : list SimulationDataPoint) : list Q :=
  flat_map (fun v => match v with Some x => [x] | None => [] end)
           (flat_map (fun d => [energie d; phase d]) simulationData).

(** [Math.min(...xs, last)] and [Math.max(...xs, last)] *)
Definition Math_min_with (xs : list Q) (last : Q) : Q := fold_right Qmin last xs.
Definition Math_max_with (xs : list Q) (last : Q) : Q := fold_right Qmax last xs.

(** [yDomain] *)
Definition yDomain (simulationData : list SimulationDataPoint) : Q * Q :=
  let allValues := allValues_of simulationData in
  if (List.length allValues =? 0)%nat then (-(2), 2)
  else
    let minVal := Math_min_with allValues (-(1.5)) in
    let maxVal := Math_max_with allValues 1.5 in
    let padding := Qmax 0.5 ((maxVal - minVal) * 0.1) in
    (inject_Z (Qfloor ((minVal - padding) * 10)) / 10,
     inject_Z (Qceiling ((maxVal + padding) * 10)) / 10).

End Chart.

(* ================================================================== *)
(** * The Riemann analysis of the extended StatisticalAnalysis.tsx *)
(* ================================================================== *)

Module Riemann.




(** An entry of [reSDistribution]; the label is kept as its two numbers. *)
Record ReSegment : Type := { reSegment : Q * Q; count : nat }.





(** 1D Re(s) distribution, on doubles: [binSizeReS] is the rounded
    quotient [1 / 20], and the bin of a value is decided by the rounded
    quotient [reSVal / binSizeReS]. *)
Definition reSBins : Z := 20.
Definition binSizeReS : spec_float := B64.div (B64.of_int 1) (B64.of_int reSBins).

Definition initial_reSDistribution : list ReSegment :=
  map (fun i =>
         let start := B64.mul (B64.of_int (Z.of_nat i)) binSizeReS in
         let end_ := B64.mul (B64.of_int (Z.of_nat i + 1)) binSizeReS in
         {| reSegment := (JS.toFixed (B64.to_Q start) 2, JS.toFixed (B64.to_Q end_) 2);
            count := 0 |})
      (seq 0 (Z.to_nat reSBins)).

Fixpoint increment_at (i : nat) (distribution : list ReSegment) : list ReSegment :=
  match distribution, i with
  | [], _ => []
  | s :: rest, O => {| reSegment := reSegment s; count := S (count s) |} :: rest
  | s :: rest, S i' => s :: increment_at i' rest
  end.

(** [if (d[i]) d[i].count++] *)
Definition count_if_present (distribution : list ReSegment) (i : Z) : list ReSegment :=
  if (0 <=? i)%Z && (i <? Z.of_nat (List.length distribution))%Z
  then increment_at (Z.to_nat i) distribution
  else distribution.

(** [Math.min(Math.floor(reSVal / binSizeReS), reSBins - 1)]; [None] when
    it is [NaN] or [-Infinity]. *)
Definition segmentIndex_of (reSVal : Q) : option Z :=
  B64.min_floor (B64.div (B64.of_Q reSVal) binSizeReS) (reSBins - 1).

(** The body of [allReSValues.forEach]; with no index neither branch finds
    an entry. *)
Definition count_reS (distribution : list ReSegment) (reSVal : Q) : list ReSegment :=
  match segmentIndex_of reSVal with
  | None => distribution
  | Some segmentIndex =>
      if (segmentIndex =? reSBins)%Z && B64.eqb (B64.of_Q reSVal) (B64.of_int 1)
      then count_if_present distribution (reSBins - 1)
      else count_if_present distribution segmentIndex
  end.

Definition reSDistribution_of (allReSValues : list Q) : list ReSegment :=
  fold_left count_reS allReSValues initial_reSDistribution.

Definition total_count (distribution : list ReSegment) : nat :=
  fold_right (fun s acc => (count s + acc)%nat) 0%nat distribution.












End Riemann.

(* ================================================================== *)
(** * The colour of a heat-map cell *)
(* ================================================================== *)

Module Heatmap.

(** The four numbers of the returned [hsla(h, s%, l%, a)] string. *)
Record hsla : Type := { hue : Q; saturation : Q; lightness : Q; alpha : Q }.

(** [getColorForDensity] *)
Definition getColorForDensity (M : MathHost) (density maxDensity : Q) : hsla :=
  if JS.eqb maxDensity 0 || JS.eqb density 0
  then {| hue := 220; saturation := 40; lightness := 90; alpha := 0.5 |}
  else
    let intensity := Math_sqrt M (density / maxDensity) in
    let lightness := 80 - intensity * 50 in
    let alpha := 0.6 + intensity * 0.4 in
    {| hue := 240; saturation := 70; lightness := lightness; alpha := alpha |}.

End Heatmap.

(* ================================================================== *)
(** * The earlier version of the statistics panel *)
(* ================================================================== *)

Module Earlier.

(** [calculateStdDev] with its guard on the divisor. *)
Definition calculateStdDev (M : MathHost) (data : list Q) (mean : option Q) : Q :=
  if (List.length data =? 0)%nat then 0
  else
    let m := match mean with None => Stats.calculateMean data | Some m => m end in
    Math_sqrt M (fold_left (fun sq n => sq + (n - m) ^ 2) data 0
                 / inject_Z (if (Z.of_nat (List.length data) - 1 <? 1)%Z then 1
                             else Z.of_nat (List.length data) - 1)).

End Earlier.

(* ================================================================== *)
(** * Devices of the statements *)
(* ================================================================== *)

(** The values of [n] successive calls of [randn], in call order, and the
    generator after them. *)
Fixpoint randn_values (M : MathHost) (fuel : nat) (n : nat) (r : SeededRandom.t)
  : option (list Q * SeededRandom.t) :=
  match n with
  | O => Some ([], r)
  | S n' =>
      match SeededRandom.randn M fuel r with
      | None => None
      | Some (x, r1) =>
          match randn_values M fuel n' r1 with
          | None => None
          | Some (xs, r2) => Some (x :: xs, r2)
          end
      end
  end.



(** The nodes that the time histogram puts into bucket [j], and the values
    that the Re(s) histogram puts into bin [j]. *)
Definition nodes_in_bucket (currentDuration : Q)
    (allKnoten : list SimulationDataPoint) (j : nat) : list SimulationDataPoint :=
  filter (fun k => match Histogram64.segmentIndex_of currentDuration (time k) with
                   | Some i => (i =? Z.of_nat j)%Z
                   | None => false
                   end) allKnoten.

Definition values_in_bin (allReSValues : list Q) (j : nat) : list Q :=
  filter (fun v => match Riemann.segmentIndex_of v with
                   | Some i => (i =? Z.of_nat j)%Z
                   | None => false
                   end) allReSValues.


(** A run with a node, on the approximating host: duration 0.1, noise 0.5,
    threshold 0.5, seed 778. *)
Definition run_778 : option (list SimulationDataPoint * SeededRandom.t) :=
  Eval vm_compute in
    calculateSimulationData Approx.host 2 0.1 0.5 0.5 (SeededRandom.new 778).

Definition node_778 : SimulationDataPoint :=
  {| time := 0.03; energie := Some 1.613; phase := Some 1.613;
     knoten := Some 1.613; characteristic := Some "Hochenergie-Knoten"%string |}.

(* ================================================================== *)
(** * Theorems *)
(* ================================================================== *)

(** ** Double arithmetic on non-negative integers *)

Lemma to_int_nonneg x : JS.nonneg_float x -> (0 <= JS.to_int x)%Z.
Proof.
  destruct x as [s|s| |s m e]; try (intros _; unfold JS.to_int; lia).
  destruct s; [contradiction|intros _].
  unfold JS.to_int, cond_Zopp.
  destruct (0 <=? e)%Z eqn:E.
  - apply Z.mul_nonneg_nonneg; [lia|]. apply Z.pow_nonneg; lia.
  - apply Z.div_pos; [lia|]. apply Z.pow_pos_nonneg; lia.
Qed.

Lemma binary_round_aux_nonneg mx ex lx :
  JS.nonneg_float (binary_round_aux JS.prec JS.emax false mx ex lx).
Proof.
  unfold binary_round_aux.
  destruct (shr_fexp _ _ mx ex lx) as [mrs' e'].
  destruct (shr_fexp _ _ _ e' loc_Exact) as [mrs'' e''].
  destruct (shr_m mrs''); simpl; auto.
  destruct (_ <=? _)%Z; simpl; auto.
Qed.

Lemma of_int_nonneg z : (0 <= z)%Z -> JS.nonneg_float (JS.of_int z).
Proof.
  intros Hz. unfold JS.of_int, binary_normalize.
  destruct z as [|p|p]; simpl; auto; [|lia].
  unfold binary_round. destruct (shl_align _ _ _) as [mz ez].
  apply binary_round_aux_nonneg.
Qed.

Lemma mul_nonneg x y : (0 <= x)%Z -> (0 <= y)%Z -> (0 <= JS.mul x y)%Z.
Proof.
  intros Hx Hy. apply to_int_nonneg.
  pose proof (of_int_nonneg x Hx) as Px. pose proof (of_int_nonneg y Hy) as Py.
  destruct (JS.of_int x) as [sx|sx| |sx mx ex], (JS.of_int y) as [sy|sy| |sy my ey];
    simpl in *; auto; try (destruct sx; try contradiction); try (destruct sy; try contradiction);
    simpl; auto.
  apply binary_round_aux_nonneg.
Qed.

Lemma add_nonneg x y : (0 <= x)%Z -> (0 <= y)%Z -> (0 <= JS.add x y)%Z.
Proof.
  intros Hx Hy. apply to_int_nonneg.
  pose proof (of_int_nonneg x Hx) as Px. pose proof (of_int_nonneg y Hy) as Py.
  destruct (JS.of_int x) as [sx|sx| |sx mx ex], (JS.of_int y) as [sy|sy| |sy my ey];
    simpl in *; auto; try (destruct sx; try contradiction); try (destruct sy; try contradiction);
    simpl; auto.
  unfold binary_round. destruct (shl_align _ _ _) as [mz ez].
  apply binary_round_aux_nonneg.
Qed.

(** ** The sign of a rounded result *)

Lemma iter_pos_invariant {A : Type} (P : A -> Prop) (f : A -> A) :
  (forall x, P x -> P (f x)) -> forall p x, P x -> P (iter_pos f p x).
Proof.
  intros Hf. induction p as [p IH|p IH|]; intros x Hx; cbn [iter_pos].
  - apply IH, IH, Hf, Hx.
  - apply IH, IH, Hx.
  - apply Hf, Hx.
Qed.

Lemma shr_1_nonneg mrs : (0 <= shr_m mrs)%Z -> (0 <= shr_m (shr_1 mrs))%Z.
Proof.
  destruct mrs as [m r s]. cbn [shr_m]. intros H.
  destruct m as [|[p|p|]|p]; cbn; lia.
Qed.

Lemma shr_fexp_nonneg m e l :
  (0 <= m)%Z -> (0 <= shr_m (fst (shr_fexp JS.prec JS.emax m e l)))%Z.
Proof.
  intros H. unfold shr_fexp, shr.
  assert (H0 : (0 <= shr_m (shr_record_of_loc m l))%Z)
    by (destruct l as [|[| |]]; exact H).
  destruct (_ - e)%Z as [|p|p]; cbn [fst]; try exact H0.
  apply (iter_pos_invariant (fun mrs => (0 <= shr_m mrs)%Z)); [apply shr_1_nonneg|exact H0].
Qed.

Lemma round_nearest_even_nonneg m l : (0 <= m)%Z -> (0 <= round_nearest_even m l)%Z.
Proof.
  intros H. unfold round_nearest_even.
  destruct l as [|[| |]]; try exact H; [destruct (Z.even m)|]; lia.
Qed.

(** Rounding a mantissa that is not negative gives a number of the sign
    asked for, never [NaN]. *)
Lemma binary_round_aux_signed s m e l :
  (0 <= m)%Z ->
  match binary_round_aux JS.prec JS.emax s m e l with
  | S754_nan => False
  | S754_zero s' | S754_infinity s' | S754_finite s' _ _ => s' = s
  end.
Proof.
  intros H. unfold binary_round_aux.
  pose proof (shr_fexp_nonneg m e l H) as H1.
  destruct (shr_fexp JS.prec JS.emax m e l) as [mrs' e']. cbn [fst] in H1.
  pose proof (shr_fexp_nonneg _ e' loc_Exact
                (round_nearest_even_nonneg (shr_m mrs') (loc_of_shr_record mrs') H1)) as H2.
  destruct (shr_fexp JS.prec JS.emax _ e' loc_Exact) as [mrs'' e'']. cbn [fst] in H2.
  destruct (shr_m mrs'') as [|p|p]; [reflexivity| |lia].
  destruct (e'' <=? _)%Z; reflexivity.
Qed.

Lemma SFdiv_core_nonneg m1 e1 m2 e2 :
  (0 <= m1)%Z -> (0 < m2)%Z ->
  (0 <= fst (fst (SFdiv_core_binary JS.prec JS.emax m1 e1 m2 e2)))%Z.
Proof.
  intros H1 H2. unfold SFdiv_core_binary.
  set (s := (e1 - e2 - _)%Z).
  set (m' := match s with Z.pos _ => Z.shiftl m1 s | Z0 => m1 | Z.neg _ => 0%Z end).
  assert (Hm : (0 <= m')%Z).
  { unfold m'. destruct s; try lia. apply Z.shiftl_nonneg. exact H1. }
  pose proof (Z_div_mod m' m2 ltac:(lia)) as D.
  destruct (Z.div_eucl m' m2) as [q r]. cbn [fst].
  destruct D as [D1 D2]. nia.
Qed.

Lemma of_Q_nonneg q : 0 <= q -> B64.nonneg (B64.of_Q q).
Proof.
  intros H. unfold B64.of_Q. cbv zeta.
  rewrite <- (Qred_correct q) in H.
  destruct (Qred q) as [n d]. unfold Qle in H. cbn [Qnum Qden] in *.
  destruct n as [|n|n]; [exact I| |lia].
  pose proof (SFdiv_core_nonneg (Z.pos n) 0 (Z.pos d) 0 ltac:(lia) ltac:(lia)) as Hq.
  destruct (SFdiv_core_binary JS.prec JS.emax (Z.pos n) 0 (Z.pos d) 0) as [[m e] l].
  cbn [fst] in Hq.
  pose proof (binary_round_aux_signed false m e l Hq) as Hs.
  destruct (binary_round_aux JS.prec JS.emax false m e l) as [s|s| |s m' e'];
    try subst s; try exact I; contradiction.
Qed.

Lemma of_Q_compat x y : x == y -> B64.of_Q x = B64.of_Q y.
Proof. intros E. unfold B64.of_Q. rewrite (Qred_complete x y E). reflexivity. Qed.

Lemma div_nonneg x y :
  B64.nonneg x -> B64.positive_finite y -> B64.nonneg (B64.div x y).
Proof.
  destruct y as [s|s| |[|] my ey]; try contradiction. intros Hx _.
  destruct x as [s|[|]| |[|] mx ex]; try contradiction; try exact I.
  unfold B64.div, SFdiv.
  pose proof (SFdiv_core_nonneg (Z.pos mx) ex (Z.pos my) ey ltac:(lia) ltac:(lia)) as Hq.
  destruct (SFdiv_core_binary JS.prec JS.emax (Z.pos mx) ex (Z.pos my) ey) as [[m e] l].
  cbn [fst] in Hq. cbn [xorb].
  pose proof (binary_round_aux_signed false m e l Hq) as Hs.
  destruct (binary_round_aux JS.prec JS.emax false m e l) as [s|s| |s m' e'];
    try subst s; try exact I; contradiction.
Qed.

Lemma floor_nonneg x : B64.nonneg x -> (0 <= B64.floor x)%Z.
Proof.
  intros H. destruct x as [s|[|]| |[|] m e]; try contradiction;
    cbn [B64.floor]; try (apply Z.le_refl).
  clear H. cbn [cond_Zopp]. destruct (Z.leb_spec 0 e).
  - apply Z.mul_nonneg_nonneg; [lia|]. apply Z.pow_nonneg. lia.
  - apply Z.div_pos; [lia|]. apply Z.pow_pos_nonneg; lia.
Qed.

Lemma min_floor_range q k :
  B64.nonneg q -> (0 <= k)%Z ->
  exists j, B64.min_floor q k = Some j /\ (0 <= j <= k)%Z.
Proof.
  intros Hq Hk. pose proof (floor_nonneg q Hq) as Hf.
  destruct q as [s|[|]| |[|] m e]; try contradiction; clear Hq;
    cbn [B64.min_floor]; eexists; (split; [reflexivity|]); lia.
Qed.

(** ** The generator *)

Lemma new_valid seed0 :
  (1 <= SeededRandom.seed (SeededRandom.new seed0) < SeededRandom.m)%Z.
Proof.
  unfold SeededRandom.new, JS.rem; cbn [SeededRandom.seed].
  assert (H0 : (0 <= Qfloor (Qabs seed0))%Z).
  { rewrite <- (Qfloor_Z 0). apply Qfloor_resp_le. apply Qabs_nonneg. }
  pose proof (Z.rem_bound_pos (Qfloor (Qabs seed0)) SeededRandom.m H0) as B.
  assert (Hm : (0 < SeededRandom.m)%Z) by reflexivity.
  specialize (B Hm).
  destruct (Z.eqb_spec (Z.rem (Qfloor (Qabs seed0)) SeededRandom.m) 0);
    unfold SeededRandom.m in *; lia.
Qed.

Lemma nextInt_range r :
  (0 <= SeededRandom.seed r)%Z ->
  (0 <= fst (SeededRandom.nextInt r) < SeededRandom.m)%Z.
Proof.
  intros H. unfold SeededRandom.nextInt, JS.rem; cbn [fst].
  apply Z.rem_bound_pos; [|reflexivity].
  apply add_nonneg; [|unfold SeededRandom.c; lia].
  apply mul_nonneg; [unfold SeededRandom.a; lia|exact H].
Qed.

Lemma nextInt_seed r :
  SeededRandom.seed (snd (SeededRandom.nextInt r)) = fst (SeededRandom.nextInt r).
Proof. reflexivity. Qed.

Lemma nextInt_draws r :
  SeededRandom.draws (snd (SeededRandom.nextInt r)) = S (SeededRandom.draws r).
Proof. reflexivity. Qed.

Lemma nextInt_valid r :
  SeededRandom.valid r -> SeededRandom.valid (snd (SeededRandom.nextInt r)).
Proof.
  intros [H _]. unfold SeededRandom.valid. rewrite nextInt_seed.
  apply nextInt_range, H.
Qed.

Lemma reachable_valid r : SeededRandom.reachable r -> SeededRandom.valid r.
Proof.
  induction 1 as [seed0|r _ IH].
  - pose proof (new_valid seed0). unfold SeededRandom.valid. lia.
  - apply nextInt_valid, IH.
Qed.

(** The update sends register [0] to [12345]. *)
Lemma nextInt_of_zero r :
  SeededRandom.seed r = 0%Z -> fst (SeededRandom.nextInt r) = 12345%Z.
Proof.
  intros H. unfold SeededRandom.nextInt. rewrite H. vm_compute. reflexivity.
Qed.

Lemma nextFloat_eq r :
  SeededRandom.nextFloat r =
  (inject_Z (fst (SeededRandom.nextInt r)) / inject_Z SeededRandom.m,
   snd (SeededRandom.nextInt r)).
Proof. reflexivity. Qed.

Lemma ratio_is_zero n :
  JS.eqb (inject_Z n / inject_Z SeededRandom.m) 0 = (n =? 0)%Z.
Proof.
  unfold JS.eqb, Qeq_bool. simpl.
  rewrite Z.mul_1_r, Z.mul_1_r.
  destruct n; reflexivity.
Qed.

Lemma ratio_in_unit n :
  (0 < n < SeededRandom.m)%Z ->
  0 < inject_Z n / inject_Z SeededRandom.m < 1.
Proof.
  intros [H1 H2]. unfold SeededRandom.m in *.
  split.
  - apply Qlt_shift_div_l; [reflexivity|]. rewrite Qmult_0_l.
    unfold Qlt; simpl. lia.
  - apply Qlt_shift_div_r; [reflexivity|]. rewrite Qmult_1_l.
    unfold Qlt; simpl. lia.
Qed.

Lemma redraw_step fuel x r :
  SeededRandom.redraw_while_zero (S fuel) x r =
  if JS.eqb x 0
  then SeededRandom.redraw_while_zero fuel
         (fst (SeededRandom.nextFloat r)) (snd (SeededRandom.nextFloat r))
  else Some (x, r).
Proof.
  cbn [SeededRandom.redraw_while_zero].
  destruct (SeededRandom.nextFloat r); reflexivity.
Qed.

Lemma redraw_nonzero fuel x r :
  JS.eqb x 0 = false -> SeededRandom.redraw_while_zero fuel x r = Some (x, r).
Proof. intros H. destruct fuel; cbn [SeededRandom.redraw_while_zero]; rewrite H; reflexivity. Qed.

Lemma redraw_loop fuel r :
  (2 <= fuel)%nat ->
  SeededRandom.redraw_while_zero fuel 0 r = Some (loop_result r).
Proof.
  intros Hf. destruct fuel as [|[|fuel]]; try lia.
  unfold loop_result, SeededRandom.next_draw_is_zero.
  rewrite redraw_step. change (JS.eqb 0 0) with true. cbv iota.
  rewrite nextFloat_eq. cbn [fst snd].
  rewrite redraw_step, ratio_is_zero.
  destruct (Z.eqb_spec (fst (SeededRandom.nextInt r)) 0) as [E|E]; [|reflexivity].
  rewrite nextFloat_eq. cbn [fst snd].
  rewrite (nextInt_of_zero (snd (SeededRandom.nextInt r))) by (rewrite nextInt_seed; exact E).
  apply redraw_nonzero. reflexivity.
Qed.

Lemma loop_result_draws r :
  SeededRandom.draws (snd (loop_result r)) =
  (SeededRandom.draws r + 1 + (if SeededRandom.next_draw_is_zero r then 1 else 0))%nat.
Proof.
  unfold loop_result. destruct (SeededRandom.next_draw_is_zero r); cbn [snd];
    rewrite ?nextInt_draws; lia.
Qed.

Lemma loop_result_reachable r :
  SeededRandom.reachable r -> SeededRandom.reachable (snd (loop_result r)).
Proof.
  intros H. unfold loop_result. destruct (SeededRandom.next_draw_is_zero r); cbn [snd];
    repeat apply SeededRandom.reachable_next; exact H.
Qed.

Lemma loop_result_unit r :
  SeededRandom.valid r -> 0 < fst (loop_result r) < 1.
Proof.
  intros [H _]. unfold loop_result, SeededRandom.next_draw_is_zero.
  destruct (Z.eqb_spec (fst (SeededRandom.nextInt r)) 0) as [E|E]; cbn [fst].
  - apply ratio_in_unit. unfold SeededRandom.m. lia.
  - apply ratio_in_unit. pose proof (nextInt_range r H). lia.
Qed.

(** After a zero draw the register is [0], and the draw that follows is
    [12345 / 2^31]. *)
Lemma loop_result_after_zero r :
  SeededRandom.next_draw_is_zero r = true ->
  SeededRandom.seed (snd (loop_result r)) = 12345%Z.
Proof.
  intros E. unfold loop_result. rewrite E. cbn [snd]. rewrite nextInt_seed.
  apply nextInt_of_zero. rewrite nextInt_seed.
  unfold SeededRandom.next_draw_is_zero in E. apply Z.eqb_eq, E.
Qed.

Lemma next_draw_after_12345 r :
  SeededRandom.seed r = 12345%Z -> SeededRandom.next_draw_is_zero r = false.
Proof.
  intros H. unfold SeededRandom.next_draw_is_zero, SeededRandom.nextInt.
  rewrite H. vm_compute. reflexivity.
Qed.

Lemma randn_eq M fuel r :
  (2 <= fuel)%nat ->
  SeededRandom.randn M fuel r =
  Some (Math_sqrt M (-(2) * Math_log M (fst (loop_result r)))
        * Math_cos M (2 * Math_PI M * fst (loop_result (snd (loop_result r)))),
        snd (loop_result (snd (loop_result r)))).
Proof.
  intros Hf. unfold SeededRandom.randn.
  rewrite (redraw_loop fuel r Hf).
  destruct (loop_result r) as [u r1] eqn:E1. cbn [fst snd].
  rewrite (redraw_loop fuel r1 Hf).
  destruct (loop_result r1) as [v r2]. reflexivity.
Qed.

(** C10 -- [randn] is total.  The update sends register [0] to [12345], so
    [nextFloat] never returns [0] twice in a row; from every reachable
    generator state each of the two re-draw loops of [randn] therefore ends
    within two executions of its body, with a value strictly between [0] and
    [1] (the logarithm is taken of a positive number), and with any fuel of
    at least two [randn] returns the Box-Muller value of these two draws. *)
Theorem randn_total (M : MathHost) (r : SeededRandom.t) :
  SeededRandom.reachable r ->
  (forall r0, SeededRandom.seed r0 = 0%Z -> fst (SeededRandom.nextInt r0) = 12345%Z) /\
  (forall r0, fst (SeededRandom.nextFloat r0) == 0 ->
              ~ fst (SeededRandom.nextFloat (snd (SeededRandom.nextFloat r0))) == 0) /\
  exists u r1 v r2,
    SeededRandom.redraw_while_zero 2 0 r = Some (u, r1) /\
    SeededRandom.redraw_while_zero 2 0 r1 = Some (v, r2) /\
    0 < u < 1 /\ 0 < v < 1 /\
    SeededRandom.reachable r2 /\
    forall fuel, (2 <= fuel)%nat ->
      SeededRandom.randn M fuel r =
      Some (Math_sqrt M (-(2) * Math_log M u) * Math_cos M (2 * Math_PI M * v), r2).
Proof.
  intros Hr. split; [exact nextInt_of_zero|]. split.
  - intros r0 H0 H1. rewrite !nextFloat_eq in *. cbn [fst snd] in *.
    apply Qeq_bool_iff in H0. apply Qeq_bool_iff in H1.
    fold (JS.eqb (inject_Z (fst (SeededRandom.nextInt r0)) / inject_Z SeededRandom.m) 0) in H0.
    fold (JS.eqb (inject_Z (fst (SeededRandom.nextInt (snd (SeededRandom.nextInt r0))))
                  / inject_Z SeededRandom.m) 0) in H1.
    rewrite ratio_is_zero in H0, H1. apply Z.eqb_eq in H0, H1.
    rewrite (nextInt_of_zero (snd (SeededRandom.nextInt r0))) in H1;
      [discriminate|rewrite nextInt_seed; exact H0].
  - exists (fst (loop_result r)), (snd (loop_result r)),
           (fst (loop_result (snd (loop_result r)))),
           (snd (loop_result (snd (loop_result r)))).
    pose proof (loop_result_reachable r Hr) as Hr1.
    repeat split.
    + rewrite redraw_loop by lia. destruct (loop_result r); reflexivity.
    + rewrite redraw_loop by lia. destruct (loop_result (snd (loop_result r))); reflexivity.
    + apply loop_result_unit, reachable_valid, Hr.
    + apply loop_result_unit, reachable_valid, Hr.
    + apply loop_result_unit, reachable_valid, Hr1.
    + apply loop_result_unit, reachable_valid, Hr1.
    + apply loop_result_reachable, Hr1.
    + intros fuel Hf. apply randn_eq, Hf.
Qed.

Lemma randn_total_witness :
  SeededRandom.reachable (SeededRandom.new 42) /\
  exists u r1 v r2,
    SeededRandom.redraw_while_zero 2 0 (SeededRandom.new 42) = Some (u, r1) /\
    SeededRandom.redraw_while_zero 2 0 r1 = Some (v, r2) /\
    0 < u < 1 /\ 0 < v < 1 /\
    SeededRandom.reachable r2 /\
    forall fuel, (2 <= fuel)%nat ->
      SeededRandom.randn Approx.host fuel (SeededRandom.new 42) =
      Some (Math_sqrt Approx.host (-(2) * Math_log Approx.host u)
            * Math_cos Approx.host (2 * Math_PI Approx.host * v), r2).
Proof.
  split; [apply SeededRandom.reachable_new|].
  apply (randn_total Approx.host (SeededRandom.new 42)).
  apply SeededRandom.reachable_new.
Defined.

(** C5, as the code has it -- one call of [randn] advances the register
    twice, plus once for each of its two uniform draws that lands on [0]
    (a zero draw is re-drawn exactly once, and the two draws are never both
    zero): two advances when neither draw is zero, three otherwise. *)
Theorem randn_draw_budget (M : MathHost) (fuel : nat) (r : SeededRandom.t) :
  SeededRandom.reachable r -> (2 <= fuel)%nat ->
  exists u r1 val r2,
    SeededRandom.redraw_while_zero fuel 0 r = Some (u, r1) /\
    SeededRandom.randn M fuel r = Some (val, r2) /\
    SeededRandom.draws r2 =
      (SeededRandom.draws r + 2
       + (if SeededRandom.next_draw_is_zero r then 1 else 0)
       + (if SeededRandom.next_draw_is_zero r1 then 1 else 0))%nat /\
    (SeededRandom.next_draw_is_zero r = true ->
     SeededRandom.next_draw_is_zero r1 = false) /\
    (SeededRandom.draws r2 = (SeededRandom.draws r + 2)%nat \/
     SeededRandom.draws r2 = (SeededRandom.draws r + 3)%nat).
Proof.
  intros Hr Hf.
  exists (fst (loop_result r)), (snd (loop_result r)).
  eexists. exists (snd (loop_result (snd (loop_result r)))).
  assert (Hz : SeededRandom.next_draw_is_zero r = true ->
               SeededRandom.next_draw_is_zero (snd (loop_result r)) = false).
  { intros E. apply next_draw_after_12345, loop_result_after_zero, E. }
  assert (Hd : SeededRandom.draws (snd (loop_result (snd (loop_result r)))) =
      (SeededRandom.draws r + 2
       + (if SeededRandom.next_draw_is_zero r then 1 else 0)
       + (if SeededRandom.next_draw_is_zero (snd (loop_result r)) then 1 else 0))%nat).
  { rewrite !loop_result_draws. lia. }
  split; [|split; [|split; [|split]]].
  - rewrite redraw_loop by exact Hf. destruct (loop_result r); reflexivity.
  - apply randn_eq, Hf.
  - exact Hd.
  - exact Hz.
  - rewrite Hd.
    destruct (SeededRandom.next_draw_is_zero r).
    + rewrite Hz by reflexivity. right. lia.
    + destruct (SeededRandom.next_draw_is_zero (snd (loop_result r))); [right|left]; lia.
Qed.

Lemma randn_draw_budget_witness :
  SeededRandom.reachable (SeededRandom.new 42) /\ (2 <= 2)%nat /\
  exists u r1 val r2,
    SeededRandom.redraw_while_zero 2 0 (SeededRandom.new 42) = Some (u, r1) /\
    SeededRandom.randn Approx.host 2 (SeededRandom.new 42) = Some (val, r2) /\
    SeededRandom.draws r2 =
      (SeededRandom.draws (SeededRandom.new 42) + 2
       + (if SeededRandom.next_draw_is_zero (SeededRandom.new 42) then 1 else 0)
       + (if SeededRandom.next_draw_is_zero r1 then 1 else 0))%nat /\
    (SeededRandom.next_draw_is_zero (SeededRandom.new 42) = true ->
     SeededRandom.next_draw_is_zero r1 = false) /\
    (SeededRandom.draws r2 = (SeededRandom.draws (SeededRandom.new 42) + 2)%nat \/
     SeededRandom.draws r2 = (SeededRandom.draws (SeededRandom.new 42) + 3)%nat).
Proof.
  split; [apply SeededRandom.reachable_new|]. split; [lia|].
  apply (randn_draw_budget Approx.host 2 (SeededRandom.new 42));
    [apply SeededRandom.reachable_new|lia].
Defined.

(** C5, as stated, fails: the generator constructed from seed [2088216195]
    draws [0] first, so its first [randn] advances the register three
    times. *)
Lemma randn_three_draws :
  SeededRandom.reachable (SeededRandom.new 2088216195) /\
  fst (SeededRandom.nextInt (SeededRandom.new 2088216195)) = 0%Z /\
  exists val r2,
    SeededRandom.randn Approx.host 2 (SeededRandom.new 2088216195) = Some (val, r2) /\
    SeededRandom.draws r2 = (SeededRandom.draws (SeededRandom.new 2088216195) + 3)%nat /\
    SeededRandom.draws r2 <> (SeededRandom.draws (SeededRandom.new 2088216195) + 2)%nat.
Proof.
  split; [apply SeededRandom.reachable_new|]. split; [vm_compute; reflexivity|].
  eexists. eexists. split; [apply randn_eq; lia|].
  split; [vm_compute; reflexivity|vm_compute; discriminate].
Qed.

(** The product [a * seed] is rounded to a double: for the largest register
    the update differs from the exact linear congruence. *)
Example nextInt_is_rounded :
  fst (SeededRandom.nextInt (SeededRandom.new 2147483647)) = 1043980800%Z /\
  ((SeededRandom.a * 2147483647 + SeededRandom.c) mod SeededRandom.m = 1043980748)%Z /\
  fst (SeededRandom.nextInt (SeededRandom.new 42)) = 1250496027%Z.
Proof. vm_compute. repeat split. Qed.

(** ** Lists built by the simulation *)

Lemma mapi_from_length {A B} (f : A -> nat -> B) xs i :
  List.length (mapi_from i f xs) = List.length xs.
Proof. revert i; induction xs as [|x xs IH]; intros i; simpl; [reflexivity|now rewrite IH]. Qed.

Lemma mapi_from_nth {A B} (f : A -> nat -> B) xs i k dA dB :
  (k < List.length xs)%nat ->
  nth k (mapi_from i f xs) dB = f (nth k xs dA) (i + k)%nat.
Proof.
  revert i k; induction xs as [|x xs IH]; intros i k Hk; simpl in *; [lia|].
  destruct k as [|k].
  - now rewrite Nat.add_0_r.
  - rewrite (IH (S i) k) by lia. f_equal. lia.
Qed.

Lemma mapi_length {A B} (f : A -> nat -> B) xs :
  List.length (mapi f xs) = List.length xs.
Proof. apply mapi_from_length. Qed.

Lemma mapi_nth {A B} (f : A -> nat -> B) xs k dA dB :
  (k < List.length xs)%nat -> nth k (mapi f xs) dB = f (nth k xs dA) k.
Proof. intros Hk. unfold mapi. now rewrite (mapi_from_nth f xs 0 k dA dB Hk). Qed.

(** A callback that succeeds on every reachable generator, and leaves it
    reachable, makes the whole map succeed. *)
Lemma map_rng_total {A B} (f : A -> SeededRandom.t -> option (B * SeededRandom.t)) :
  (forall x r, SeededRandom.reachable r ->
     exists y r', f x r = Some (y, r') /\ SeededRandom.reachable r') ->
  forall xs r, SeededRandom.reachable r ->
    exists ys r', map_rng f xs r = Some (ys, r') /\
                  List.length ys = List.length xs /\ SeededRandom.reachable r'.
Proof.
  intros Hf xs. induction xs as [|x xs IH]; intros r Hr; simpl.
  - exists [], r. auto.
  - destruct (Hf x r Hr) as (y & r1 & E1 & Hr1). rewrite E1.
    destruct (IH r1 Hr1) as (ys & r2 & E2 & Hl & Hr2). rewrite E2.
    exists (y :: ys), r2. simpl. auto.
Qed.

(** Fuel beyond two changes nothing. *)
Lemma map_rng_ext {A B} (f g : A -> SeededRandom.t -> option (B * SeededRandom.t)) :
  (forall x r, f x r = g x r) -> forall xs r, map_rng f xs r = map_rng g xs r.
Proof.
  intros H xs. induction xs as [|x xs IH]; intros r; simpl; [reflexivity|].
  rewrite H. destruct (g x r) as [[y r1]|]; [|reflexivity]. now rewrite IH.
Qed.

Lemma nth_map_seq {B} (f : nat -> B) n i d :
  (i < n)%nat -> nth i (map f (seq 0 n)) d = f i.
Proof.
  intros Hi. rewrite (nth_indep _ d (f 0%nat)) by now rewrite length_map, length_seq.
  rewrite map_nth, seq_nth by exact Hi. reflexivity.
Qed.

Lemma linspace_length start stop num :
  List.length (linspace start stop num) = Z.to_nat num.
Proof.
  unfold linspace.
  destruct (Z.leb_spec num 0); [simpl; lia|].
  destruct (Z.eqb_spec num 1); [subst; reflexivity|].
  now rewrite length_map, length_seq.
Qed.

Lemma linspace_nth start stop num i :
  (2 <= num)%Z -> (i < Z.to_nat num)%nat ->
  nth i (linspace start stop num) 0 =
  start + (stop - start) / inject_Z (num - 1) * inject_Z (Z.of_nat i).
Proof.
  intros Hn Hi. unfold linspace.
  destruct (Z.leb_spec num 0); [lia|].
  destruct (Z.eqb_spec num 1); [lia|].
  now rewrite nth_map_seq.
Qed.

Lemma steps_of_ge d : (10 <= steps_of d)%Z.
Proof. unfold steps_of. lia. Qed.

(** ** The simulation returns *)

Section SimulationFacts.

Variable M : MathHost.

Lemma randn_reachable fuel r :
  (2 <= fuel)%nat -> SeededRandom.reachable r ->
  exists x r', SeededRandom.randn M fuel r = Some (x, r') /\ SeededRandom.reachable r'.
Proof.
  intros Hf Hr. eexists. eexists. split; [apply randn_eq, Hf|].
  apply loop_result_reachable, loop_result_reachable, Hr.
Qed.

Lemma randn_fuel fuel r :
  (2 <= fuel)%nat -> SeededRandom.randn M fuel r = SeededRandom.randn M 2 r.
Proof. intros Hf. rewrite (randn_eq M fuel r Hf), (randn_eq M 2 r) by lia. reflexivity. Qed.

Lemma energie_at_total fuel n t r :
  (2 <= fuel)%nat -> SeededRandom.reachable r ->
  exists y r', energie_at M fuel n t r = Some (y, r') /\ SeededRandom.reachable r'.
Proof.
  intros Hf Hr. unfold energie_at.
  destruct (randn_reachable fuel r Hf Hr) as (x & r' & E & Hr'). rewrite E.
  eexists. eexists. split; [reflexivity|exact Hr'].
Qed.

Lemma phase_at_total fuel n t r :
  (2 <= fuel)%nat -> SeededRandom.reachable r ->
  exists y r', phase_at M fuel n t r = Some (y, r') /\ SeededRandom.reachable r'.
Proof.
  intros Hf Hr. unfold phase_at.
  destruct (randn_reachable fuel r Hf Hr) as (x & r' & E & Hr'). rewrite E.
  eexists. eexists. split; [reflexivity|exact Hr'].
Qed.

Lemma raw_arrays_total fuel d n r :
  (2 <= fuel)%nat -> SeededRandom.reachable r ->
  exists energieArray phaseArray r',
    raw_arrays M fuel d n r =
      Some (linspace 0 d (steps_of d), energieArray, phaseArray, r') /\
    List.length energieArray = Z.to_nat (steps_of d) /\
    List.length phaseArray = Z.to_nat (steps_of d) /\
    SeededRandom.reachable r'.
Proof.
  intros Hf Hr. unfold raw_arrays.
  destruct (map_rng_total (energie_at M fuel n)
              (fun x r0 H => energie_at_total fuel n x r0 Hf H)
              (linspace 0 d (steps_of d)) r Hr) as (es & r1 & E1 & L1 & Hr1).
  rewrite E1.
  destruct (map_rng_total (phase_at M fuel n)
              (fun x r0 H => phase_at_total fuel n x r0 Hf H)
              (linspace 0 d (steps_of d)) r1 Hr1) as (ps & r2 & E2 & L2 & Hr2).
  rewrite E2. exists es, ps, r2.
  rewrite linspace_length in L1, L2. auto.
Qed.

Lemma raw_arrays_fuel fuel d n r :
  (2 <= fuel)%nat -> raw_arrays M fuel d n r = raw_arrays M 2 d n r.
Proof.
  intros Hf. unfold raw_arrays.
  rewrite (map_rng_ext (energie_at M fuel n) (energie_at M 2 n))
    by (intros; unfold energie_at; now rewrite randn_fuel).
  destruct (map_rng (energie_at M 2 n) _ r) as [[es r1]|]; [|reflexivity].
  rewrite (map_rng_ext (phase_at M fuel n) (phase_at M 2 n))
    by (intros; unfold phase_at; now rewrite randn_fuel).
  reflexivity.
Qed.

Lemma calculateSimulationData_fuel fuel d n t r :
  (2 <= fuel)%nat ->
  calculateSimulationData M fuel d n t r = calculateSimulationData M 2 d n t r.
Proof. intros Hf. unfold calculateSimulationData. now rewrite raw_arrays_fuel. Qed.

(** The call returns one sample per time point, each made from the raw
    values at its index. *)
Lemma calculateSimulationData_eq fuel d n t r :
  (2 <= fuel)%nat -> SeededRandom.reachable r ->
  exists energieArray phaseArray r',
    raw_arrays M fuel d n r =
      Some (linspace 0 d (steps_of d), energieArray, phaseArray, r') /\
    List.length energieArray = Z.to_nat (steps_of d) /\
    List.length phaseArray = Z.to_nat (steps_of d) /\
    SeededRandom.reachable r' /\
    calculateSimulationData M fuel d n t r =
      Some (mapi (fun x i => make_point n t x (nth i energieArray 0) (nth i phaseArray 0))
                 (linspace 0 d (steps_of d)), r').
Proof.
  intros Hf Hr.
  destruct (raw_arrays_total fuel d n r Hf Hr) as (es & ps & r' & E & L1 & L2 & Hr').
  exists es, ps, r'. repeat split; auto.
  unfold calculateSimulationData. rewrite linspace_length.
  pose proof (steps_of_ge d).
  destruct (Nat.eqb_spec (Z.to_nat (steps_of d)) 0); [lia|].
  rewrite E. reflexivity.
Qed.

End SimulationFacts.

(** ** Rounded values and the node rule *)

Lemma toFixed_is_reduced x digits : exists y, JS.toFixed x digits = Qred y.
Proof.
  unfold JS.toFixed. destruct (Qle_bool _ _); eexists; reflexivity.
Qed.

(** Two rounded values that are equal as numbers are the same value. *)
Lemma toFixed_eq x y dx dy :
  JS.toFixed x dx == JS.toFixed y dy -> JS.toFixed x dx = JS.toFixed y dy.
Proof.
  destruct (toFixed_is_reduced x dx) as [a ->].
  destruct (toFixed_is_reduced y dy) as [b ->].
  intros H. rewrite !Qred_correct in H. apply Qred_complete, H.
Qed.

Lemma gtb_spec x y : JS.gtb x y = true <-> y < x.
Proof.
  unfold JS.gtb. rewrite negb_true_iff.
  destruct (Qle_bool x y) eqn:E.
  - apply Qle_bool_iff in E. split; [discriminate|intros H; exfalso; lra].
  - split; [intros _|reflexivity].
    apply Qnot_le_lt. intros H. apply Qle_bool_iff in H. congruence.
Qed.

Lemma make_point_fields n t x e p :
  time (make_point n t x e p) = JS.toFixed x 2 /\
  energie (make_point n t x e p) = Some (JS.toFixed e 3) /\
  phase (make_point n t x e p) = Some (JS.toFixed p 3).
Proof. unfold make_point. destruct (_ && _); simpl; auto. Qed.

Lemma make_point_node n t x e p :
  (knoten (make_point n t x e p) <> None <->
     t < e /\ t < p /\ JS.toFixed e 3 == JS.toFixed p 3) /\
  (forall k, knoten (make_point n t x e p) = Some k ->
     k = JS.toFixed e 3 /\
     energie (make_point n t x e p) = Some k /\
     phase (make_point n t x e p) = Some k) /\
  (characteristic (make_point n t x e p) <> None <->
     knoten (make_point n t x e p) <> None).
Proof.
  unfold make_point.
  destruct (JS.gtb e t && JS.gtb p t && JS.eqb (JS.toFixed e 3) (JS.toFixed p 3)) eqn:G;
    cbn [knoten characteristic energie phase].
  - apply andb_true_iff in G as [G12 G3]. apply andb_true_iff in G12 as [G1 G2].
    apply gtb_spec in G1. apply gtb_spec in G2. apply Qeq_bool_iff in G3.
    split; [|split].
    + split; [intros _; auto|intros _; discriminate].
    + intros k Hk. injection Hk as <-.
      split; [reflexivity|]. split; [reflexivity|].
      f_equal. symmetry. apply toFixed_eq, G3.
    + split; intros _; discriminate.
  - split; [|split].
    + split; [intros H; exfalso; apply H; reflexivity|].
      intros (H1 & H2 & H3). exfalso.
      apply gtb_spec in H1. apply gtb_spec in H2. apply Qeq_bool_iff in H3.
      unfold JS.eqb in G. rewrite H1, H2, H3 in G. discriminate.
    + intros k Hk; discriminate.
    + split; intros H; exfalso; apply H; reflexivity.
Qed.

Lemma mapi_from_nth_error {A B} (f : A -> nat -> B) xs i k :
  nth_error (mapi_from i f xs) k = option_map (fun x => f x (i + k)%nat) (nth_error xs k).
Proof.
  revert i k; induction xs as [|x xs IH]; intros i k; destruct k as [|k]; simpl; auto.
  - now rewrite Nat.add_0_r.
  - rewrite IH. destruct (nth_error xs k); simpl; [|reflexivity].
    do 2 f_equal. lia.
Qed.

Lemma mapi_nth_error {A B} (f : A -> nat -> B) xs k :
  nth_error (mapi f xs) k = option_map (fun x => f x k) (nth_error xs k).
Proof. unfold mapi. now rewrite mapi_from_nth_error. Qed.

Lemma nth_error_default {A} (xs : list A) i x d :
  nth_error xs i = Some x -> nth i xs d = x /\ (i < List.length xs)%nat.
Proof.
  intros H. split; [now apply nth_error_nth|].
  apply nth_error_Some. congruence.
Qed.

(** C1 -- determinism of a run: two calls of [calculateSimulationData] with
    the same duration, noise factor and threshold, each on a generator
    freshly constructed from the same seed, both return, and return the same
    sample sequence: the same length and, at every index, the same [time],
    [energie], [phase], [knoten] and [characteristic]. *)
Theorem calculateSimulationData_deterministic
    (M : MathHost) (fuel : nat) (duration noiseFactor threshold seed : Q)
    (rng1 rng2 : SeededRandom.t) :
  (2 <= fuel)%nat ->
  rng1 = SeededRandom.new seed -> rng2 = SeededRandom.new seed ->
  exists run1 run2 rng1' rng2',
    calculateSimulationData M fuel duration noiseFactor threshold rng1 = Some (run1, rng1') /\
    calculateSimulationData M fuel duration noiseFactor threshold rng2 = Some (run2, rng2') /\
    run1 = run2 /\
    List.length run1 = List.length run2 /\
    forall i p1 p2,
      nth_error run1 i = Some p1 -> nth_error run2 i = Some p2 ->
      time p1 = time p2 /\ energie p1 = energie p2 /\ phase p1 = phase p2 /\
      knoten p1 = knoten p2 /\ characteristic p1 = characteristic p2.
Proof.
  intros Hf -> ->.
  destruct (calculateSimulationData_eq M fuel duration noiseFactor threshold
              (SeededRandom.new seed) Hf (SeededRandom.reachable_new seed))
    as (es & ps & r' & _ & _ & _ & _ & E).
  eexists. eexists. exists r', r'.
  split; [exact E|]. split; [exact E|]. split; [reflexivity|]. split; [reflexivity|].
  intros i p1 p2 H1 H2. rewrite H1 in H2. injection H2 as <-. repeat split.
Qed.

Lemma calculateSimulationData_deterministic_witness :
  (2 <= 2)%nat /\
  exists run1 run2 rng1' rng2',
    calculateSimulationData Approx.host 2 10 0.3 1.5 (SeededRandom.new 42) = Some (run1, rng1') /\
    calculateSimulationData Approx.host 2 10 0.3 1.5 (SeededRandom.new 42) = Some (run2, rng2') /\
    run1 = run2 /\
    List.length run1 = List.length run2 /\
    forall i p1 p2,
      nth_error run1 i = Some p1 -> nth_error run2 i = Some p2 ->
      time p1 = time p2 /\ energie p1 = energie p2 /\ phase p1 = phase p2 /\
      knoten p1 = knoten p2 /\ characteristic p1 = characteristic p2.
Proof.
  split; [lia|].
  apply (calculateSimulationData_deterministic Approx.host 2 10 0.3 1.5 42
           (SeededRandom.new 42) (SeededRandom.new 42)); [lia|reflexivity|reflexivity].
Defined.

(** C2 -- node invariant: in the sample at every index, [knoten] is present
    exactly when the raw energy and the raw phase at that index both exceed
    the threshold strictly and their 3-decimal roundings are equal; when
    present it is the rounded energy, which is also the sample's [energie]
    and [phase]; and [characteristic] is present exactly when [knoten] is. *)
Theorem node_invariant
    (M : MathHost) (fuel : nat) (duration noiseFactor threshold : Q)
    (rng : SeededRandom.t) :
  (2 <= fuel)%nat -> SeededRandom.reachable rng ->
  exists timeArray energieArray phaseArray rng' samples,
    raw_arrays M fuel duration noiseFactor rng =
      Some (timeArray, energieArray, phaseArray, rng') /\
    calculateSimulationData M fuel duration noiseFactor threshold rng =
      Some (samples, rng') /\
    List.length samples = List.length timeArray /\
    List.length energieArray = List.length timeArray /\
    List.length phaseArray = List.length timeArray /\
    forall i p, nth_error samples i = Some p ->
      let rawEnergie := nth i energieArray 0 in
      let rawPhase := nth i phaseArray 0 in
      (knoten p <> None <->
         threshold < rawEnergie /\ threshold < rawPhase /\
         JS.toFixed rawEnergie 3 == JS.toFixed rawPhase 3) /\
      (forall k, knoten p = Some k ->
         k = JS.toFixed rawEnergie 3 /\ energie p = Some k /\ phase p = Some k) /\
      (characteristic p <> None <-> knoten p <> None).
Proof.
  intros Hf Hr.
  destruct (calculateSimulationData_eq M fuel duration noiseFactor threshold rng Hf Hr)
    as (es & ps & r' & E0 & L1 & L2 & _ & E).
  exists (linspace 0 duration (steps_of duration)), es, ps, r'.
  eexists. split; [exact E0|]. split; [exact E|].
  rewrite mapi_length, linspace_length.
  split; [reflexivity|]. split; [exact L1|]. split; [exact L2|].
  intros i p H. rewrite mapi_nth_error in H.
  destruct (nth_error (linspace 0 duration (steps_of duration)) i) as [x|];
    [|discriminate].
  cbn [option_map] in H. injection H as <-.
  cbv zeta. apply make_point_node.
Qed.

Lemma node_invariant_witness :
  (2 <= 2)%nat /\ SeededRandom.reachable (SeededRandom.new 42) /\
  exists timeArray energieArray phaseArray rng' samples,
    raw_arrays Approx.host 2 10 0.3 (SeededRandom.new 42) =
      Some (timeArray, energieArray, phaseArray, rng') /\
    calculateSimulationData Approx.host 2 10 0.3 1.5 (SeededRandom.new 42) =
      Some (samples, rng') /\
    List.length samples = List.length timeArray /\
    List.length energieArray = List.length timeArray /\
    List.length phaseArray = List.length timeArray /\
    forall i p, nth_error samples i = Some p ->
      let rawEnergie := nth i energieArray 0 in
      let rawPhase := nth i phaseArray 0 in
      (knoten p <> None <->
         1.5 < rawEnergie /\ 1.5 < rawPhase /\
         JS.toFixed rawEnergie 3 == JS.toFixed rawPhase 3) /\
      (forall k, knoten p = Some k ->
         k = JS.toFixed rawEnergie 3 /\ energie p = Some k /\ phase p = Some k) /\
      (characteristic p <> None <-> knoten p <> None).
Proof.
  split; [lia|]. split; [apply SeededRandom.reachable_new|].
  apply (node_invariant Approx.host 2 10 0.3 1.5 (SeededRandom.new 42));
    [lia|apply SeededRandom.reachable_new].
Defined.

(** ** Time points *)

Lemma inject_Z_nonzero z : z <> 0%Z -> ~ inject_Z z == 0.
Proof. intros Hz E. unfold Qeq in E. simpl in E. lia. Qed.

Lemma time_points_spaced d i :
  (i < Z.to_nat (steps_of d))%nat ->
  nth i (linspace 0 d (steps_of d)) 0 ==
  d / inject_Z (steps_of d - 1) * inject_Z (Z.of_nat i).
Proof.
  intros Hi. pose proof (steps_of_ge d).
  rewrite linspace_nth by (auto; lia).
  assert (~ inject_Z (steps_of d - 1) == 0).
  { apply inject_Z_nonzero. lia. }
  field. assumption.
Qed.

Lemma time_points_first d : nth 0 (linspace 0 d (steps_of d)) 0 == 0.
Proof.
  pose proof (steps_of_ge d).
  rewrite time_points_spaced by lia. simpl inject_Z. ring.
Qed.

Lemma sample_time M fuel d n t r samples r' i p :
  (2 <= fuel)%nat -> SeededRandom.reachable r ->
  calculateSimulationData M fuel d n t r = Some (samples, r') ->
  nth_error samples i = Some p ->
  time p = JS.toFixed (nth i (linspace 0 d (steps_of d)) 0) 2 /\
  (i < Z.to_nat (steps_of d))%nat.
Proof.
  intros Hf Hr E H.
  destruct (calculateSimulationData_eq M fuel d n t r Hf Hr)
    as (es & ps & r2 & _ & _ & _ & _ & E').
  rewrite E' in E. injection E as <- <-.
  rewrite mapi_nth_error in H.
  destruct (nth_error (linspace 0 d (steps_of d)) i) as [x|] eqn:Ex; [|discriminate].
  cbn [option_map] in H. injection H as <-.
  destruct (nth_error_default _ _ _ 0 Ex) as [-> Hi].
  rewrite linspace_length in Hi.
  split; [apply make_point_fields|exact Hi].
Qed.

(** ** Rounding to two decimals *)


Lemma toFixed2_nonneg x : 0 <= x -> 0 <= JS.toFixed x 2.
Proof.
  intros Hx. unfold JS.toFixed.
  destruct (Qle_bool (inject_Z (10 ^ 21)) (Qabs x)).
  - rewrite Qred_correct. exact Hx.
  - rewrite Qred_correct. apply Qle_bool_iff in Hx. rewrite Hx.
    assert (Hn : (0 <= Qfloor (Qabs x * inject_Z (10 ^ Z.of_nat 2) + (1 # 2)))%Z).
    { rewrite <- (Qfloor_Z 0). apply Qfloor_resp_le.
      pose proof (Qabs_nonneg x).
      change (inject_Z (10 ^ Z.of_nat 2)) with 100. change (inject_Z 0) with 0. lra. }
    revert Hn. generalize (Qfloor (Qabs x * inject_Z (10 ^ Z.of_nat 2) + (1 # 2))).
    intros n Hn. unfold Qle. simpl. lia.
Qed.



(** ** The time axis on doubles *)

Lemma linspace64_length start stop num :
  List.length (TimeAxis64.linspace start stop num) = Z.to_nat num.
Proof.
  unfold TimeAxis64.linspace.
  destruct (Z.leb_spec num 0); [simpl; lia|].
  destruct (Z.eqb_spec num 1); [subst; reflexivity|].
  rewrite length_map, length_seq. reflexivity.
Qed.

Lemma linspace64_nth start stop num i :
  (2 <= num)%Z -> (i < Z.to_nat num)%nat ->
  nth i (TimeAxis64.linspace start stop num) S754_nan =
  B64.add start
    (B64.mul (B64.div (B64.sub stop start) (B64.of_int (num - 1)))
             (B64.of_int (Z.of_nat i))).
Proof.
  intros Hn Hi. unfold TimeAxis64.linspace.
  destruct (Z.leb_spec num 0); [lia|].
  destruct (Z.eqb_spec num 1); [lia|].
  rewrite (nth_indep _ S754_nan
             (B64.add start
                (B64.mul (B64.div (B64.sub stop start) (B64.of_int (num - 1)))
                         (B64.of_int (Z.of_nat 0)))))
    by (rewrite length_map, length_seq; exact Hi).
  rewrite (map_nth (fun i => B64.add start
             (B64.mul (B64.div (B64.sub stop start) (B64.of_int (num - 1)))
                      (B64.of_int (Z.of_nat i))))).
  rewrite seq_nth by exact Hi. reflexivity.
Qed.

Lemma linspace64_nth_of_steps duration steps i :
  TimeAxis64.steps_of duration = Some steps -> (2 <= steps)%Z ->
  (i < Z.to_nat steps)%nat ->
  nth i (TimeAxis64.timeArray duration) S754_nan =
  B64.add (S754_zero false)
    (B64.mul (B64.div (B64.sub duration (S754_zero false)) (B64.of_int (steps - 1)))
             (B64.of_int (Z.of_nat i))).
Proof.
  intros E Hn Hi. unfold TimeAxis64.timeArray. rewrite E.
  apply linspace64_nth; assumption.
Qed.

Lemma steps64_spec duration steps :
  TimeAxis64.steps_of duration = Some steps ->
  steps = Z.max 10 (B64.floor (B64.mul duration (B64.of_int 100))) /\ (10 <= steps)%Z.
Proof.
  unfold TimeAxis64.steps_of.
  destruct (B64.mul duration (B64.of_int 100)) as [s|[|]| |s m e];
    intros H; try discriminate H; injection H as <-; cbn [B64.floor]; split; lia.
Qed.

(** The facts of C3 for one whole-number duration, on the points as the
    code computes them. *)
Lemma whole_number_duration (d : Z) :
  (1 <= d <= 200)%Z ->
  TimeAxis64.steps_of (B64.of_int d) = Some (100 * d)%Z /\
  B64.add (S754_zero false)
    (B64.mul (B64.div (B64.sub (B64.of_int d) (S754_zero false))
                      (B64.of_int (100 * d - 1)))
             (B64.of_int 0)) = S754_zero false /\
  TimeAxis64.time_field
    (B64.add (S754_zero false)
       (B64.mul (B64.div (B64.sub (B64.of_int d) (S754_zero false))
                         (B64.of_int (100 * d - 1)))
                (B64.of_int (100 * d - 1)))) = inject_Z d.
Proof.
  intros Hd.
  set (check := fun n : nat =>
    let d := Z.of_nat n in
    let step := B64.div (B64.sub (B64.of_int d) (S754_zero false))
                        (B64.of_int (100 * d - 1)) in
    match TimeAxis64.steps_of (B64.of_int d) with
    | Some steps => (steps =? 100 * d)%Z
    | None => false
    end
    && match B64.add (S754_zero false) (B64.mul step (B64.of_int 0)) with
       | S754_zero false => true
       | _ => false
       end
    && match TimeAxis64.time_field
               (B64.add (S754_zero false) (B64.mul step (B64.of_int (100 * d - 1)))) with
       | Qmake n 1 => (n =? d)%Z
       | _ => false
       end).
  assert (H : forallb check (seq 1 200) = true) by (vm_compute; reflexivity).
  rewrite forallb_forall in H.
  specialize (H (Z.to_nat d)). unfold check in H. rewrite Z2Nat.id in H by lia.
  cbv zeta in H.
  assert (Hin : In (Z.to_nat d) (seq 1 200)) by (apply in_seq; lia).
  specialize (H Hin).
  apply andb_prop in H as [H H3]. apply andb_prop in H as [H1 H2].
  split; [|split].
  - destruct (TimeAxis64.steps_of (B64.of_int d)) as [steps|]; [|discriminate H1].
    apply Z.eqb_eq in H1. subst steps. reflexivity.
  - destruct (B64.add _ _) as [[|]|?| |? ? ?]; try discriminate H2. reflexivity.
  - destruct (TimeAxis64.time_field _) as [n [?|?|]]; try discriminate H3.
    apply Z.eqb_eq in H3. subst n. reflexivity.
Qed.

(** C3, as the code has it -- sample count and endpoints on doubles.  The
    call returns exactly [max(10, floor(duration * 100))] samples, the
    product being the rounded one; the underlying time of sample [i] is
    [0 + step * i] with [step = (duration - 0) / (steps - 1)], each
    operation rounded.  For every whole-number duration from 1 to 200,
    hence for every position of the application's slider, these are
    [100 * duration] samples, the first underlying time is [0] and the time
    field of the last sample is the duration.  In particular, for duration
    10 there are exactly 1000 samples, the first with time 0 and the last
    with time 10. *)
Theorem sample_count_and_endpoints :
  (forall (duration : spec_float) (steps : Z),
     TimeAxis64.steps_of duration = Some steps ->
     let step :=
       B64.div (B64.sub duration (S754_zero false)) (B64.of_int (steps - 1)) in
     steps = Z.max 10 (B64.floor (B64.mul duration (B64.of_int 100))) /\
     List.length (TimeAxis64.sample_times duration) = Z.to_nat steps /\
     List.length (TimeAxis64.timeArray duration) = Z.to_nat steps /\
     (forall i, (i < Z.to_nat steps)%nat ->
        nth i (TimeAxis64.timeArray duration) S754_nan =
          B64.add (S754_zero false) (B64.mul step (B64.of_int (Z.of_nat i))) /\
        nth i (TimeAxis64.sample_times duration) 0 =
          TimeAxis64.time_field (nth i (TimeAxis64.timeArray duration) S754_nan))) /\
  (forall d : Z, (1 <= d <= 200)%Z ->
     List.length (TimeAxis64.sample_times (B64.of_int d)) = Z.to_nat (100 * d) /\
     nth 0 (TimeAxis64.timeArray (B64.of_int d)) S754_nan = S754_zero false /\
     nth 0 (TimeAxis64.sample_times (B64.of_int d)) 0 = 0 /\
     nth (Z.to_nat (100 * d) - 1) (TimeAxis64.sample_times (B64.of_int d)) 0 =
       inject_Z d) /\
  (List.length (TimeAxis64.sample_times (B64.of_int 10)) = 1000%nat /\
   nth 0 (TimeAxis64.sample_times (B64.of_int 10)) 0 = 0 /\
   nth 999 (TimeAxis64.sample_times (B64.of_int 10)) 0 = 10 /\
   nth 999 (TimeAxis64.timeArray (B64.of_int 10)) S754_nan = B64.of_int 10).
Proof.
  assert (General : forall duration steps,
     TimeAxis64.steps_of duration = Some steps ->
     steps = Z.max 10 (B64.floor (B64.mul duration (B64.of_int 100))) /\
     List.length (TimeAxis64.sample_times duration) = Z.to_nat steps /\
     List.length (TimeAxis64.timeArray duration) = Z.to_nat steps /\
     (forall i, (i < Z.to_nat steps)%nat ->
        nth i (TimeAxis64.timeArray duration) S754_nan =
          B64.add (S754_zero false)
            (B64.mul (B64.div (B64.sub duration (S754_zero false))
                              (B64.of_int (steps - 1)))
                     (B64.of_int (Z.of_nat i))) /\
        nth i (TimeAxis64.sample_times duration) 0 =
          TimeAxis64.time_field (nth i (TimeAxis64.timeArray duration) S754_nan))).
  { intros duration steps E.
    destruct (steps64_spec duration steps E) as [Es Hs].
    assert (L : List.length (TimeAxis64.timeArray duration) = Z.to_nat steps).
    { unfold TimeAxis64.timeArray. rewrite E. apply linspace64_length. }
    split; [exact Es|].
    split; [unfold TimeAxis64.sample_times; rewrite length_map; exact L|].
    split; [exact L|].
    intros i Hi. split.
    - unfold TimeAxis64.timeArray. rewrite E. apply linspace64_nth; [lia|exact Hi].
    - unfold TimeAxis64.sample_times.
      rewrite (nth_indep _ 0 (TimeAxis64.time_field S754_nan))
        by (rewrite length_map, L; exact Hi).
      apply map_nth. }
  assert (Whole : forall d : Z, (1 <= d <= 200)%Z ->
     List.length (TimeAxis64.sample_times (B64.of_int d)) = Z.to_nat (100 * d) /\
     nth 0 (TimeAxis64.timeArray (B64.of_int d)) S754_nan = S754_zero false /\
     nth 0 (TimeAxis64.sample_times (B64.of_int d)) 0 = 0 /\
     nth (Z.to_nat (100 * d) - 1) (TimeAxis64.sample_times (B64.of_int d)) 0 =
       inject_Z d).
  { intros d Hd.
    destruct (whole_number_duration d Hd) as (E & First & Last).
    destruct (General (B64.of_int d) (100 * d)%Z E) as (_ & L & _ & Hnth).
    destruct (Hnth 0%nat ltac:(lia)) as [T0 F0].
    destruct (Hnth (Z.to_nat (100 * d) - 1)%nat ltac:(lia)) as [T9 F9].
    replace (Z.of_nat (Z.to_nat (100 * d) - 1)) with (100 * d - 1)%Z in T9 by lia.
    change (Z.of_nat 0) with 0%Z in T0.
    split; [exact L|]. split; [rewrite T0; exact First|].
    split; [rewrite F0, T0, First; reflexivity|].
    rewrite F9, T9. exact Last. }
  split; [intros duration steps E; cbv zeta; apply General, E|].
  split; [exact Whole|].
  destruct (Whole 10%Z ltac:(lia)) as (L & _ & F0 & F9).
  split; [exact L|]. split; [exact F0|]. split; [exact F9|].
  destruct (General (B64.of_int 10) 1000%Z ltac:(vm_compute; reflexivity))
    as (_ & _ & _ & Hnth).
  rewrite (proj1 (Hnth 999%nat ltac:(lia))). vm_compute. reflexivity.
Qed.

Lemma sample_count_and_endpoints_witness :
  TimeAxis64.steps_of (B64.of_Q 0.3) = Some 30%Z /\
  List.length (TimeAxis64.sample_times (B64.of_Q 0.3)) = 30%nat /\
  List.length (TimeAxis64.sample_times (B64.of_Q 0.115)) = 11%nat /\
  nth 10 (TimeAxis64.sample_times (B64.of_Q 0.115)) 0 == 0.11.
Proof.
  assert (E : TimeAxis64.steps_of (B64.of_Q 0.3) = Some 30%Z) by (vm_compute; reflexivity).
  split; [exact E|].
  split; [|split; vm_compute; reflexivity].
  exact (proj1 (proj2 (proj1 sample_count_and_endpoints (B64.of_Q 0.3) 30%Z E))).
Defined.

(** C3, as stated, fails on doubles.  For the double of 0.3 the code makes
    30 samples, while the floor of the exact product of that double with
    100 is 29; for duration 0.29 it makes 28 samples, while
    [floor(0.29 * 100)] is 29.  For duration 30 the last underlying time
    is the double below 30, so the points do not reach the duration. *)
Lemma time_axis_is_rounded :
  (TimeAxis64.steps_of (B64.of_Q 0.3) = Some 30%Z /\
   Z.max 10 (Qfloor (B64.to_Q (B64.of_Q 0.3) * 100)) = 29%Z) /\
  (TimeAxis64.steps_of (B64.of_Q 0.29) = Some 28%Z /\
   Z.max 10 (Qfloor (0.29 * 100)) = 29%Z) /\
  (List.length (TimeAxis64.timeArray (B64.of_int 30)) = 3000%nat /\
   nth 2999 (TimeAxis64.timeArray (B64.of_int 30)) S754_nan <> B64.of_int 30 /\
   B64.to_Q (nth 2999 (TimeAxis64.timeArray (B64.of_int 30)) S754_nan) < 30).
Proof.
  split; [split; vm_compute; reflexivity|].
  split; [split; vm_compute; reflexivity|].
  split; [vm_compute; reflexivity|].
  rewrite (linspace64_nth_of_steps (B64.of_int 30) 3000 2999)
    by (first [vm_compute; reflexivity | lia]).
  split; [vm_compute; discriminate|vm_compute; reflexivity].
Qed.




(** ** The histogram *)

Lemma increment_at_length i dist :
  List.length (Stats.increment_at i dist) = List.length dist.
Proof.
  revert i; induction dist as [|s rest IH]; intros [|i]; simpl; auto.
Qed.

Lemma increment_at_total i dist :
  (i < List.length dist)%nat ->
  Stats.total_count (Stats.increment_at i dist) = S (Stats.total_count dist).
Proof.
  revert i; induction dist as [|s rest IH]; intros [|i] Hi; simpl in *; try lia.
  rewrite IH by lia. lia.
Qed.

Lemma initial_distribution_length d :
  List.length (Stats.initial_distribution d) = 10%nat.
Proof. unfold Stats.initial_distribution. now rewrite length_map, length_seq. Qed.

Lemma initial_distribution_total d :
  Stats.total_count (Stats.initial_distribution d) = 0%nat.
Proof. reflexivity. Qed.

Lemma segmentIndex_bounds d x :
  0 < d -> 0 <= x -> (0 <= Stats.segmentIndex_of d x <= 9)%Z.
Proof.
  intros Hd Hx. unfold Stats.segmentIndex_of, Stats.timeSegments.
  assert (H0 : (0 <= Qfloor (x / (d / inject_Z 10)))%Z).
  { rewrite <- (Qfloor_Z 0). apply Qfloor_resp_le. change (inject_Z 0) with 0.
    apply Qle_shift_div_l.
    - apply Qlt_shift_div_l; [reflexivity|]. lra.
    - lra. }
  lia.
Qed.

Lemma count_knoten_length dist idx :
  List.length (Stats.count_knoten dist idx) = List.length dist.
Proof.
  unfold Stats.count_knoten. destruct (_ && _); [apply increment_at_length|reflexivity].
Qed.

Lemma count_knoten_total dist idx :
  (0 <= idx < Z.of_nat (List.length dist))%Z ->
  Stats.total_count (Stats.count_knoten dist idx) = S (Stats.total_count dist).
Proof.
  intros [H1 H2]. unfold Stats.count_knoten.
  destruct (Z.leb_spec 0 idx); [|lia].
  destruct (Z.ltb_spec idx (Z.of_nat (List.length dist))); [|lia].
  apply increment_at_total. lia.
Qed.

Lemma forEach_counts d allKnoten dist :
  0 < d -> Forall (fun k => 0 <= time k) allKnoten ->
  List.length dist = 10%nat ->
  let dist' :=
    fold_left (fun distribution knoten =>
                 Stats.count_knoten distribution (Stats.segmentIndex_of d (time knoten)))
              allKnoten dist in
  List.length dist' = 10%nat /\
  Stats.total_count dist' = (Stats.total_count dist + List.length allKnoten)%nat.
Proof.
  intros Hd Hall. revert dist.
  induction Hall as [|k rest Hk _ IH]; intros dist Hlen; simpl.
  - split; [exact Hlen|lia].
  - pose proof (segmentIndex_bounds d (time k) Hd Hk) as B.
    destruct (IH (Stats.count_knoten dist (Stats.segmentIndex_of d (time k)))) as [L T].
    { now rewrite count_knoten_length. }
    split; [exact L|].
    rewrite T, count_knoten_total by (rewrite Hlen; lia). lia.
Qed.

(** ** The histogram on doubles *)

Lemma increment_at_count i dist j dflt :
  (i < List.length dist)%nat ->
  Stats.count (nth j (Stats.increment_at i dist) dflt) =
    (Stats.count (nth j dist dflt) + if (i =? j)%nat then 1 else 0)%nat.
Proof.
  revert i j; induction dist as [|s rest IH]; intros [|i] [|j] Hi; simpl in *;
    try lia.
  apply IH. lia.
Qed.

Lemma initial_distribution64_length d :
  List.length (Histogram64.initial_distribution d) = 10%nat.
Proof. unfold Histogram64.initial_distribution. now rewrite length_map, length_seq. Qed.

Lemma initial_distribution64_counts d :
  Forall (fun s => Stats.count s = 0%nat) (Histogram64.initial_distribution d).
Proof.
  unfold Histogram64.initial_distribution. apply Forall_forall. intros s Hs.
  apply in_map_iff in Hs as (i & <- & _). reflexivity.
Qed.

Lemma segmentIndex64_range d x :
  B64.positive_finite (Histogram64.segmentDuration d) -> 0 <= x ->
  exists j, Histogram64.segmentIndex_of d x = Some (Z.of_nat j) /\ (j <= 9)%nat.
Proof.
  intros Hd Hx. unfold Histogram64.segmentIndex_of.
  destruct (min_floor_range
              (B64.div (B64.of_Q x) (Histogram64.segmentDuration d))
              (Stats.timeSegments - 1)) as (j & E & Hj).
  - apply div_nonneg; [apply of_Q_nonneg, Hx|exact Hd].
  - unfold Stats.timeSegments. lia.
  - unfold Stats.timeSegments in Hj. exists (Z.to_nat j).
    rewrite Z2Nat.id by lia. split; [exact E|lia].
Qed.

(** The loop over the nodes: what it adds to each bucket. *)
Lemma forEach64_counts d allKnoten dflt :
  (forall k, In k allKnoten ->
     exists j, Histogram64.segmentIndex_of d (time k) = Some (Z.of_nat j) /\ (j <= 9)%nat) ->
  forall dist, List.length dist = 10%nat ->
  let dist' :=
    fold_left (fun distribution knoten =>
                 Histogram64.count_knoten distribution
                   (Histogram64.segmentIndex_of d (time knoten)))
              allKnoten dist in
  List.length dist' = 10%nat /\
  Stats.total_count dist' = (Stats.total_count dist + List.length allKnoten)%nat /\
  forall j, Stats.count (nth j dist' dflt) =
            (Stats.count (nth j dist dflt) +
             List.length (nodes_in_bucket d allKnoten j))%nat.
Proof.
  induction allKnoten as [|k rest IH]; intros Hidx dist Hlen; cbn [fold_left].
  - split; [exact Hlen|]. split; [simpl; lia|]. intros j. simpl. lia.
  - destruct (Hidx k (or_introl eq_refl)) as (i & Ei & Hi).
    destruct (IH (fun k' H => Hidx k' (or_intror H))
                 (Histogram64.count_knoten dist (Histogram64.segmentIndex_of d (time k))))
      as (L & T & C).
    { rewrite Ei. cbn [Histogram64.count_knoten]. rewrite count_knoten_length. exact Hlen. }
    split; [exact L|]. split.
    + rewrite T, Ei. cbn [Histogram64.count_knoten List.length].
      rewrite count_knoten_total by (rewrite Hlen; lia). lia.
    + intros j. rewrite C, Ei. cbn [Histogram64.count_knoten].
      unfold Stats.count_knoten.
      destruct (Z.leb_spec 0 (Z.of_nat i)); [|lia].
      destruct (Z.ltb_spec (Z.of_nat i) (Z.of_nat (List.length dist))); [|lia].
      cbn [andb]. rewrite Nat2Z.id, increment_at_count by lia.
      unfold nodes_in_bucket. cbn [filter]. rewrite Ei.
      destruct (Nat.eqb_spec i j) as [->|Hne].
      * rewrite Z.eqb_refl. cbn [List.length]. lia.
      * destruct (Z.eqb_spec (Z.of_nat i) (Z.of_nat j)); [lia|]. lia.
Qed.

(** The boundary sample of a whole-number duration falls into bucket 9. *)
Lemma boundary_sample_bucket (d : Z) :
  (1 <= d <= 200)%Z ->
  Histogram64.segmentIndex_of (inject_Z d) (inject_Z d) = Some 9%Z.
Proof.
  intros Hd.
  set (check := fun n : nat =>
    match Histogram64.segmentIndex_of (inject_Z (Z.of_nat n)) (inject_Z (Z.of_nat n)) with
    | Some i => (i =? 9)%Z
    | None => false
    end).
  assert (H : forallb check (seq 1 200) = true) by (vm_compute; reflexivity).
  rewrite forallb_forall in H.
  specialize (H (Z.to_nat d) ltac:(apply in_seq; lia)).
  unfold check in H. rewrite Z2Nat.id in H by lia.
  destruct (Histogram64.segmentIndex_of (inject_Z d) (inject_Z d)) as [i|];
    [|discriminate H].
  apply Z.eqb_eq in H. subst i. reflexivity.
Qed.

(** C7, as the code has it -- histogram conservation and clamping on
    doubles.  For a duration whose tenth is a positive double and node
    samples with non-negative times, every node is counted in the bucket
    [min(floor(time / (duration / 10)), 9)], both quotients rounded, which
    lies between 0 and 9; each of the ten counts is the number of nodes with
    that bucket; the ten counts add up to the number of nodes; and for every
    whole-number duration from 1 to 200 the boundary sample [time =
    duration] falls into bucket 9. *)
Theorem histogram_conservation (duration : Q) (allKnoten : list SimulationDataPoint) :
  B64.positive_finite (Histogram64.segmentDuration duration) ->
  Forall (fun k => 0 <= time k) allKnoten ->
  let distribution := Histogram64.knotenDistribution_of duration allKnoten in
  (forall k, In k allKnoten ->
     exists j, Histogram64.segmentIndex_of duration (time k) = Some (Z.of_nat j) /\
               (j <= 9)%nat /\ In k (nodes_in_bucket duration allKnoten j)) /\
  List.length distribution = 10%nat /\
  (forall j, (j < 10)%nat ->
     Stats.count (nth j distribution {| Stats.timeSegment := (0, 0); Stats.count := 0 |}) =
       List.length (nodes_in_bucket duration allKnoten j)) /\
  Stats.total_count distribution = List.length allKnoten /\
  (forall d : Z, (1 <= d <= 200)%Z ->
     Histogram64.segmentIndex_of (inject_Z d) (inject_Z d) = Some 9%Z).
Proof.
  intros Hd Hall. cbv zeta. rewrite Forall_forall in Hall.
  assert (Hidx : forall k, In k allKnoten ->
            exists j, Histogram64.segmentIndex_of duration (time k) = Some (Z.of_nat j) /\
                      (j <= 9)%nat).
  { intros k Hk. apply segmentIndex64_range; [exact Hd|apply Hall, Hk]. }
  destruct (forEach64_counts duration allKnoten
              {| Stats.timeSegment := (0, 0); Stats.count := 0 |} Hidx
              (Histogram64.initial_distribution duration)
              (initial_distribution64_length duration)) as (L & T & C).
  split; [|split; [exact L|split; [|split; [exact T|exact boundary_sample_bucket]]]].
  - intros k Hk. destruct (Hidx k Hk) as (j & E & Hj).
    exists j. split; [exact E|]. split; [exact Hj|].
    unfold nodes_in_bucket. apply filter_In. split; [exact Hk|].
    rewrite E. apply Z.eqb_refl.
  - intros j Hj. unfold Histogram64.knotenDistribution_of. rewrite C.
    pose proof (initial_distribution64_counts duration) as Z0.
    rewrite Forall_forall in Z0.
    rewrite (Z0 (nth j (Histogram64.initial_distribution duration) _)); [reflexivity|].
    apply nth_In. rewrite initial_distribution64_length. exact Hj.
Qed.

Lemma histogram_conservation_witness :
  let node t :=
    {| time := t; energie := Some 1.6; phase := Some 1.6; knoten := Some 1.6;
       characteristic := Some "Standard-Resonanzknoten"%string |} in
  let allKnoten := [node 3.14; node 10; node 0.3; node 2.99] in
  B64.positive_finite (Histogram64.segmentDuration 10) /\
  Forall (fun k => 0 <= time k) allKnoten /\
  map Stats.count (Histogram64.knotenDistribution_of 10 allKnoten) =
    [1; 0; 1; 1; 0; 0; 0; 0; 0; 1]%nat /\
  Stats.total_count (Histogram64.knotenDistribution_of 10 allKnoten) =
    List.length allKnoten.
Proof.
  intros node allKnoten.
  assert (Hd : B64.positive_finite (Histogram64.segmentDuration 10))
    by (vm_compute; exact I).
  assert (Hall : Forall (fun k => 0 <= time k) allKnoten).
  { repeat constructor; simpl; discriminate. }
  split; [exact Hd|]. split; [exact Hall|]. split; [vm_compute; reflexivity|].
  exact (proj1 (proj2 (proj2 (proj2 (histogram_conservation 10 allKnoten Hd Hall))))).
Defined.

(** C7, as stated, fails on doubles.  For a node at time 0.3 and duration 1
    the code counts bucket 2, while [floor(0.3 / (1 / 10))] is 3; for a node
    at time 1.4 and duration 7 it counts bucket 2, while the exact quotient
    of these doubles has floor 1.  And for the smallest positive double as
    duration the tenth is rounded to 0, the index of a node at time 0 is
    [NaN], and the node is not counted. *)
Lemma bucket_is_decided_on_doubles :
  (Histogram64.segmentIndex_of 1 0.3 = Some 2%Z /\
   Z.min (Qfloor (0.3 / (1 / 10))) 9 = 3%Z) /\
  (Histogram64.segmentIndex_of 7 1.4 = Some 2%Z /\
   Z.min (Qfloor (B64.to_Q (B64.of_Q 1.4) / (B64.to_Q (B64.of_Q 7) / 10))) 9 = 1%Z) /\
  (let smallest := 1 # (2 ^ 1074) in
   let node :=
     {| time := 0; energie := Some 1.6; phase := Some 1.6; knoten := Some 1.6;
        characteristic := Some "Standard-Resonanzknoten"%string |} in
   0 < smallest /\
   B64.of_Q smallest = S754_finite false 1 (-1074) /\
   Histogram64.segmentDuration smallest = S754_zero false /\
   Histogram64.segmentIndex_of smallest (time node) = None /\
   Stats.total_count (Histogram64.knotenDistribution_of smallest [node]) = 0%nat).
Proof.
  split; [split; vm_compute; reflexivity|].
  split; [split; vm_compute; reflexivity|].
  cbv zeta. split; [reflexivity|].
  split; [vm_compute; reflexivity|].
  split; [vm_compute; reflexivity|].
  split; vm_compute; reflexivity.
Qed.

(** Every sample of a run of positive duration has a non-negative time. *)
Lemma sample_time_nonneg M fuel d n t r samples r' p :
  0 < d -> (2 <= fuel)%nat -> SeededRandom.reachable r ->
  calculateSimulationData M fuel d n t r = Some (samples, r') ->
  In p samples -> 0 <= time p.
Proof.
  intros Hd Hf Hr E Hp.
  apply In_nth_error in Hp as [i Hi].
  destruct (sample_time M fuel d n t r samples r' i p Hf Hr E Hi) as [-> Hlt].
  apply toFixed2_nonneg. rewrite time_points_spaced by exact Hlt.
  pose proof (steps_of_ge d).
  apply Qmult_le_0_compat.
  - apply Qle_shift_div_l; [change 0 with (inject_Z 0); rewrite <- Zlt_Qlt; lia|lra].
  - change 0 with (inject_Z 0). rewrite <- Zle_Qle. lia.
Qed.

Lemma collect_knoten_total M fuel rnd d n t runs :
  0 < d -> (2 <= fuel)%nat ->
  forall call acc, Forall (fun k => 0 <= time k) acc ->
  exists allKnoten,
    Stats.collect_knoten M fuel rnd d n t runs call acc = Some allKnoten /\
    Forall (fun k => 0 <= time k) allKnoten.
Proof.
  intros Hd Hf. induction runs as [|runs IH]; intros call acc Hacc;
    cbn [Stats.collect_knoten].
  - exists acc. auto.
  - set (rng := SeededRandom.new (inject_Z (Qfloor (rnd call * 10000000)))).
    destruct (calculateSimulationData_eq M fuel d n t rng Hf (SeededRandom.reachable_new _))
      as (es & ps & r' & _ & _ & _ & _ & E).
    rewrite E. apply IH.
    apply Forall_app. split; [exact Hacc|].
    apply Forall_forall. intros p Hp. apply filter_In in Hp as [Hp _].
    apply (sample_time_nonneg M fuel d n t rng _ r' p Hd Hf (SeededRandom.reachable_new _) E Hp).
Qed.

(** The batch analysis itself: its runs return, and the histogram it
    reports adds up to the number of nodes it reports. *)
Corollary handleRunAnalysis_conserves M fuel rnd numRuns d n t :
  0 < d -> (2 <= fuel)%nat ->
  exists result,
    Stats.handleRunAnalysis M fuel rnd numRuns d n t = Some result /\
    Stats.total_count (Stats.knotenDistribution result) = Stats.totalKnoten result.
Proof.
  intros Hd Hf. unfold Stats.handleRunAnalysis.
  destruct (collect_knoten_total M fuel rnd d n t numRuns Hd Hf 0%nat [] (Forall_nil _))
    as (allKnoten & E & Hall).
  rewrite E. eexists. split; [reflexivity|]. cbn [Stats.knotenDistribution Stats.totalKnoten].
  destruct (forEach_counts d allKnoten (Stats.initial_distribution d)
              Hd Hall (initial_distribution_length d)) as [_ T].
  unfold Stats.knotenDistribution_of. rewrite T. reflexivity.
Qed.

(** ** The Riemann scalar *)

Lemma ltb_spec x y : JS.ltb x y = true <-> x < y.
Proof. unfold JS.ltb. apply (gtb_spec y x). Qed.

Lemma clamp_cases x lo hi :
  lo <= hi ->
  (x < lo /\ Stats.clamp x lo hi = lo) \/
  (hi < x /\ Stats.clamp x lo hi = hi) \/
  (lo <= x <= hi /\ Stats.clamp x lo hi = x).
Proof.
  intros Hlh. unfold Stats.clamp.
  destruct (JS.ltb x lo) eqn:L.
  - left. apply ltb_spec in L. auto.
  - assert (Hlo : lo <= x).
    { apply Qnot_lt_le. intros H. apply ltb_spec in H. congruence. }
    destruct (JS.gtb x hi) eqn:G.
    + right; left. apply gtb_spec in G. auto.
    + right; right. split; [|reflexivity]. split; [exact Hlo|].
      apply Qnot_lt_le. intros H. apply gtb_spec in H. congruence.
Qed.

Lemma max_min_is_clamp x lo hi :
  lo <= hi -> Qmax lo (Qmin x hi) == Stats.clamp x lo hi.
Proof.
  intros Hlh.
  destruct (clamp_cases x lo hi Hlh) as [[H ->]|[[H ->]|[[H1 H2] ->]]].
  - rewrite (Q.min_l x hi) by lra. apply Q.max_l. lra.
  - rewrite (Q.min_r x hi) by lra. apply Q.max_r. exact Hlh.
  - rewrite (Q.min_l x hi) by lra. apply Q.max_r. exact H1.
Qed.

Lemma clamp_compat x y lo hi :
  lo <= hi -> x == y -> Stats.clamp x lo hi == Stats.clamp y lo hi.
Proof.
  intros Hlh E.
  destruct (clamp_cases x lo hi Hlh) as [[H ->]|[[H ->]|[[H1 H2] ->]]];
  destruct (clamp_cases y lo hi Hlh) as [[H' ->]|[[H' ->]|[[H1' H2'] ->]]];
  lra.
Qed.

Lemma clamp_range x lo hi : lo <= hi -> lo <= Stats.clamp x lo hi <= hi.
Proof.
  intros Hlh.
  destruct (clamp_cases x lo hi Hlh) as [[H ->]|[[H ->]|[[H1 H2] ->]]]; lra.
Qed.

(** C8, as the code has it -- the per-node scalar is
    [clamp(0.5 + (relativeExcess - n) * C, 0, 1)] where [relativeExcess] is
    the clamp into [[0, 5]] of [(max(e, t) - t) / t] when [t > 0.001] and of
    [(e > 0 ? e * 2 : 0)] otherwise: the fallback value is clamped as well.
    The scalar lies in [[0, 1]], and it is the value of the formula with the
    unclamped fallback whenever [t > 0.001] or [e <= 2.5]. *)
Theorem riemann_scalar_formula (e t n C : Q) :
  Stats.calculatedReS e t n C == Stats.clamped_scalar e t n C /\
  0 <= Stats.calculatedReS e t n C <= 1 /\
  0 <= Stats.clamped_relativeExcess e t <= 5 /\
  (0.001 < t \/ e <= 2.5 ->
   Stats.calculatedReS e t n C == Stats.stated_scalar e t n C).
Proof.
  assert (H05 : 0 <= 5) by discriminate.
  assert (H01 : 0 <= 1) by discriminate.
  assert (E : Stats.calculatedReS e t n C == Stats.clamped_scalar e t n C).
  { unfold Stats.calculatedReS, Stats.clamped_scalar, Stats.clamped_relativeExcess.
    cbv zeta. rewrite (max_min_is_clamp _ 0 1 H01).
    apply clamp_compat; [exact H01|].
    rewrite (max_min_is_clamp _ 0 5 H05). reflexivity. }
  split; [exact E|]. split; [rewrite E; apply clamp_range, H01|].
  split; [apply clamp_range, H05|].
  intros Hcase. rewrite E.
  unfold Stats.clamped_scalar, Stats.stated_scalar.
  apply clamp_compat; [exact H01|].
  assert (R : Stats.clamped_relativeExcess e t == Stats.stated_relativeExcess e t).
  { unfold Stats.clamped_relativeExcess, Stats.stated_relativeExcess.
    destruct (JS.gtb t 0.001) eqn:G; [reflexivity|].
    destruct Hcase as [Ht|He]; [apply gtb_spec in Ht; congruence|].
    destruct (JS.gtb e 0) eqn:G0.
    - apply gtb_spec in G0.
      destruct (clamp_cases (e * 2) 0 5 H05) as [[H ->]|[[H ->]|[[H1 H2] ->]]]; lra.
    - reflexivity. }
  rewrite R. reflexivity.
Qed.

Lemma riemann_scalar_formula_witness :
  Stats.calculatedReS 1.6 1.5 0.3 0.1 == Stats.stated_scalar 1.6 1.5 0.3 0.1 /\
  Stats.calculatedReS 1.6 1.5 0.3 0.1 == (143 # 300).
Proof.
  split; [|reflexivity].
  apply (proj2 (proj2 (proj2 (riemann_scalar_formula 1.6 1.5 0.3 0.1)))).
  left. reflexivity.
Defined.

(** C8, as stated, fails: with threshold 0 and node energy 3 the fallback
    excess [6] is clamped to [5], so the scalar is [0.55], not the [0.56] of
    the formula with the unclamped fallback. *)
Lemma riemann_fallback_is_clamped :
  Stats.calculatedReS 3 0 0 0.01 == 0.55 /\
  Stats.stated_scalar 3 0 0 0.01 == 0.56 /\
  ~ Stats.calculatedReS 3 0 0 0.01 == Stats.stated_scalar 3 0 0 0.01.
Proof.
  split; [reflexivity|]. split; [reflexivity|]. intros H. discriminate H.
Qed.

(** ** Sorting, median and standard deviation *)

Lemma insert_perm x l : Permutation (Stats.insert x l) (x :: l).
Proof.
  induction l as [|y l IH]; simpl; [reflexivity|].
  destruct (Qle_bool x y); [reflexivity|].
  rewrite IH. apply perm_swap.
Qed.

Lemma sort_ascending_perm data : Permutation (Stats.sort_ascending data) data.
Proof.
  induction data as [|x data IH]; simpl; [reflexivity|].
  rewrite insert_perm. now constructor.
Qed.

Lemma insert_hd a x l :
  a <= x -> HdRel Qle a l -> HdRel Qle a (Stats.insert x l).
Proof.
  intros Hax H. destruct l as [|y l]; simpl.
  - constructor. exact Hax.
  - destruct (Qle_bool x y); constructor; [exact Hax|].
    inversion H; assumption.
Qed.

Lemma insert_sorted x l : Sorted Qle l -> Sorted Qle (Stats.insert x l).
Proof.
  induction 1 as [|y l Hs IH Hhd]; simpl.
  - repeat constructor.
  - destruct (Qle_bool x y) eqn:E.
    + apply Qle_bool_iff in E. repeat constructor; assumption.
    + assert (Hyx : y <= x).
      { apply Qlt_le_weak, Qnot_le_lt. intros H. apply Qle_bool_iff in H. congruence. }
      constructor; [exact IH|]. apply insert_hd; assumption.
Qed.

Lemma sort_ascending_sorted data : Sorted Qle (Stats.sort_ascending data).
Proof.
  induction data as [|x data IH]; simpl; [constructor|].
  apply insert_sorted, IH.
Qed.

Lemma sort_ascending_length data :
  List.length (Stats.sort_ascending data) = List.length data.
Proof. apply Permutation_length, sort_ascending_perm. Qed.

Lemma fold_left_squares data m acc :
  fold_left (fun sq n => sq + (n - m) ^ 2) data acc ==
  acc + Stats.sum_of_squares data m.
Proof.
  revert acc; induction data as [|x data IH]; intros acc; simpl.
  - ring.
  - rewrite IH. simpl. ring.
Qed.

Lemma fold_left_sum data acc :
  fold_left (fun acc val => acc + val) data acc == acc + fold_right Qplus 0 data.
Proof.
  revert acc; induction data as [|x data IH]; intros acc; simpl.
  - ring.
  - rewrite IH. ring.
Qed.

Lemma sum_of_squares_compat data m m' :
  m == m' -> Stats.sum_of_squares data m == Stats.sum_of_squares data m'.
Proof.
  intros E. induction data as [|x data IH]; [reflexivity|].
  cbn [Stats.sum_of_squares fold_right] in *. rewrite IH, E. reflexivity.
Qed.

(** C9 -- descriptive statistics: [calculateStdDev] is [0] for lists of
    length 0 or 1 (so for every single value), with or without a mean
    passed; for [n >= 2] it is the square root of the sum of squared
    deviations from the mean it works with, divided by [n - 1], where that
    mean is the one passed or, when none is passed, [calculateMean] of the
    data; so with the mean of the data passed, as the analysis passes it,
    and with none passed alike, it is the sample standard deviation.
    [calculateMedian] is [0] for the empty list, the middle element of the
    ascending sort for odd length and the average of its two middle elements
    for even length. *)
Theorem descriptive_statistics
    (M : MathHost) (data : list Q) (mean : option Q) :
  let n := List.length data in
  let sorted := Stats.sort_ascending data in
  let m := match mean with None => Stats.calculateMean data | Some m => m end in
  ((n <= 1)%nat -> Stats.calculateStdDev M data mean = 0) /\
  (forall x, Stats.calculateStdDev M [x] mean = 0) /\
  ((2 <= n)%nat ->
     exists variance,
       Stats.calculateStdDev M data mean = Math_sqrt M variance /\
       variance == Stats.sum_of_squares data m / inject_Z (Z.of_nat n - 1) /\
       (m == Stats.calculateMean data ->
        variance ==
          Stats.sum_of_squares data (Stats.calculateMean data)
          / inject_Z (Z.of_nat n - 1)) /\
       Stats.calculateMean data ==
         fold_right Qplus 0 data / inject_Z (Z.of_nat n)) /\
  (Permutation sorted data /\ Sorted Qle sorted) /\
  (n = 0%nat -> Stats.calculateMedian data = 0) /\
  ((0 < n)%nat -> Nat.even n = true ->
     Stats.calculateMedian data =
       (nth (n / 2 - 1) sorted 0 + nth (n / 2) sorted 0) / 2) /\
  (Nat.odd n = true -> Stats.calculateMedian data = nth (n / 2) sorted 0).
Proof.
  cbv zeta. split; [|split; [|split; [|split; [|split; [|split]]]]].
  - intros Hn. unfold Stats.calculateStdDev.
    destruct (Nat.leb_spec (List.length data) 1); [reflexivity|lia].
  - intros x. reflexivity.
  - intros Hn. unfold Stats.calculateStdDev.
    destruct (Nat.leb_spec (List.length data) 1); [lia|].
    set (m := match mean with None => Stats.calculateMean data | Some m => m end).
    assert (Hnz : ~ inject_Z (Z.of_nat (List.length data) - 1) == 0)
      by (apply inject_Z_nonzero; lia).
    assert (E : fold_left (fun sq n => sq + (n - m) ^ 2) data 0
                / inject_Z (Z.of_nat (List.length data) - 1)
                == Stats.sum_of_squares data m
                   / inject_Z (Z.of_nat (List.length data) - 1)).
    { rewrite fold_left_squares. field. exact Hnz. }
    eexists. split; [reflexivity|]. split; [exact E|]. split.
    + intros Em. rewrite E, (sum_of_squares_compat data m _ Em). reflexivity.
    + unfold Stats.calculateMean.
      destruct (Nat.eqb_spec (List.length data) 0); [lia|].
      rewrite fold_left_sum. field. apply inject_Z_nonzero. lia.
  - split; [apply sort_ascending_perm|apply sort_ascending_sorted].
  - intros Hn. unfold Stats.calculateMedian. rewrite Hn. reflexivity.
  - intros Hn He. unfold Stats.calculateMedian.
    destruct (Nat.eqb_spec (List.length data) 0); [lia|].
    rewrite sort_ascending_length.
    apply Nat.even_spec in He. destruct He as [k Hk].
    assert (Hm : (List.length data mod 2 = 0)%nat)
      by (rewrite Hk, Nat.mul_comm; apply Nat.Div0.mod_mul).
    rewrite Hm. reflexivity.
  - intros Ho. unfold Stats.calculateMedian.
    apply Nat.odd_spec in Ho. destruct Ho as [k Hk].
    destruct (Nat.eqb_spec (List.length data) 0); [lia|].
    rewrite sort_ascending_length.
    assert (Hm : (List.length data mod 2 = 1)%nat).
    { rewrite Hk, Nat.add_comm, Nat.mul_comm, Nat.Div0.mod_add. reflexivity. }
    rewrite Hm. reflexivity.
Qed.

Lemma descriptive_statistics_witness :
  let data := [2; 4; 4; 4; 5; 5; 7; 9] in
  Stats.calculateStdDev Approx.host [7] (Some 3) = 0 /\
  Stats.calculateMean data == 5 /\
  Stats.calculateStdDev Approx.host data (Some (Stats.calculateMean data))
    == (14966629 # 7000000) /\
  Stats.calculateStdDev Approx.host data None == (14966629 # 7000000) /\
  Stats.calculateStdDev Approx.host data (Some 4) == (16733200 # 7000000) /\
  Stats.sort_ascending [3; 1; 4; 2] = [1; 2; 3; 4] /\
  Stats.calculateMedian [3; 1; 4; 2] == 2.5 /\
  Stats.calculateMedian [3; 1; 2] = 2 /\
  Stats.calculateMedian [] = 0.
Proof.
  intros data. split.
  - apply (proj1 (descriptive_statistics Approx.host [7] (Some 3))). simpl. lia.
  - split; [vm_compute; reflexivity|]. split; [vm_compute; reflexivity|].
    split; [vm_compute; reflexivity|]. split; [vm_compute; reflexivity|].
    split; [reflexivity|]. split; [vm_compute; reflexivity|]. split; reflexivity.
Defined.

(** ** The parameter search *)

Section SearchFacts.

Variable M : MathHost.
Variable fuel : nat.
Variable rnd : RandomOracle.

Lemma same_deps_refl x : App.same_deps x x = true.
Proof.
  destruct x as [[[d n] t] s]. unfold App.same_deps, JS.eqb.
  rewrite !Qeq_bool_refl, Z.eqb_refl. reflexivity.
Qed.

(** A pending search whose parameters are those of the memoised simulation
    receives no count: a commit only writes the status message, and the
    state it leaves is again of this kind. *)
Lemma commit_without_recompute st deps :
  App.isSearching st = true ->
  App.knotenCountFromSim st = (-1)%Z ->
  App.memo st = Some deps ->
  App.same_deps (App.props_of st) deps = true ->
  App.commit M fuel rnd st =
  App.setSearchStatusMessage
    (App.Simulating (App.currentSearchAttempt st) App.MAX_SEARCH_ATTEMPTS) st.
Proof.
  intros Hs Hk Hm Hd. unfold App.commit, App.recomputes.
  unfold App.props_of in *. rewrite Hm, Hd. cbn [negb].
  unfold App.App_effect. rewrite Hs, Hk. reflexivity.
Qed.

Lemma commits_without_recompute st deps k :
  App.isSearching st = true ->
  App.knotenCountFromSim st = (-1)%Z ->
  App.memo st = Some deps ->
  App.same_deps (App.props_of st) deps = true ->
  App.commits M fuel rnd (S k) st =
  App.setSearchStatusMessage
    (App.Simulating (App.currentSearchAttempt st) App.MAX_SEARCH_ATTEMPTS) st.
Proof.
  revert st. induction k as [|k IH]; intros st Hs Hk Hm Hd.
  - cbn [App.commits]. apply (commit_without_recompute st deps); assumption.
  - change (App.commits M fuel rnd (S (S k)) st)
      with (App.commits M fuel rnd (S k) (App.commit M fuel rnd st)).
    rewrite (commit_without_recompute st deps Hs Hk Hm Hd).
    rewrite IH; try assumption; reflexivity.
Qed.

End SearchFacts.

(** C6, on the code -- the search can stall.  From an idle [App] whose
    chart shows the simulation of its current parameters, a search whose
    first three random values reproduce exactly these parameters never
    receives the node count of its first attempt: [SubQGInteractive] does
    not recompute, its effect does not call [onKnotenUpdate], and after any
    number of commits the search is still pending at attempt 1, neither
    succeeded nor exhausted. *)
Theorem search_stalls_on_repeated_parameters
    (M : MathHost) (fuel : nat) (rnd : RandomOracle) (st : App.state) :
  App.isSearching st = false ->
  App.memo st = Some (App.props_of st) ->
  App.random_noise (rnd (App.randomCalls st)) == App.noise st ->
  App.random_threshold (rnd (App.randomCalls st + 1)%nat) == App.threshold st ->
  App.random_seed (rnd (App.randomCalls st + 2)%nat) = App.currentSeed st ->
  forall k,
    App.pending (App.commits M fuel rnd k (App.handleStartSearch rnd st)) /\
    App.currentSearchAttempt
      (App.commits M fuel rnd k (App.handleStartSearch rnd st)) = 1%Z /\
    ~ App.succeeded (App.commits M fuel rnd k (App.handleStartSearch rnd st)) /\
    ~ App.exhausted (App.commits M fuel rnd k (App.handleStartSearch rnd st)).
Proof.
  intros Hidle Hmemo Hn Ht Hs k.
  set (st1 := App.handleStartSearch rnd st).
  assert (H1 : App.isSearching st1 = true) by reflexivity.
  assert (H2 : App.knotenCountFromSim st1 = (-1)%Z) by reflexivity.
  assert (H3 : App.memo st1 = Some (App.props_of st)) by exact Hmemo.
  assert (H4 : App.same_deps (App.props_of st1) (App.props_of st) = true).
  { unfold st1, App.handleStartSearch, App.props_of, App.same_deps, JS.eqb.
    cbn [App.duration App.noise App.threshold App.currentSeed
         App.setNoise App.setThreshold App.setCurrentSeed App.setIsSearching
         App.setCurrentSearchAttempt App.setKnotenCountFromSim App.set_randomCalls].
    rewrite Qeq_bool_refl.
    rewrite (proj2 (Qeq_bool_iff _ _) Hn), (proj2 (Qeq_bool_iff _ _) Ht), Hs, Z.eqb_refl.
    reflexivity. }
  assert (H5 : App.currentSearchAttempt st1 = 1%Z) by reflexivity.
  destruct k as [|k].
  - cbn [App.commits]. unfold App.pending, App.succeeded, App.exhausted.
    rewrite H1, H2, H5. repeat split; try reflexivity; intros [X _]; discriminate X.
  - rewrite (commits_without_recompute M fuel rnd st1 _ k H1 H2 H3 H4).
    unfold App.pending, App.succeeded, App.exhausted.
    cbn [App.isSearching App.knotenCountFromSim App.currentSearchAttempt
         App.setSearchStatusMessage].
    rewrite H1, H2, H5. repeat split; try reflexivity; intros [X _]; discriminate X.
Qed.

Lemma search_stalls_on_repeated_parameters_witness :
  let rnd : RandomOracle := fun call => nth call [0.5; 0.36; 0.73; 0.5] 0 in
  let st := App.commit Approx.host 2 rnd (App.initial rnd) in
  (App.isSearching st = false /\
   App.memo st = Some (App.props_of st) /\
   App.props_of st = (100, 0.3, 1.5, 500000%Z) /\
   App.random_noise (rnd 1%nat) = 0.3 /\
   App.random_threshold (rnd 2%nat) == 1.5 /\
   App.random_seed (rnd 3%nat) = 500000%Z) /\
  forall k,
    App.pending (App.commits Approx.host 2 rnd k (App.handleStartSearch rnd st)) /\
    App.currentSearchAttempt
      (App.commits Approx.host 2 rnd k (App.handleStartSearch rnd st)) = 1%Z /\
    ~ App.succeeded (App.commits Approx.host 2 rnd k (App.handleStartSearch rnd st)) /\
    ~ App.exhausted (App.commits Approx.host 2 rnd k (App.handleStartSearch rnd st)).
Proof.
  intros rnd st.
  assert (Hidle : App.isSearching st = false) by reflexivity.
  assert (Hmemo : App.memo st = Some (App.props_of st)) by reflexivity.
  assert (Hprops : App.props_of st = (100, 0.3, 1.5, 500000%Z)) by reflexivity.
  assert (Hn : App.random_noise (rnd 1%nat) = 0.3) by (vm_compute; reflexivity).
  assert (Ht : App.random_threshold (rnd 2%nat) == 1.5) by (vm_compute; reflexivity).
  assert (Hs : App.random_seed (rnd 3%nat) = 500000%Z) by (vm_compute; reflexivity).
  split; [repeat split; assumption|].
  apply (search_stalls_on_repeated_parameters Approx.host 2 rnd st Hidle Hmemo).
  - change (App.randomCalls st) with 1%nat. rewrite Hn. reflexivity.
  - change (App.randomCalls st + 1)%nat with 2%nat. rewrite Ht. reflexivity.
  - change (App.randomCalls st + 2)%nat with 3%nat. rewrite Hs. reflexivity.
Defined.

(** ** The random parameters of an attempt *)

Lemma toFixed_nonneg_small x digits :
  0 <= x -> x < inject_Z (10 ^ 21) ->
  JS.toFixed x digits ==
  inject_Z (Qfloor (x * inject_Z (10 ^ Z.of_nat digits) + (1 # 2)))
  / inject_Z (10 ^ Z.of_nat digits).
Proof.
  intros H0 H1. unfold JS.toFixed.
  assert (Ha : Qabs x == x) by (apply Qabs_pos, H0).
  destruct (Qle_bool (inject_Z (10 ^ 21)) (Qabs x)) eqn:E.
  - apply Qle_bool_iff in E. rewrite Ha in E. exfalso. lra.
  - rewrite Qred_correct. apply Qle_bool_iff in H0. rewrite H0.
    rewrite Qmake_Qdiv.
    assert (Hp : (0 < 10 ^ Z.of_nat digits)%Z) by (apply Z.pow_pos_nonneg; lia).
    rewrite Z2Pos.id by exact Hp.
    rewrite (Qfloor_comp (Qabs x * inject_Z (10 ^ Z.of_nat digits) + (1 # 2))
                         (x * inject_Z (10 ^ Z.of_nat digits) + (1 # 2)))
      by (rewrite Ha; reflexivity).
    reflexivity.
Qed.

(** X20 -- the parameters drawn for an attempt: noise in [[0.05, 0.75]]
    with two decimals, threshold in [[0.7, 1.8]] with one decimal, seed an
    integer in [[0, 1000000)]. *)
Lemma random_parameters_in_range x :
  0 <= x < 1 ->
  (0.05 <= App.random_noise x <= 0.75 /\
   exists n, App.random_noise x == inject_Z n / 100) /\
  (0.7 <= App.random_threshold x <= 1.8 /\
   exists n, App.random_threshold x == inject_Z n / 10) /\
  (0 <= App.random_seed x < 1000000)%Z.
Proof.
  intros [H0 H1].
  assert (Hbig : inject_Z (10 ^ 21) == 1000000000000000000000) by reflexivity.
  split; [|split].
  - set (y := (x * (0.75 - 0.05) + 0.05) * 100 + (1 # 2)).
    assert (E0 : App.random_noise x == inject_Z (Qfloor y) / 100).
    { unfold App.random_noise. rewrite toFixed_nonneg_small by (rewrite ?Hbig; lra).
      reflexivity. }
    pose proof (Qfloor_le y) as Lo. pose proof (Qlt_floor y) as Hi.
    assert (B : (5 <= Qfloor y <= 75)%Z).
    { split.
      - rewrite <- (Qfloor_Z 5). apply Qfloor_resp_le. unfold y. change (inject_Z 5) with 5. lra.
      - apply Z.lt_succ_r. rewrite Zlt_Qlt. eapply Qle_lt_trans; [exact Lo|].
        unfold y. change (inject_Z (Z.succ 75)) with 76. lra. }
    destruct B as [B1 B2]. rewrite Zle_Qle in B1, B2.
    change (inject_Z 5) with 5 in B1. change (inject_Z 75) with 75 in B2.
    split; [|exists (Qfloor y); exact E0].
    assert (E : inject_Z (Qfloor y) / 100 == inject_Z (Qfloor y) * (1 # 100))
      by (field; discriminate).
    rewrite E0, E. lra.
  - set (y := (x * (1.8 - 0.7) + 0.7) * 10 + (1 # 2)).
    assert (E0 : App.random_threshold x == inject_Z (Qfloor y) / 10).
    { unfold App.random_threshold. rewrite toFixed_nonneg_small by (rewrite ?Hbig; lra).
      reflexivity. }
    pose proof (Qfloor_le y) as Lo. pose proof (Qlt_floor y) as Hi.
    assert (B : (7 <= Qfloor y <= 18)%Z).
    { split.
      - rewrite <- (Qfloor_Z 7). apply Qfloor_resp_le. unfold y. change (inject_Z 7) with 7. lra.
      - apply Z.lt_succ_r. rewrite Zlt_Qlt. eapply Qle_lt_trans; [exact Lo|].
        unfold y. change (inject_Z (Z.succ 18)) with 19. lra. }
    destruct B as [B1 B2]. rewrite Zle_Qle in B1, B2.
    change (inject_Z 7) with 7 in B1. change (inject_Z 18) with 18 in B2.
    split; [|exists (Qfloor y); exact E0].
    assert (E : inject_Z (Qfloor y) / 10 == inject_Z (Qfloor y) * (1 # 10))
      by (field; discriminate).
    rewrite E0, E. lra.
  - unfold App.random_seed. split.
    + rewrite <- (Qfloor_Z 0). apply Qfloor_resp_le. change (inject_Z 0) with 0. lra.
    + rewrite Zlt_Qlt. eapply Qle_lt_trans; [apply Qfloor_le|].
      change (inject_Z 1000000) with 1000000. lra.
Qed.

(** ** One attempt of the search *)

Lemma detailedKnotenPoints_length_nonneg M fuel d n t s :
  (0 <= App.detailedKnotenPoints_length M fuel d n t s)%Z.
Proof.
  unfold App.detailedKnotenPoints_length.
  destruct (calculateSimulationData _ _ _ _ _ _) as [[data r]|]; lia.
Qed.

(** The commit that follows a change of parameters delivers the count. *)
Lemma commit_delivers_count M fuel rnd st :
  App.pending st -> App.recomputes st = true ->
  App.commit M fuel rnd st =
  App.setSearchStatusMessage
    (App.Simulating (App.currentSearchAttempt st) App.MAX_SEARCH_ATTEMPTS)
    (App.setKnotenCountFromSim
       (App.detailedKnotenPoints_length M fuel
          (App.duration st) (App.noise st) (App.threshold st) (App.currentSeed st))
       (App.set_memo (Some (App.props_of st)) st)).
Proof.
  intros [Hs Hk] Hr. unfold App.commit. rewrite Hr.
  unfold App.props_of, App.App_effect. rewrite Hs, Hk. reflexivity.
Qed.

(** When the parameters of a pending attempt differ from those of the
    memoised simulation, two commits settle the attempt: the first delivers
    the node count, the second ends the search with the attempt's own
    parameters if the count is positive, ends it as exhausted if this was
    attempt 50, and otherwise starts the next attempt with newly drawn
    noise, threshold and seed.  The duration never changes. *)
Lemma attempt_with_fresh_parameters M fuel rnd st :
  App.pending st -> App.recomputes st = true ->
  let count :=
    App.detailedKnotenPoints_length M fuel
      (App.duration st) (App.noise st) (App.threshold st) (App.currentSeed st) in
  let st2 := App.commits M fuel rnd 2 st in
  App.duration st2 = App.duration st /\
  ((0 < count)%Z ->
     App.isSearching st2 = false /\
     App.searchStatusMessage st2 =
       App.Found (App.currentSearchAttempt st) (JS.toFixed (App.noise st) 2)
                 (JS.toFixed (App.threshold st) 1) (App.currentSeed st) /\
     App.currentSearchAttempt st2 = App.currentSearchAttempt st /\
     App.noise st2 = App.noise st /\ App.threshold st2 = App.threshold st /\
     App.currentSeed st2 = App.currentSeed st) /\
  (count = 0%Z -> (App.MAX_SEARCH_ATTEMPTS <= App.currentSearchAttempt st)%Z ->
     App.exhausted st2 /\
     App.currentSearchAttempt st2 = App.currentSearchAttempt st) /\
  (count = 0%Z -> (App.currentSearchAttempt st < App.MAX_SEARCH_ATTEMPTS)%Z ->
     App.pending st2 /\
     App.currentSearchAttempt st2 = (App.currentSearchAttempt st + 1)%Z /\
     App.noise st2 = App.random_noise (rnd (App.randomCalls st)) /\
     App.threshold st2 = App.random_threshold (rnd (App.randomCalls st + 1)%nat) /\
     App.currentSeed st2 = App.random_seed (rnd (App.randomCalls st + 2)%nat) /\
     App.randomCalls st2 = (App.randomCalls st + 3)%nat).
Proof.
  intros Hp Hr. cbv zeta. cbn [App.commits].
  rewrite (commit_delivers_count M fuel rnd st Hp Hr).
  pose proof (detailedKnotenPoints_length_nonneg M fuel (App.duration st) (App.noise st)
                (App.threshold st) (App.currentSeed st)) as Hc.
  revert Hc.
  generalize (App.detailedKnotenPoints_length M fuel (App.duration st) (App.noise st)
                (App.threshold st) (App.currentSeed st)).
  intros count Hc.
  destruct Hp as [Hs Hk].
  destruct st as [d n t s searching a k msg memo calls].
  cbn [App.isSearching App.knotenCountFromSim] in Hs, Hk. subst searching k.
  unfold App.commit, App.recomputes.
  cbn [App.props_of App.memo App.duration App.noise App.threshold App.currentSeed
       App.setSearchStatusMessage App.setKnotenCountFromSim App.set_memo
       App.isSearching App.currentSearchAttempt App.knotenCountFromSim
       App.searchStatusMessage App.randomCalls].
  rewrite same_deps_refl. cbn [negb].
  unfold App.App_effect.
  cbn [App.props_of App.memo App.duration App.noise App.threshold App.currentSeed
       App.setSearchStatusMessage App.setKnotenCountFromSim App.set_memo
       App.isSearching App.currentSearchAttempt App.knotenCountFromSim
       App.searchStatusMessage App.randomCalls negb].
  destruct (Z.eqb_spec count (-1)); [lia|].
  destruct (Z.ltb_spec 0 count) as [Hpos|Hzero].
  - cbn. repeat split; try reflexivity; intros; lia.
  - destruct (Z.leb_spec App.MAX_SEARCH_ATTEMPTS a) as [Hmax|Hmore].
    + unfold App.exhausted. cbn.
      repeat split; try reflexivity; intros; lia.
    + unfold App.pending. cbn.
      repeat split; try reflexivity; intros; lia.
Qed.

Lemma commits_add M fuel rnd a b st :
  App.commits M fuel rnd (a + b) st = App.commits M fuel rnd b (App.commits M fuel rnd a st).
Proof. revert st; induction a as [|a IH]; intros st; simpl; [reflexivity|apply IH]. Qed.

(** X21 -- as long as every attempt draws parameters that differ from those
    of the simulation on display, the search behaves as a bounded loop: it makes
    attempts [a, a+1, ...], at most up to attempt 50, stops with success at
    the first attempt whose run has a node, reporting that attempt's noise,
    threshold and seed, and stops as exhausted after attempt 50 otherwise;
    the duration is never changed. *)
Lemma search_terminates_when_parameters_change M fuel rnd :
  forall n st,
    App.pending st ->
    App.currentSearchAttempt st = (App.MAX_SEARCH_ATTEMPTS - Z.of_nat n)%Z ->
    (forall i, App.pending (App.commits M fuel rnd (2 * i) st) ->
               App.recomputes (App.commits M fuel rnd (2 * i) st) = true) ->
    exists j,
      (1 <= j <= n + 1)%nat /\
      (forall i, (i < j)%nat -> App.pending (App.commits M fuel rnd (2 * i) st)) /\
      let final := App.commits M fuel rnd (2 * j) st in
      App.isSearching final = false /\
      App.duration final = App.duration st /\
      App.currentSearchAttempt final =
        (App.currentSearchAttempt st + Z.of_nat j - 1)%Z /\
      ((App.searchStatusMessage final =
          App.Found (App.currentSearchAttempt final) (JS.toFixed (App.noise final) 2)
                    (JS.toFixed (App.threshold final) 1) (App.currentSeed final) /\
        (0 < App.detailedKnotenPoints_length M fuel (App.duration final)
               (App.noise final) (App.threshold final) (App.currentSeed final))%Z)
       \/
       (App.exhausted final /\
        App.currentSearchAttempt final = App.MAX_SEARCH_ATTEMPTS)).
Proof.
  induction n as [|n IH]; intros st Hp Ha Hfresh.
  - pose proof (Hfresh 0%nat Hp) as Hr. cbn [Nat.mul App.commits] in Hr.
    destruct (attempt_with_fresh_parameters M fuel rnd st Hp Hr) as (Hd & Hpos & Hex & Hnext).
    exists 1%nat. split; [lia|]. split.
    { intros i Hi. replace i with 0%nat by lia. exact Hp. }
    cbv zeta. change (2 * 1)%nat with 2%nat.
    destruct (Z.ltb_spec 0 (App.detailedKnotenPoints_length M fuel (App.duration st)
                             (App.noise st) (App.threshold st) (App.currentSeed st)))
      as [Hc|Hc].
    + destruct (Hpos Hc) as (E1 & E2 & E3 & E4 & E5 & E6).
      split; [exact E1|]. split; [exact Hd|]. split; [rewrite E3; lia|].
      left. rewrite E2, E3, E4, E5, E6, Hd. split; [reflexivity|exact Hc].
    + pose proof (detailedKnotenPoints_length_nonneg M fuel (App.duration st)
                    (App.noise st) (App.threshold st) (App.currentSeed st)) as Hge.
      assert (Hz : App.detailedKnotenPoints_length M fuel (App.duration st)
                     (App.noise st) (App.threshold st) (App.currentSeed st) = 0%Z) by lia.
      destruct (Hex Hz) as [E1 E2]; [lia|].
      split; [apply E1|]. split; [exact Hd|]. split; [rewrite E2; lia|].
      right. split; [exact E1|]. rewrite E2, Ha. lia.
  - pose proof (Hfresh 0%nat Hp) as Hr. cbn [Nat.mul App.commits] in Hr.
    destruct (attempt_with_fresh_parameters M fuel rnd st Hp Hr) as (Hd & Hpos & Hex & Hnext).
    destruct (Z.ltb_spec 0 (App.detailedKnotenPoints_length M fuel (App.duration st)
                             (App.noise st) (App.threshold st) (App.currentSeed st)))
      as [Hc|Hc].
    + exists 1%nat. split; [lia|]. split.
      { intros i Hi. replace i with 0%nat by lia. exact Hp. }
      cbv zeta. change (2 * 1)%nat with 2%nat.
      destruct (Hpos Hc) as (E1 & E2 & E3 & E4 & E5 & E6).
      split; [exact E1|]. split; [exact Hd|]. split; [rewrite E3; lia|].
      left. rewrite E2, E3, E4, E5, E6, Hd. split; [reflexivity|exact Hc].
    + pose proof (detailedKnotenPoints_length_nonneg M fuel (App.duration st)
                    (App.noise st) (App.threshold st) (App.currentSeed st)) as Hge.
      assert (Hz : App.detailedKnotenPoints_length M fuel (App.duration st)
                     (App.noise st) (App.threshold st) (App.currentSeed st) = 0%Z) by lia.
      destruct (Hnext Hz) as (P2 & A2 & _); [lia|].
      set (st2 := App.commits M fuel rnd 2 st) in *.
      destruct (IH st2 P2) as (j & Hj & Hpend & Hfinal).
      { rewrite A2, Ha. lia. }
      { intros i Hi. unfold st2 in *. rewrite <- commits_add in *.
        replace (2 + 2 * i)%nat with (2 * S i)%nat in * by lia.
        apply Hfresh, Hi. }
      exists (S j). split; [lia|]. split.
      { intros [|i] Hi; [exact Hp|].
        replace (2 * S i)%nat with (2 + 2 * i)%nat by lia.
        rewrite commits_add. apply Hpend. lia. }
      cbv zeta in *.
      replace (2 * S j)%nat with (2 + 2 * j)%nat by lia.
      rewrite commits_add. fold st2.
      destruct Hfinal as (F1 & F2 & F3 & F4).
      split; [exact F1|]. split; [rewrite F2; exact Hd|].
      split; [rewrite F3, A2; lia|]. exact F4.
Qed.

(** X22 -- the stall also occurs in the middle of a search: an attempt
    without nodes followed by a draw of the very same parameters leaves the
    next attempt pending for ever. *)
Lemma search_stalls_mid_search M fuel rnd st k :
  App.isSearching st = true ->
  App.knotenCountFromSim st = 0%Z ->
  (App.currentSearchAttempt st < App.MAX_SEARCH_ATTEMPTS)%Z ->
  App.memo st = Some (App.props_of st) ->
  App.random_noise (rnd (App.randomCalls st)) == App.noise st ->
  App.random_threshold (rnd (App.randomCalls st + 1)%nat) == App.threshold st ->
  App.random_seed (rnd (App.randomCalls st + 2)%nat) = App.currentSeed st ->
  App.pending (App.commits M fuel rnd (S k) st) /\
  App.currentSearchAttempt (App.commits M fuel rnd (S k) st) =
    (App.currentSearchAttempt st + 1)%Z.
Proof.
  intros Hs Hk Ha Hm Hn Ht Hseed.
  destruct st as [d n t s searching a c msg memo calls].
  unfold App.props_of in Hm.
  cbn [App.isSearching App.knotenCountFromSim App.currentSearchAttempt App.memo
       App.randomCalls App.noise App.threshold App.currentSeed App.duration] in *.
  subst searching c memo.
  cbn [App.commits].
  assert (E : App.commit M fuel rnd
                {| App.duration := d; App.noise := n; App.threshold := t;
                   App.currentSeed := s; App.isSearching := true;
                   App.currentSearchAttempt := a; App.knotenCountFromSim := 0;
                   App.searchStatusMessage := msg; App.memo := Some (d, n, t, s);
                   App.randomCalls := calls |} =
              {| App.duration := d;
                 App.noise := App.random_noise (rnd calls);
                 App.threshold := App.random_threshold (rnd (calls + 1)%nat);
                 App.currentSeed := App.random_seed (rnd (calls + 2)%nat);
                 App.isSearching := true;
                 App.currentSearchAttempt := (a + 1)%Z; App.knotenCountFromSim := -1;
                 App.searchStatusMessage := msg; App.memo := Some (d, n, t, s);
                 App.randomCalls := (calls + 3)%nat |}).
  { unfold App.commit, App.recomputes.
    cbn [App.props_of App.memo App.duration App.noise App.threshold App.currentSeed].
    rewrite same_deps_refl. cbn [negb]. unfold App.App_effect.
    cbn [App.isSearching App.knotenCountFromSim App.currentSearchAttempt negb
         Z.eqb Z.ltb Z.compare App.randomCalls].
    destruct (Z.leb_spec App.MAX_SEARCH_ATTEMPTS a); [lia|]. reflexivity. }
  rewrite E.
  assert (D : App.same_deps
                (d, App.random_noise (rnd calls),
                 App.random_threshold (rnd (calls + 1)%nat),
                 App.random_seed (rnd (calls + 2)%nat)) (d, n, t, s) = true).
  { unfold App.same_deps, JS.eqb. rewrite Qeq_bool_refl.
    rewrite (proj2 (Qeq_bool_iff _ _) Hn), (proj2 (Qeq_bool_iff _ _) Ht), Hseed, Z.eqb_refl.
    reflexivity. }
  destruct k as [|k].
  - cbn [App.commits]. unfold App.pending. cbn. auto.
  - rewrite (commits_without_recompute M fuel rnd _ (d, n, t, s) k);
      try reflexivity; [|exact D].
    unfold App.pending. cbn. auto.
Qed.

(** ** Checks on concrete inputs *)

(** A seed the application itself can draw: with [new SeededRandom(691361)]
    the sixth call of [randn] starts on a zero draw and advances the
    register three times. *)
Example randn_sixth_call_691361 :
  exists r5 val r6,
    SeededRandom.after_randn Approx.host 2 5 (SeededRandom.new 691361) = Some r5 /\
    SeededRandom.draws r5 = 10%nat /\ SeededRandom.seed r5 = 601690112%Z /\
    SeededRandom.next_draw_is_zero r5 = true /\
    SeededRandom.randn Approx.host 2 r5 = Some (val, r6) /\
    SeededRandom.draws r6 = 13%nat.
Proof.
  eexists. eexists. eexists.
  split; [vm_compute; reflexivity|].
  split; [reflexivity|]. split; [reflexivity|].
  split; [vm_compute; reflexivity|].
  split; [vm_compute; reflexivity|reflexivity].
Qed.

(** The endpoint of the run of duration 10 in binary64 arithmetic: the step
    [10 / 999] is rounded, the product [step * 999] rounds back to exactly
    10, and the first interior time point rounds to 0.01. *)
Example last_time_point_binary64 :
  let step := SFdiv JS.prec JS.emax (JS.of_int 10) (JS.of_int 999) in
  let t999 := SFmul JS.prec JS.emax step (JS.of_int 999) in
  (step = S754_finite false 5770377900935170 (-59)%Z) /\
  (JS.to_Q t999 == 10) /\ (JS.toFixed (JS.to_Q t999) 2 = 10) /\
  (JS.toFixed (JS.to_Q step) 2 = 0.01).
Proof. vm_compute. repeat split. Qed.

(* ================================================================== *)
(** * Further properties of the code *)
(* ================================================================== *)

(** ** The generator *)

(** X1 -- the constructor normalises its seed: the register starts as an
    integer from 1 to [2^31 - 1] with no draw made; the sign and the
    fractional part of the seed are ignored; a seed whose integer part is a
    multiple of [2^31] (zero in particular) starts the register at 1; and
    non-negative integer seeds that differ by a multiple of [2^31] construct
    the same generator. *)
Theorem constructor_normalises_seed (seed0 : Q) :
  (1 <= SeededRandom.seed (SeededRandom.new seed0) < 2147483648)%Z /\
  SeededRandom.draws (SeededRandom.new seed0) = 0%nat /\
  SeededRandom.new (- seed0) = SeededRandom.new seed0 /\
  SeededRandom.new (inject_Z (Qfloor (Qabs seed0))) = SeededRandom.new seed0 /\
  ((Qfloor (Qabs seed0) mod 2147483648 = 0)%Z ->
     SeededRandom.seed (SeededRandom.new seed0) = 1%Z) /\
  (forall z k, (0 <= z)%Z -> (0 <= k)%Z ->
     SeededRandom.new (inject_Z (z + k * 2147483648)) = SeededRandom.new (inject_Z z)).
Proof.
  assert (Hfl : forall q, (0 <= Qfloor (Qabs q))%Z).
  { intros q. rewrite <- (Qfloor_Z 0). apply Qfloor_resp_le, Qabs_nonneg. }
  split; [apply new_valid|]. split; [reflexivity|].
  split; [|split; [|split]].
  - unfold SeededRandom.new. rewrite (Qfloor_comp _ _ (Qabs_opp seed0)). reflexivity.
  - unfold SeededRandom.new.
    assert (E : Qabs (inject_Z (Qfloor (Qabs seed0))) == inject_Z (Qfloor (Qabs seed0))).
    { apply Qabs_pos. change 0 with (inject_Z 0). rewrite <- Zle_Qle. apply Hfl. }
    rewrite (Qfloor_comp _ _ E), Qfloor_Z. reflexivity.
  - intros H. unfold SeededRandom.new, JS.rem, SeededRandom.m. cbn [SeededRandom.seed].
    rewrite Z.rem_mod_nonneg by (try apply Hfl; lia). rewrite H. reflexivity.
  - intros z k Hz Hk. unfold SeededRandom.new, JS.rem, SeededRandom.m.
    assert (E1 : Qabs (inject_Z (z + k * 2147483648)) == inject_Z (z + k * 2147483648)).
    { apply Qabs_pos. change 0 with (inject_Z 0). rewrite <- Zle_Qle. lia. }
    assert (E2 : Qabs (inject_Z z) == inject_Z z).
    { apply Qabs_pos. change 0 with (inject_Z 0). rewrite <- Zle_Qle. lia. }
    rewrite (Qfloor_comp _ _ E1), (Qfloor_comp _ _ E2), !Qfloor_Z.
    rewrite !Z.rem_mod_nonneg by lia.
    rewrite Z.mod_add by lia. reflexivity.
Qed.

Lemma nextFloat_in_unit r :
  SeededRandom.valid r ->
  0 <= fst (SeededRandom.nextFloat r) < 1.
Proof.
  intros [H _]. rewrite nextFloat_eq. cbn [fst].
  pose proof (nextInt_range r H) as [B1 B2]. unfold SeededRandom.m in *.
  split.
  - apply Qle_shift_div_l; [reflexivity|]. rewrite Qmult_0_l.
    change 0 with (inject_Z 0). rewrite <- Zle_Qle. exact B1.
  - apply Qlt_shift_div_r; [reflexivity|]. rewrite Qmult_1_l.
    rewrite <- Zlt_Qlt. exact B2.
Qed.

(** X2 -- the register stays in range: in every state a generator can
    reach, the register is an integer from 0 to [2^31 - 1] (also under the
    binary64 rounding of [a * seed]), [nextFloat] returns a value in
    [[0, 1)] that is the new register divided by [2^31], and the state it
    leaves is again reachable. *)
Theorem register_stays_in_range (r : SeededRandom.t) :
  SeededRandom.reachable r ->
  (0 <= SeededRandom.seed r < 2147483648)%Z /\
  0 <= fst (SeededRandom.nextFloat r) < 1 /\
  fst (SeededRandom.nextFloat r) ==
    inject_Z (SeededRandom.seed (snd (SeededRandom.nextFloat r))) / 2147483648 /\
  (0 <= SeededRandom.seed (snd (SeededRandom.nextFloat r)) < 2147483648)%Z /\
  SeededRandom.draws (snd (SeededRandom.nextFloat r)) = S (SeededRandom.draws r) /\
  SeededRandom.reachable (snd (SeededRandom.nextFloat r)).
Proof.
  intros Hr. pose proof (reachable_valid r Hr) as Hv.
  split; [exact Hv|]. split; [apply nextFloat_in_unit, Hv|].
  rewrite nextFloat_eq. cbn [fst snd]. split; [reflexivity|].
  split; [apply (nextInt_valid r Hv)|]. split; [reflexivity|].
  apply SeededRandom.reachable_next, Hr.
Qed.

Lemma register_stays_in_range_witness :
  SeededRandom.reachable (SeededRandom.new 2147483647) /\
  fst (SeededRandom.nextFloat (SeededRandom.new 2147483647)) == (1043980800 # 2147483648) /\
  0 <= fst (SeededRandom.nextFloat (SeededRandom.new 2147483647)) < 1.
Proof.
  split; [apply SeededRandom.reachable_new|]. split; [vm_compute; reflexivity|].
  apply (register_stays_in_range (SeededRandom.new 2147483647)).
  apply SeededRandom.reachable_new.
Defined.

(** ** Time points and samples *)

Lemma eqb64_refl x : x <> S754_nan -> B64.eqb x x = true.
Proof.
  intros H. unfold B64.eqb, SFeqb, SFcompare.
  destruct x as [s|[|]| |[|] m e]; try reflexivity; try congruence;
    rewrite Z.compare_refl, Pos.compare_cont_refl; reflexivity.
Qed.

Lemma add_rounded_zero start step :
  B64.neither_nan_nor_infinite step -> start <> S754_nan ->
  B64.eqb (B64.add start (B64.mul step (S754_zero false))) start = true.
Proof.
  intros Hs Hn.
  assert (exists s, B64.mul step (S754_zero false) = S754_zero s) as [s ->].
  { destruct step as [s|s| |s m e]; try contradiction; eexists; reflexivity. }
  destruct start as [[|]|?| |? ? ?]; try congruence;
    destruct s; try reflexivity; apply eqb64_refl; discriminate.
Qed.

(** X3 -- [linspace], on doubles: a count of zero or less gives the empty
    list and a count of one gives just [start]; for a count [num] of two or
    more the list has [num] points, point [i] being [start + step * i] with
    [step = (stop - start) / (num - 1)], each operation rounded; and
    whenever that step is neither [NaN] nor infinite, the first point equals
    [start]. *)
Theorem linspace_shape (start stop : spec_float) (num : Z) :
  ((num <= 0)%Z -> TimeAxis64.linspace start stop num = []) /\
  (num = 1%Z -> TimeAxis64.linspace start stop num = [start]) /\
  ((2 <= num)%Z ->
     let step := B64.div (B64.sub stop start) (B64.of_int (num - 1)) in
     List.length (TimeAxis64.linspace start stop num) = Z.to_nat num /\
     (forall i, (i < Z.to_nat num)%nat ->
        nth i (TimeAxis64.linspace start stop num) S754_nan =
          B64.add start (B64.mul step (B64.of_int (Z.of_nat i)))) /\
     (B64.neither_nan_nor_infinite step -> start <> S754_nan ->
        B64.eqb (nth 0 (TimeAxis64.linspace start stop num) S754_nan) start = true)).
Proof.
  split; [|split].
  - intros H. unfold TimeAxis64.linspace. destruct (Z.leb_spec num 0); [reflexivity|lia].
  - intros ->. reflexivity.
  - intros H. cbv zeta.
    split; [apply linspace64_length|]. split.
    + intros i Hi. apply linspace64_nth; assumption.
    + intros Hs Hn. rewrite linspace64_nth by lia.
      apply (add_rounded_zero start _ Hs Hn).
Qed.

Lemma linspace_shape_witness :
  let points := TimeAxis64.linspace (B64.of_int 1) (B64.of_int 3) 5 in
  (2 <= 5)%Z /\
  map (fun x => Qred (B64.to_Q x)) points = [1; 3 # 2; 2; 5 # 2; 3] /\
  B64.eqb (nth 0 points S754_nan) (B64.of_int 1) = true.
Proof.
  intros points. split; [lia|]. split; [vm_compute; reflexivity|].
  refine (proj2 (proj2 (proj2 (proj2 (linspace_shape (B64.of_int 1) (B64.of_int 3) 5))
                          _)) _ _).
  - lia.
  - vm_compute. exact I.
  - discriminate.
Defined.

(** ** Rounding with [toFixed] *)

Lemma Qle_bool_compat a b c d : a == c -> b == d -> Qle_bool a b = Qle_bool c d.
Proof.
  intros E1 E2.
  destruct (Qle_bool a b) eqn:X, (Qle_bool c d) eqn:Y; try reflexivity.
  - apply Qle_bool_iff in X. rewrite E1, E2 in X. apply Qle_bool_iff in X. congruence.
  - apply Qle_bool_iff in Y. rewrite <- E1, <- E2 in Y. apply Qle_bool_iff in Y. congruence.
Qed.

(** Equal numbers have the same rounding. *)
Lemma toFixed_compat x y digits : x == y -> JS.toFixed x digits = JS.toFixed y digits.
Proof.
  intros E. unfold JS.toFixed.
  assert (Ea : Qabs x == Qabs y) by (rewrite E; reflexivity).
  rewrite (Qle_bool_compat _ (Qabs x) _ (Qabs y) (Qeq_refl _) Ea).
  destruct (Qle_bool (inject_Z (10 ^ 21)) (Qabs y)).
  - apply Qred_complete, E.
  - rewrite (Qle_bool_compat 0 x 0 y (Qeq_refl _) E).
    rewrite (Qfloor_comp (Qabs x * inject_Z (10 ^ Z.of_nat digits) + (1 # 2))
                         (Qabs y * inject_Z (10 ^ Z.of_nat digits) + (1 # 2)))
      by (rewrite Ea; reflexivity).
    reflexivity.
Qed.

Lemma Qle_bool_false a b : Qle_bool a b = false -> b < a.
Proof.
  intros H. apply Qnot_le_lt. intros X. apply Qle_bool_iff in X. congruence.
Qed.

Lemma same_denominator_le a b q : (a <= b)%Z -> (a # q) <= (b # q).
Proof. intros H. unfold Qle. simpl. nia. Qed.

(** Below [10^21] the rounded value is [n / 10^digits] for a count [n]
    of at most [10^21 * 10^digits]. *)
Lemma rounding_count_bounds x digits :
  Qabs x < inject_Z (10 ^ 21) ->
  (0 <= Qfloor (Qabs x * inject_Z (10 ^ Z.of_nat digits) + (1 # 2))
     <= 10 ^ 21 * 10 ^ Z.of_nat digits)%Z.
Proof.
  intros Hx.
  assert (Hp : (0 < 10 ^ Z.of_nat digits)%Z) by (apply Z.pow_pos_nonneg; lia).
  assert (Hq : 0 < inject_Z (10 ^ Z.of_nat digits)).
  { change 0 with (inject_Z 0). rewrite <- Zlt_Qlt. exact Hp. }
  pose proof (Qabs_nonneg x) as Ha.
  split.
  - rewrite <- (Qfloor_Z 0). apply Qfloor_resp_le. change (inject_Z 0) with 0.
    assert (0 <= Qabs x * inject_Z (10 ^ Z.of_nat digits))
      by (apply Qmult_le_0_compat; lra).
    lra.
  - apply Z.lt_succ_r. rewrite Zlt_Qlt.
    eapply Qle_lt_trans; [apply Qfloor_le|].
    unfold Z.succ. rewrite inject_Z_plus, inject_Z_mult. change (inject_Z 1) with 1.
    assert (Qabs x * inject_Z (10 ^ Z.of_nat digits)
            < inject_Z (10 ^ 21) * inject_Z (10 ^ Z.of_nat digits))
      by (apply Qmult_lt_compat_r; assumption).
    lra.
Qed.

Lemma toFixed_small_bounds x digits :
  Qabs x < inject_Z (10 ^ 21) ->
  - inject_Z (10 ^ 21) <= JS.toFixed x digits <= inject_Z (10 ^ 21).
Proof.
  intros Hx. unfold JS.toFixed.
  destruct (Qle_bool (inject_Z (10 ^ 21)) (Qabs x)) eqn:E.
  - apply Qle_bool_iff in E. exfalso. lra.
  - rewrite Qred_correct.
    pose proof (rounding_count_bounds x digits Hx) as [B1 B2].
    assert (Hp : (0 < 10 ^ Z.of_nat digits)%Z) by (apply Z.pow_pos_nonneg; lia).
    revert B1 B2.
    generalize (Qfloor (Qabs x * inject_Z (10 ^ Z.of_nat digits) + (1 # 2))).
    intros n B1 B2.
    assert (Hid : Z.pos (Z.to_pos (10 ^ Z.of_nat digits)) = (10 ^ Z.of_nat digits)%Z)
      by (apply Z2Pos.id, Hp).
    assert (Hb : (0 < 10 ^ 21)%Z) by reflexivity.
    revert Hp Hid Hb B1 B2.
    generalize (10 ^ Z.of_nat digits)%Z. generalize (10 ^ 21)%Z.
    intros B P Hp Hid Hb B1 B2.
    destruct (Qle_bool 0 x); unfold Qle;
      cbn [Qnum Qden inject_Z Qopp]; rewrite Hid; nia.
Qed.

(** Rounding is monotone. *)
Lemma toFixed_monotone x y digits :
  x <= y -> JS.toFixed x digits <= JS.toFixed y digits.
Proof.
  intros Hxy.
  destruct (Qlt_le_dec (Qabs x) (inject_Z (10 ^ 21))) as [Sx|Bx];
  destruct (Qlt_le_dec (Qabs y) (inject_Z (10 ^ 21))) as [Sy|By].
  - (* both below 10^21 *)
    unfold JS.toFixed.
    destruct (Qle_bool (inject_Z (10 ^ 21)) (Qabs x)) eqn:Ex;
      [apply Qle_bool_iff in Ex; exfalso; lra|].
    destruct (Qle_bool (inject_Z (10 ^ 21)) (Qabs y)) eqn:Ey;
      [apply Qle_bool_iff in Ey; exfalso; lra|].
    rewrite !Qred_correct.
    pose proof (rounding_count_bounds x digits Sx) as [X1 _].
    pose proof (rounding_count_bounds y digits Sy) as [Y1 _].
    assert (Hq : 0 < inject_Z (10 ^ Z.of_nat digits)).
    { change 0 with (inject_Z 0). rewrite <- Zlt_Qlt. apply Z.pow_pos_nonneg; lia. }
    destruct (Qle_bool 0 x) eqn:Sgx; destruct (Qle_bool 0 y) eqn:Sgy.
    + apply Qle_bool_iff in Sgx. apply Qle_bool_iff in Sgy.
      apply same_denominator_le, Qfloor_resp_le.
      rewrite (Qabs_pos x Sgx), (Qabs_pos y Sgy).
      assert (x * inject_Z (10 ^ Z.of_nat digits) <= y * inject_Z (10 ^ Z.of_nat digits))
        by (apply Qmult_le_compat_r; lra).
      lra.
    + apply Qle_bool_iff in Sgx. apply Qle_bool_false in Sgy. exfalso. lra.
    + apply same_denominator_le. lia.
    + apply Qle_bool_false in Sgx. apply Qle_bool_false in Sgy.
      apply same_denominator_le. apply Z.opp_le_mono. rewrite !Z.opp_involutive.
      apply Qfloor_resp_le.
      rewrite (Qabs_neg x) by lra. rewrite (Qabs_neg y) by lra.
      assert (- y * inject_Z (10 ^ Z.of_nat digits) <= - x * inject_Z (10 ^ Z.of_nat digits))
        by (apply Qmult_le_compat_r; lra).
      lra.
  - (* x below, y from 10^21 on: y is positive *)
    pose proof (toFixed_small_bounds x digits Sx) as [_ Ux].
    assert (Hy : inject_Z (10 ^ 21) <= y).
    { destruct (Qlt_le_dec y 0) as [N|P].
      - rewrite (Qabs_neg y) in By by lra.
        pose proof (Qle_Qabs x). pose proof (Qabs_nonneg x).
        assert (Qabs x == - x) by (apply Qabs_neg; lra). lra.
      - rewrite (Qabs_pos y P) in By. exact By. }
    unfold JS.toFixed at 2.
    rewrite (proj2 (Qle_bool_iff _ _) By), Qred_correct. lra.
  - (* x from 10^21 on, y below: x is negative *)
    pose proof (toFixed_small_bounds y digits Sy) as [Ly _].
    assert (Hx : x <= - inject_Z (10 ^ 21)).
    { destruct (Qlt_le_dec x 0) as [N|P].
      - rewrite (Qabs_neg x) in Bx by lra. lra.
      - rewrite (Qabs_pos x P) in Bx.
        pose proof (Qle_Qabs y). lra. }
    unfold JS.toFixed at 1.
    rewrite (proj2 (Qle_bool_iff _ _) Bx), Qred_correct. lra.
  - unfold JS.toFixed.
    rewrite (proj2 (Qle_bool_iff _ _) Bx), (proj2 (Qle_bool_iff _ _) By), !Qred_correct.
    exact Hxy.
Qed.

(** ** Samples of a run *)

Lemma sample_at M fuel d n t r samples r' :
  (2 <= fuel)%nat -> SeededRandom.reachable r ->
  calculateSimulationData M fuel d n t r = Some (samples, r') ->
  exists energieArray phaseArray,
    raw_arrays M fuel d n r =
      Some (linspace 0 d (steps_of d), energieArray, phaseArray, r') /\
    List.length energieArray = Z.to_nat (steps_of d) /\
    List.length phaseArray = Z.to_nat (steps_of d) /\
    List.length samples = Z.to_nat (steps_of d) /\
    forall i p, nth_error samples i = Some p ->
      (i < Z.to_nat (steps_of d))%nat /\
      p = make_point n t (nth i (linspace 0 d (steps_of d)) 0)
                     (nth i energieArray 0) (nth i phaseArray 0).
Proof.
  intros Hf Hr E.
  destruct (calculateSimulationData_eq M fuel d n t r Hf Hr)
    as (es & ps & r2 & E0 & L1 & L2 & _ & E').
  rewrite E' in E. injection E as <- <-.
  exists es, ps. split; [exact E0|]. split; [exact L1|]. split; [exact L2|].
  split; [rewrite mapi_length; apply linspace_length|].
  intros i p H. rewrite mapi_nth_error in H.
  destruct (nth_error (linspace 0 d (steps_of d)) i) as [x|] eqn:Ex; [|discriminate].
  cbn [option_map] in H. injection H as <-.
  destruct (nth_error_default _ _ _ 0 Ex) as [-> Hi].
  rewrite linspace_length in Hi. split; [exact Hi|reflexivity].
Qed.

(** X4 -- a run is never empty: for every duration, also zero and
    negative ones, the call returns at least ten samples (exactly ten when
    [duration * 100 < 11]), every sample carries an [energie] and a [phase]
    value, and for duration zero all ten samples have time 0. *)
Theorem every_run_has_ten_samples
    (M : MathHost) (fuel : nat) (duration noiseFactor threshold : Q)
    (rng : SeededRandom.t) :
  (2 <= fuel)%nat -> SeededRandom.reachable rng ->
  exists samples rng',
    calculateSimulationData M fuel duration noiseFactor threshold rng =
      Some (samples, rng') /\
    (10 <= List.length samples)%nat /\
    (duration * 100 < 11 -> List.length samples = 10%nat) /\
    (forall p, In p samples -> energie p <> None /\ phase p <> None) /\
    (duration == 0 -> forall p, In p samples -> time p = 0).
Proof.
  intros Hf Hr.
  destruct (calculateSimulationData_eq M fuel duration noiseFactor threshold rng Hf Hr)
    as (es & ps & r' & _ & _ & _ & _ & E).
  eexists. exists r'. split; [exact E|].
  destruct (sample_at M fuel duration noiseFactor threshold rng _ r' Hf Hr E)
    as (es' & ps' & _ & _ & _ & L & Hat).
  pose proof (steps_of_ge duration) as Hs.
  split; [rewrite L; lia|]. split; [|split].
  - intros Hd. rewrite L. unfold steps_of, STEPS_PER_UNIT_DURATION.
    assert (Qfloor (duration * 100) < 11)%Z.
    { rewrite Zlt_Qlt. eapply Qle_lt_trans; [apply Qfloor_le|exact Hd]. }
    lia.
  - intros p Hp. apply In_nth_error in Hp as [i Hi].
    destruct (Hat i p Hi) as [_ ->].
    destruct (make_point_fields noiseFactor threshold
                (nth i (linspace 0 duration (steps_of duration)) 0)
                (nth i es' 0) (nth i ps' 0)) as (_ & -> & ->).
    split; discriminate.
  - intros Hd p Hp. apply In_nth_error in Hp as [i Hi].
    destruct (Hat i p Hi) as [Hlt ->].
    rewrite (proj1 (make_point_fields _ _ _ _ _)).
    rewrite (toFixed_compat _ 0).
    + reflexivity.
    + rewrite time_points_spaced by exact Hlt.
      generalize (inject_Z (steps_of duration - 1)). intros a.
      rewrite Hd. unfold Qdiv. ring.
Qed.

Lemma every_run_has_ten_samples_witness :
  (2 <= 2)%nat /\ SeededRandom.reachable (SeededRandom.new 7) /\
  exists samples rng',
    calculateSimulationData Approx.host 2 (-(3)) 0.3 1.5 (SeededRandom.new 7) =
      Some (samples, rng') /\
    (10 <= List.length samples)%nat /\
    (-(3) * 100 < 11 -> List.length samples = 10%nat) /\
    (forall p, In p samples -> energie p <> None /\ phase p <> None) /\
    (-(3) == 0 -> forall p, In p samples -> time p = 0).
Proof.
  split; [lia|]. split; [apply SeededRandom.reachable_new|].
  apply (every_run_has_ten_samples Approx.host 2 (-(3)) 0.3 1.5 (SeededRandom.new 7));
    [lia|apply SeededRandom.reachable_new].
Defined.

(** ** The order of the draws *)

Lemma randn_values_length M fuel n r xs r' :
  randn_values M fuel n r = Some (xs, r') -> List.length xs = n.
Proof.
  revert r xs r'. induction n as [|n IH]; intros r xs r' H; cbn [randn_values] in H.
  - injection H as <- _. reflexivity.
  - destruct (SeededRandom.randn M fuel r) as [[x r1]|]; [|discriminate].
    destruct (randn_values M fuel n r1) as [[xs' r2]|] eqn:E; [|discriminate].
    injection H as <- _. simpl. f_equal. apply (IH r1 xs' r2 E).
Qed.

Lemma randn_values_app M fuel a b r xs r1 ys r2 :
  randn_values M fuel a r = Some (xs, r1) ->
  randn_values M fuel b r1 = Some (ys, r2) ->
  randn_values M fuel (a + b) r = Some (xs ++ ys, r2).
Proof.
  revert r xs r1. induction a as [|a IH]; intros r xs r1 Ha Hb; cbn [randn_values] in Ha.
  - injection Ha as <- <-. exact Hb.
  - cbn [Nat.add randn_values].
    destruct (SeededRandom.randn M fuel r) as [[x r']|]; [|discriminate].
    destruct (randn_values M fuel a r') as [[xs' r'']|] eqn:E; [|discriminate].
    injection Ha as <- <-.
    rewrite (IH r' xs' r'' E Hb). reflexivity.
Qed.

(** A map whose callback adds [n] times the next normal variate to a value
    of the element uses the variates in the order of the elements. *)
Lemma map_rng_uses_randn_values M fuel (g : Q -> Q) n ts r :
  map_rng (fun t rng =>
             match SeededRandom.randn M fuel rng with
             | None => None
             | Some (x, rng') => Some (g t + n * x, rng')
             end) ts r =
  match randn_values M fuel (List.length ts) r with
  | None => None
  | Some (xs, r') =>
      Some (map (fun tx => g (fst tx) + n * snd tx) (combine ts xs), r')
  end.
Proof.
  revert r. induction ts as [|t ts IH]; intros r; [reflexivity|].
  cbn [map_rng List.length randn_values].
  destruct (SeededRandom.randn M fuel r) as [[x r1]|]; [|reflexivity].
  rewrite IH.
  destruct (randn_values M fuel (List.length ts) r1) as [[xs r2]|]; reflexivity.
Qed.

Lemma raw_arrays_by_draws M fuel d n r :
  (2 <= fuel)%nat -> SeededRandom.reachable r ->
  exists xs ys r1 r',
    randn_values M fuel (Z.to_nat (steps_of d)) r = Some (xs, r1) /\
    randn_values M fuel (Z.to_nat (steps_of d)) r1 = Some (ys, r') /\
    List.length xs = Z.to_nat (steps_of d) /\
    List.length ys = Z.to_nat (steps_of d) /\
    raw_arrays M fuel d n r =
      Some (linspace 0 d (steps_of d),
            map (fun tx => Math_sin M (2 * Math_PI M * F_ENERGY * fst tx) + n * snd tx)
                (combine (linspace 0 d (steps_of d)) xs),
            map (fun tx => Math_sin M (2 * Math_PI M * F_PHASE * fst tx + Math_PI M / 4)
                           + n * snd tx)
                (combine (linspace 0 d (steps_of d)) ys),
            r').
Proof.
  intros Hf Hr.
  destruct (raw_arrays_total M fuel d n r Hf Hr) as (es & ps & r' & E0 & _ & _ & _).
  pose proof E0 as E1. unfold raw_arrays in E1.
  change (energie_at M fuel n)
    with (fun t rng => match SeededRandom.randn M fuel rng with
                       | None => None
                       | Some (x, rng') =>
                           Some ((fun t => Math_sin M (2 * Math_PI M * F_ENERGY * t)) t
                                 + n * x, rng')
                       end) in E1.
  rewrite map_rng_uses_randn_values in E1.
  rewrite linspace_length in E1.
  destruct (randn_values M fuel (Z.to_nat (steps_of d)) r) as [[xs r1]|] eqn:X;
    [|discriminate].
  change (phase_at M fuel n)
    with (fun t rng => match SeededRandom.randn M fuel rng with
                       | None => None
                       | Some (x, rng') =>
                           Some ((fun t => Math_sin M (2 * Math_PI M * F_PHASE * t
                                                       + Math_PI M / 4)) t
                                 + n * x, rng')
                       end) in E1.
  rewrite map_rng_uses_randn_values in E1.
  rewrite linspace_length in E1.
  destruct (randn_values M fuel (Z.to_nat (steps_of d)) r1) as [[ys r2]|] eqn:Y;
    [|discriminate].
  exists xs, ys, r1, r2.
  split; [reflexivity|]. split; [exact Y|].
  split; [apply (randn_values_length M fuel _ r xs r1 X)|].
  split; [apply (randn_values_length M fuel _ r1 ys r2 Y)|].
  rewrite E0. symmetry. exact E1.
Qed.

(** X5 -- the order of the draws: a run of [steps] time points makes
    [2 * steps] calls of [randn]; the first [steps] variates are the noise
    of the energy values in time order, the next [steps] variates the noise
    of the phase values, each added, scaled by the noise factor, to its
    sine; the generator the call leaves is the one after these calls. *)
Theorem energy_draws_precede_phase_draws
    (M : MathHost) (fuel : nat) (duration noiseFactor threshold : Q)
    (rng : SeededRandom.t) :
  (2 <= fuel)%nat -> SeededRandom.reachable rng ->
  exists timeArray energieArray phaseArray samples rng' xs ys rng1,
    raw_arrays M fuel duration noiseFactor rng =
      Some (timeArray, energieArray, phaseArray, rng') /\
    calculateSimulationData M fuel duration noiseFactor threshold rng =
      Some (samples, rng') /\
    randn_values M fuel (List.length timeArray) rng = Some (xs, rng1) /\
    randn_values M fuel (List.length timeArray) rng1 = Some (ys, rng') /\
    randn_values M fuel (2 * List.length timeArray) rng = Some (xs ++ ys, rng') /\
    List.length xs = List.length timeArray /\
    List.length ys = List.length timeArray /\
    energieArray =
      map (fun tx => Math_sin M (2 * Math_PI M * F_ENERGY * fst tx)
                     + noiseFactor * snd tx) (combine timeArray xs) /\
    phaseArray =
      map (fun tx => Math_sin M (2 * Math_PI M * F_PHASE * fst tx + Math_PI M / 4)
                     + noiseFactor * snd tx) (combine timeArray ys).
Proof.
  intros Hf Hr.
  destruct (raw_arrays_by_draws M fuel duration noiseFactor rng Hf Hr)
    as (xs & ys & r1 & r' & X & Y & Lx & Ly & E0).
  destruct (calculateSimulationData_eq M fuel duration noiseFactor threshold rng Hf Hr)
    as (es & ps & r2 & E0' & _ & _ & _ & E).
  rewrite E0 in E0'. injection E0' as <- <- <-.
  exists (linspace 0 duration (steps_of duration)).
  eexists. eexists. eexists. exists r', xs, ys, r1.
  rewrite linspace_length.
  split; [exact E0|]. split; [exact E|]. split; [exact X|]. split; [exact Y|].
  split.
  { replace (2 * Z.to_nat (steps_of duration))%nat
      with (Z.to_nat (steps_of duration) + Z.to_nat (steps_of duration))%nat by lia.
    apply (randn_values_app M fuel _ _ rng xs r1 ys r' X Y). }
  split; [exact Lx|]. split; [exact Ly|]. split; reflexivity.
Qed.

Lemma energy_draws_precede_phase_draws_witness :
  (2 <= 2)%nat /\ SeededRandom.reachable (SeededRandom.new 42) /\
  exists timeArray energieArray phaseArray samples rng' xs ys rng1,
    raw_arrays Approx.host 2 10 0.3 (SeededRandom.new 42) =
      Some (timeArray, energieArray, phaseArray, rng') /\
    calculateSimulationData Approx.host 2 10 0.3 1.5 (SeededRandom.new 42) =
      Some (samples, rng') /\
    randn_values Approx.host 2 (List.length timeArray) (SeededRandom.new 42) = Some (xs, rng1) /\
    randn_values Approx.host 2 (List.length timeArray) rng1 = Some (ys, rng') /\
    randn_values Approx.host 2 (2 * List.length timeArray) (SeededRandom.new 42)
      = Some (xs ++ ys, rng') /\
    List.length xs = List.length timeArray /\
    List.length ys = List.length timeArray /\
    energieArray =
      map (fun tx => Math_sin Approx.host (2 * Math_PI Approx.host * F_ENERGY * fst tx)
                     + 0.3 * snd tx) (combine timeArray xs) /\
    phaseArray =
      map (fun tx => Math_sin Approx.host (2 * Math_PI Approx.host * F_PHASE * fst tx
                                           + Math_PI Approx.host / 4)
                     + 0.3 * snd tx) (combine timeArray ys).
Proof.
  split; [lia|]. split; [apply SeededRandom.reachable_new|].
  apply (energy_draws_precede_phase_draws Approx.host 2 10 0.3 1.5 (SeededRandom.new 42));
    [lia|apply SeededRandom.reachable_new].
Defined.

(** ** Runs without noise *)

Lemma make_point_compat n t x e p e' p' :
  e == e' -> p == p' -> make_point n t x e p = make_point n t x e' p'.
Proof.
  intros Ee Ep. unfold make_point, JS.gtb.
  rewrite (toFixed_compat e e' 3 Ee), (toFixed_compat p p' 3 Ep).
  rewrite (Qle_bool_compat e t e' t Ee (Qeq_refl _)).
  rewrite (Qle_bool_compat p t p' t Ep (Qeq_refl _)).
  reflexivity.
Qed.

Lemma nth_map_combine {A B C} (f : A * B -> C) (xs : list A) (ys : list B) i dA dB dC :
  (i < List.length xs)%nat -> List.length ys = List.length xs ->
  nth i (map f (combine xs ys)) dC = f (nth i xs dA, nth i ys dB).
Proof.
  intros Hi Hl.
  rewrite (nth_indep _ dC (f (dA, dB))) by (rewrite length_map, length_combine; lia).
  rewrite map_nth, combine_nth by (symmetry; exact Hl). reflexivity.
Qed.

Lemma mapi_from_ext {A B} (f g : A -> nat -> B) xs k :
  (forall i x, nth_error xs i = Some x -> f x (k + i)%nat = g x (k + i)%nat) ->
  mapi_from k f xs = mapi_from k g xs.
Proof.
  revert k. induction xs as [|x xs IH]; intros k H; [reflexivity|].
  cbn [mapi_from]. f_equal.
  - specialize (H 0%nat x eq_refl). now rewrite Nat.add_0_r in H.
  - apply IH. intros i y Hy. specialize (H (S i) y Hy).
    now replace (k + S i)%nat with (S k + i)%nat in H by lia.
Qed.

(** X6 -- without noise the seed does not matter: for a noise factor equal
    to zero, runs on any two generators return the same samples, and the
    [energie] and [phase] of the sample at each time point are the rounded
    sines of that time point. *)
Theorem zero_noise_run_ignores_seed
    (M : MathHost) (fuel : nat) (duration noiseFactor threshold : Q)
    (rng1 rng2 : SeededRandom.t) :
  noiseFactor == 0 -> (2 <= fuel)%nat ->
  SeededRandom.reachable rng1 -> SeededRandom.reachable rng2 ->
  exists samples rng1' rng2',
    calculateSimulationData M fuel duration noiseFactor threshold rng1 =
      Some (samples, rng1') /\
    calculateSimulationData M fuel duration noiseFactor threshold rng2 =
      Some (samples, rng2') /\
    forall i p, nth_error samples i = Some p ->
      let t := nth i (linspace 0 duration (steps_of duration)) 0 in
      energie p = Some (JS.toFixed (Math_sin M (2 * Math_PI M * F_ENERGY * t)) 3) /\
      phase p =
        Some (JS.toFixed (Math_sin M (2 * Math_PI M * F_PHASE * t + Math_PI M / 4)) 3).
Proof.
  intros Hn Hf Hr1 Hr2.
  assert (Hrun : forall rng, SeededRandom.reachable rng ->
    exists r',
      calculateSimulationData M fuel duration noiseFactor threshold rng =
      Some (mapi (fun x (i : nat) =>
                    make_point noiseFactor threshold x
                      (Math_sin M (2 * Math_PI M * F_ENERGY * x))
                      (Math_sin M (2 * Math_PI M * F_PHASE * x + Math_PI M / 4)))
                 (linspace 0 duration (steps_of duration)), r')).
  { intros rng Hr.
    destruct (raw_arrays_by_draws M fuel duration noiseFactor rng Hf Hr)
      as (xs & ys & r1 & r' & _ & _ & Lx & Ly & E0).
    destruct (calculateSimulationData_eq M fuel duration noiseFactor threshold rng Hf Hr)
      as (es & ps & r2 & E0' & _ & _ & _ & E).
    rewrite E0 in E0'. injection E0' as <- <- <-.
    exists r'. rewrite E. f_equal. f_equal.
    apply mapi_from_ext. intros i x Hx. cbn [Nat.add].
    destruct (nth_error_default _ _ _ 0 Hx) as [Hnth Hi].
    apply make_point_compat.
    - rewrite (nth_map_combine _ _ xs i 0 0 0 Hi)
        by (rewrite Lx, linspace_length; reflexivity).
      cbn [fst snd]. rewrite Hnth, Hn. ring.
    - rewrite (nth_map_combine _ _ ys i 0 0 0 Hi)
        by (rewrite Ly, linspace_length; reflexivity).
      cbn [fst snd]. rewrite Hnth, Hn. ring. }
  destruct (Hrun rng1 Hr1) as [r1' E1]. destruct (Hrun rng2 Hr2) as [r2' E2].
  eexists. exists r1', r2'. split; [exact E1|]. split; [exact E2|].
  intros i p H. rewrite mapi_nth_error in H.
  destruct (nth_error (linspace 0 duration (steps_of duration)) i) as [x|] eqn:Ex;
    [|discriminate].
  cbn [option_map] in H. injection H as <-.
  destruct (nth_error_default _ _ _ 0 Ex) as [-> _].
  cbv zeta. split; apply make_point_fields.
Qed.

Lemma zero_noise_run_ignores_seed_witness :
  0 == 0 /\ (2 <= 2)%nat /\
  SeededRandom.reachable (SeededRandom.new 1) /\
  SeededRandom.reachable (SeededRandom.new 2) /\
  exists samples rng1' rng2',
    calculateSimulationData Approx.host 2 50 0 (-(1)) (SeededRandom.new 1) =
      Some (samples, rng1') /\
    calculateSimulationData Approx.host 2 50 0 (-(1)) (SeededRandom.new 2) =
      Some (samples, rng2').
Proof.
  split; [reflexivity|]. split; [lia|].
  split; [apply SeededRandom.reachable_new|]. split; [apply SeededRandom.reachable_new|].
  destruct (zero_noise_run_ignores_seed Approx.host 2 50 0 (-(1))
              (SeededRandom.new 1) (SeededRandom.new 2))
    as (samples & r1 & r2 & E1 & E2 & _);
    [reflexivity|lia|apply SeededRandom.reachable_new|apply SeededRandom.reachable_new|].
  exists samples, r1, r2. split; assumption.
Defined.

(** ** Times of a run of any non-negative duration *)

Lemma step_nonneg d : 0 <= d -> 0 <= d / inject_Z (steps_of d - 1).
Proof.
  intros Hd. pose proof (steps_of_ge d).
  apply Qle_shift_div_l; [change 0 with (inject_Z 0); rewrite <- Zlt_Qlt; lia|lra].
Qed.

Lemma time_points_monotone d i j :
  0 <= d -> (i <= j)%nat -> (j < Z.to_nat (steps_of d))%nat ->
  nth i (linspace 0 d (steps_of d)) 0 <= nth j (linspace 0 d (steps_of d)) 0.
Proof.
  intros Hd Hij Hj. rewrite !time_points_spaced by lia.
  rewrite !(Qmult_comm (d / inject_Z (steps_of d - 1))).
  apply Qmult_le_compat_r; [|apply step_nonneg, Hd].
  rewrite <- Zle_Qle. lia.
Qed.

(** X7 -- the times of a run: for every duration that is not negative the
    time fields never decrease along the samples, the first is 0, and none
    is negative. *)
Theorem rounded_times_never_decrease
    (M : MathHost) (fuel : nat) (duration noiseFactor threshold : Q)
    (rng : SeededRandom.t) :
  0 <= duration -> (2 <= fuel)%nat -> SeededRandom.reachable rng ->
  exists samples rng' first,
    calculateSimulationData M fuel duration noiseFactor threshold rng =
      Some (samples, rng') /\
    (forall i j p q,
       (i <= j)%nat -> nth_error samples i = Some p -> nth_error samples j = Some q ->
       time p <= time q) /\
    nth_error samples 0 = Some first /\ time first = 0 /\
    (forall p, In p samples -> 0 <= time p).
Proof.
  intros Hd Hf Hr.
  destruct (calculateSimulationData_eq M fuel duration noiseFactor threshold rng Hf Hr)
    as (es & ps & r' & _ & _ & _ & _ & E).
  set (samples := mapi _ _) in E.
  pose proof (steps_of_ge duration) as Hs.
  assert (L : List.length samples = Z.to_nat (steps_of duration))
    by (unfold samples; rewrite mapi_length; apply linspace_length).
  assert (Hmono : forall i j p q,
    (i <= j)%nat -> nth_error samples i = Some p -> nth_error samples j = Some q ->
    time p <= time q).
  { intros i j p q Hij Hp Hq.
    destruct (sample_time M fuel duration noiseFactor threshold rng _ r' i p Hf Hr E Hp)
      as [-> Hi].
    destruct (sample_time M fuel duration noiseFactor threshold rng _ r' j q Hf Hr E Hq)
      as [-> Hj].
    apply toFixed_monotone, time_points_monotone; assumption. }
  assert (exists first, nth_error samples 0 = Some first) as [first H0].
  { destruct (nth_error samples 0) eqn:X; [eauto|]. apply nth_error_None in X. lia. }
  assert (T0 : time first = 0).
  { destruct (sample_time M fuel duration noiseFactor threshold rng _ r' 0 first Hf Hr E H0)
      as [-> _].
    rewrite (toFixed_compat _ 0 2 (time_points_first duration)). reflexivity. }
  exists samples, r', first.
  split; [exact E|]. split; [exact Hmono|]. split; [exact H0|]. split; [exact T0|].
  intros p Hp. apply In_nth_error in Hp as [i Hi].
  rewrite <- T0. apply (Hmono 0%nat i first p); [lia|exact H0|exact Hi].
Qed.

Lemma rounded_times_never_decrease_witness :
  0 <= 0.01 /\ (2 <= 2)%nat /\ SeededRandom.reachable (SeededRandom.new 42) /\
  exists samples rng' first,
    calculateSimulationData Approx.host 2 0.01 0.3 1.5 (SeededRandom.new 42) =
      Some (samples, rng') /\
    (forall i j p q,
       (i <= j)%nat -> nth_error samples i = Some p -> nth_error samples j = Some q ->
       time p <= time q) /\
    nth_error samples 0 = Some first /\ time first = 0 /\
    (forall p, In p samples -> 0 <= time p).
Proof.
  split; [discriminate|]. split; [lia|]. split; [apply SeededRandom.reachable_new|].
  apply (rounded_times_never_decrease Approx.host 2 0.01 0.3 1.5 (SeededRandom.new 42));
    [discriminate|lia|apply SeededRandom.reachable_new].
Defined.

(** ** Nodes *)

(** X8 -- what a node's value is bounded by: the [knoten] value of a
    sample is never below the threshold rounded to 3 decimals (it can equal
    it, the strict test being made on the unrounded values), and so never
    below a threshold that has at most 3 decimals. *)
Theorem node_value_not_below_threshold
    (M : MathHost) (fuel : nat) (duration noiseFactor threshold : Q)
    (rng : SeededRandom.t) (samples : list SimulationDataPoint)
    (rng' : SeededRandom.t) (p : SimulationDataPoint) (k : Q) :
  (2 <= fuel)%nat -> SeededRandom.reachable rng ->
  calculateSimulationData M fuel duration noiseFactor threshold rng = Some (samples, rng') ->
  In p samples -> knoten p = Some k ->
  JS.toFixed threshold 3 <= k /\
  (JS.toFixed threshold 3 == threshold -> threshold <= k) /\
  characteristic p <> None.
Proof.
  intros Hf Hr E Hp Hk.
  destruct (sample_at M fuel duration noiseFactor threshold rng samples rng' Hf Hr E)
    as (es & ps & _ & _ & _ & _ & Hat).
  apply In_nth_error in Hp as [i Hi].
  destruct (Hat i p Hi) as [_ ->].
  destruct (make_point_node noiseFactor threshold
              (nth i (linspace 0 duration (steps_of duration)) 0)
              (nth i es 0) (nth i ps 0)) as (Hiff & Hval & Hchar).
  assert (Hpres : knoten (make_point noiseFactor threshold
                     (nth i (linspace 0 duration (steps_of duration)) 0)
                     (nth i es 0) (nth i ps 0)) <> None) by congruence.
  destruct (proj1 Hiff Hpres) as (He & _ & _).
  destruct (Hval k Hk) as (-> & _ & _).
  assert (B : JS.toFixed threshold 3 <= JS.toFixed (nth i es 0) 3)
    by (apply toFixed_monotone; lra).
  split; [exact B|]. split; [intros Ht; rewrite <- Ht; exact B|].
  apply Hchar, Hpres.
Qed.

Lemma run_778_eq :
  calculateSimulationData Approx.host 2 0.1 0.5 0.5 (SeededRandom.new 778) = run_778.
Proof. vm_compute. reflexivity. Qed.

Lemma run_778_node :
  exists samples rng', run_778 = Some (samples, rng') /\ In node_778 samples.
Proof.
  unfold run_778. eexists. eexists. split; [reflexivity|].
  unfold node_778. simpl. tauto.
Qed.

Lemma node_value_not_below_threshold_witness :
  exists samples rng',
    (2 <= 2)%nat /\ SeededRandom.reachable (SeededRandom.new 778) /\
    calculateSimulationData Approx.host 2 0.1 0.5 0.5 (SeededRandom.new 778) =
      Some (samples, rng') /\
    In node_778 samples /\ knoten node_778 = Some 1.613 /\
    JS.toFixed 0.5 3 <= 1.613 /\
    (JS.toFixed 0.5 3 == 0.5 -> 0.5 <= 1.613) /\
    characteristic node_778 <> None.
Proof.
  destruct run_778_node as (samples & rng' & E & Hin).
  rewrite <- run_778_eq in E.
  exists samples, rng'.
  split; [lia|]. split; [apply SeededRandom.reachable_new|].
  split; [exact E|]. split; [exact Hin|]. split; [reflexivity|].
  apply (node_value_not_below_threshold Approx.host 2 0.1 0.5 0.5 (SeededRandom.new 778)
           samples rng' node_778 1.613);
    [lia|apply SeededRandom.reachable_new|exact E|exact Hin|reflexivity].
Defined.

Lemma label_cases n t x e p :
  knoten (make_point n t x e p) <> None ->
  characteristic (make_point n t x e p) =
    Some (if B64.gtb (B64.of_Q (JS.toFixed e 3)) (B64.mul (B64.of_Q t) (B64.of_Q 1.8))
             && B64.ltb (B64.of_Q n) (B64.of_Q 0.25)
          then "Starker Hochenergie-Knoten (Niedrigrauschen)"%string
          else if B64.gtb (B64.of_Q (JS.toFixed e 3))
                          (B64.mul (B64.of_Q t) (B64.of_Q 1.5))
          then "Hochenergie-Knoten"%string
          else if B64.ltb (B64.of_Q n) (B64.of_Q 0.2)
          then "Niedrigrauschen-Knoten"%string
          else "Standard-Resonanzknoten"%string).
Proof.
  unfold make_point.
  destruct (JS.gtb e t && JS.gtb p t && JS.eqb (JS.toFixed e 3) (JS.toFixed p 3));
    cbn [knoten characteristic]; [reflexivity|congruence].
Qed.

(** A double below the double of [0.2] is below [0.25]. *)
Lemma below_fifth_below_quarter x :
  B64.ltb x (B64.of_Q 0.2) = true -> B64.ltb x (B64.of_Q 0.25) = true.
Proof.
  assert (E1 : B64.of_Q 0.2 = S754_finite false 7205759403792794 (-55))
    by (vm_compute; reflexivity).
  assert (E2 : B64.of_Q 0.25 = S754_finite false 4503599627370496 (-54))
    by (vm_compute; reflexivity).
  rewrite E1, E2. unfold B64.ltb, SFltb, SFcompare.
  destruct x as [s|s| |s m e]; try (intros H; exact H).
  destruct s; [intros _; reflexivity|].
  destruct (Z.compare_spec e (-55)) as [He|He|He]; intros H.
  - subst e. reflexivity.
  - assert (L : (e ?= -54)%Z = Lt) by (apply Z.compare_lt_iff; lia).
    rewrite L. reflexivity.
  - discriminate H.
Qed.

(** X9 -- the label of a node.  With [k] the node's value and the tests
    made as the code makes them, on doubles ([above18]: [k] exceeds the
    rounded product [threshold * 1.8]; [above15]: [k] exceeds the rounded
    product [threshold * 1.5]; [quiet25]: noise below 0.25; [quiet20]: noise
    below 0.2), the label is "Starker Hochenergie-Knoten (Niedrigrauschen)"
    exactly when [above18] and [quiet25]; "Hochenergie-Knoten" exactly when
    [above15] and not both of the former; "Niedrigrauschen-Knoten" exactly
    when neither [above15] nor [above18] and [quiet20]; and
    "Standard-Resonanzknoten" exactly in the remaining case. *)
Theorem node_label_table
    (M : MathHost) (fuel : nat) (duration noiseFactor threshold : Q)
    (rng : SeededRandom.t) (samples : list SimulationDataPoint)
    (rng' : SeededRandom.t) (p : SimulationDataPoint) (k : Q) :
  (2 <= fuel)%nat -> SeededRandom.reachable rng ->
  calculateSimulationData M fuel duration noiseFactor threshold rng = Some (samples, rng') ->
  In p samples -> knoten p = Some k ->
  let above18 :=
    B64.gtb (B64.of_Q k) (B64.mul (B64.of_Q threshold) (B64.of_Q 1.8)) in
  let above15 :=
    B64.gtb (B64.of_Q k) (B64.mul (B64.of_Q threshold) (B64.of_Q 1.5)) in
  let quiet25 := B64.ltb (B64.of_Q noiseFactor) (B64.of_Q 0.25) in
  let quiet20 := B64.ltb (B64.of_Q noiseFactor) (B64.of_Q 0.2) in
  (characteristic p = Some "Starker Hochenergie-Knoten (Niedrigrauschen)"%string <->
     above18 = true /\ quiet25 = true) /\
  (characteristic p = Some "Hochenergie-Knoten"%string <->
     above15 = true /\ (above18 = false \/ quiet25 = false)) /\
  (characteristic p = Some "Niedrigrauschen-Knoten"%string <->
     above15 = false /\ above18 = false /\ quiet20 = true) /\
  (characteristic p = Some "Standard-Resonanzknoten"%string <->
     above15 = false /\ (above18 = false \/ quiet25 = false) /\ quiet20 = false).
Proof.
  intros Hf Hr E Hp Hk.
  destruct (sample_at M fuel duration noiseFactor threshold rng samples rng' Hf Hr E)
    as (es & ps & _ & _ & _ & _ & Hat).
  apply In_nth_error in Hp as [i Hi].
  destruct (Hat i p Hi) as [_ ->].
  set (x := nth i (linspace 0 duration (steps_of duration)) 0) in *.
  assert (Hpres : knoten (make_point noiseFactor threshold x (nth i es 0) (nth i ps 0))
                  <> None) by congruence.
  destruct (proj1 (proj2 (make_point_node noiseFactor threshold x (nth i es 0) (nth i ps 0)))
              k Hk) as (Hkv & _ & _).
  rewrite (label_cases _ _ _ _ _ Hpres). rewrite <- Hkv. cbv zeta.
  pose proof (below_fifth_below_quarter (B64.of_Q noiseFactor)) as Hq.
  destruct (B64.gtb (B64.of_Q k) (B64.mul (B64.of_Q threshold) (B64.of_Q 1.8)));
  destruct (B64.ltb (B64.of_Q noiseFactor) (B64.of_Q 0.25));
  destruct (B64.gtb (B64.of_Q k) (B64.mul (B64.of_Q threshold) (B64.of_Q 1.5)));
  destruct (B64.ltb (B64.of_Q noiseFactor) (B64.of_Q 0.2));
  cbn [andb];
  try (specialize (Hq eq_refl); discriminate Hq);
  repeat split; intros; try discriminate; try reflexivity;
  repeat match goal with
  | H : _ /\ _ |- _ => destruct H
  | H : _ \/ _ |- _ => destruct H
  end;
  try discriminate; try reflexivity; auto.
Qed.

Lemma node_label_table_witness :
  exists samples rng',
    (2 <= 2)%nat /\ SeededRandom.reachable (SeededRandom.new 778) /\
    calculateSimulationData Approx.host 2 0.1 0.5 0.5 (SeededRandom.new 778) =
      Some (samples, rng') /\
    In node_778 samples /\ knoten node_778 = Some 1.613 /\
    (characteristic node_778 = Some "Hochenergie-Knoten"%string <->
       B64.gtb (B64.of_Q 1.613) (B64.mul (B64.of_Q 0.5) (B64.of_Q 1.5)) = true /\
       (B64.gtb (B64.of_Q 1.613) (B64.mul (B64.of_Q 0.5) (B64.of_Q 1.8)) = false \/
        B64.ltb (B64.of_Q 0.5) (B64.of_Q 0.25) = false)).
Proof.
  destruct run_778_node as (samples & rng' & E & Hin).
  rewrite <- run_778_eq in E.
  exists samples, rng'.
  split; [lia|]. split; [apply SeededRandom.reachable_new|].
  split; [exact E|]. split; [exact Hin|]. split; [reflexivity|].
  apply (node_label_table Approx.host 2 0.1 0.5 0.5 (SeededRandom.new 778)
           samples rng' node_778 1.613);
    [lia|apply SeededRandom.reachable_new|exact E|exact Hin|reflexivity].
Defined.

(** The products are the rounded ones: at threshold 0.7 the double of
    [0.7 * 1.5] is [1.0499999999999998], so a node of value 1.05 is a
    "Hochenergie-Knoten", although [1.05 > 0.7 * 1.5] fails in exact
    arithmetic. *)
Example label_at_rounded_product :
  characteristic (make_point 0.5 0.7 0 1.05 1.05) = Some "Hochenergie-Knoten"%string /\
  ~ 0.7 * 1.5 < 1.05.
Proof. split; [vm_compute; reflexivity|intros H; discriminate H]. Qed.

(** ** What the chart derives from a run *)

Lemma node_sample_fields M fuel d n t r samples r' p k :
  (2 <= fuel)%nat -> SeededRandom.reachable r ->
  calculateSimulationData M fuel d n t r = Some (samples, r') ->
  In p samples -> knoten p = Some k ->
  energie p = Some k /\ phase p = Some k /\
  exists label, characteristic p = Some label /\
    (label = "Starker Hochenergie-Knoten (Niedrigrauschen)"%string \/
     label = "Hochenergie-Knoten"%string \/
     label = "Niedrigrauschen-Knoten"%string \/
     label = "Standard-Resonanzknoten"%string).
Proof.
  intros Hf Hr E Hp Hk.
  destruct (sample_at M fuel d n t r samples r' Hf Hr E) as (es & ps & _ & _ & _ & _ & Hat).
  apply In_nth_error in Hp as [i Hi].
  destruct (Hat i p Hi) as [_ ->].
  set (x := nth i (linspace 0 d (steps_of d)) 0) in *.
  destruct (proj1 (proj2 (make_point_node n t x (nth i es 0) (nth i ps 0))) k Hk)
    as (_ & He & Hph).
  split; [exact He|]. split; [exact Hph|].
  rewrite label_cases by congruence. eexists. split; [reflexivity|].
  destruct (_ && _); [tauto|]. destruct (B64.gtb _ _); [tauto|].
  destruct (B64.ltb _ _); tauto.
Qed.

Lemma sample_fields_present M fuel d n t r samples r' p :
  (2 <= fuel)%nat -> SeededRandom.reachable r ->
  calculateSimulationData M fuel d n t r = Some (samples, r') ->
  In p samples ->
  Chart.is_defined (energie p) = true /\ Chart.is_defined (phase p) = true.
Proof.
  intros Hf Hr E Hp.
  destruct (sample_at M fuel d n t r samples r' Hf Hr E) as (es & ps & _ & _ & _ & _ & Hat).
  apply In_nth_error in Hp as [i Hi].
  destruct (Hat i p Hi) as [_ ->].
  destruct (make_point_fields n t (nth i (linspace 0 d (steps_of d)) 0)
              (nth i es 0) (nth i ps 0)) as (_ & -> & ->).
  split; reflexivity.
Qed.

(** X10 -- the node list of the chart: for the samples of a run, the list
    of detailed nodes, the scatter points and the count reported to [App]
    all have one entry per sample with a [knoten]; every detailed node
    carries the node value as both [energie] and [phase] and one of the four
    labels, never "N/A"; and every scatter point has a value. *)
Theorem chart_lists_every_node
    (M : MathHost) (fuel : nat) (duration noiseFactor threshold : Q) (seed : Z)
    (samples : list SimulationDataPoint) (rng' : SeededRandom.t) :
  (2 <= fuel)%nat ->
  calculateSimulationData M fuel duration noiseFactor threshold
    (SeededRandom.new (inject_Z seed)) = Some (samples, rng') ->
  List.length (Chart.detailedKnotenPoints samples) =
    List.length (filter Stats.is_knoten samples) /\
  List.length (Chart.knotenPointsForScatter samples) =
    List.length (filter Stats.is_knoten samples) /\
  App.detailedKnotenPoints_length M fuel duration noiseFactor threshold seed =
    Z.of_nat (List.length (Chart.detailedKnotenPoints samples)) /\
  (forall dk, In dk (Chart.detailedKnotenPoints samples) ->
     exists k,
       DetailedKnoten.energie dk = Some k /\ DetailedKnoten.phase dk = Some k /\
       DetailedKnoten.characteristic dk <> "N/A"%string /\
       In {| ScatterPoint.time := DetailedKnoten.time dk; ScatterPoint.value := Some k |}
          (Chart.knotenPointsForScatter samples)) /\
  (forall sp, In sp (Chart.knotenPointsForScatter samples) ->
     ScatterPoint.value sp <> None).
Proof.
  intros Hf E.
  pose proof (SeededRandom.reachable_new (inject_Z seed)) as Hr.
  assert (Hfilter :
    filter (fun d => Chart.is_defined (knoten d) && Chart.is_defined (energie d)
                     && Chart.is_defined (phase d)) samples =
    filter Stats.is_knoten samples).
  { apply filter_ext_in. intros p Hp.
    destruct (sample_fields_present M fuel duration noiseFactor threshold _ samples rng' p
                Hf Hr E Hp) as [-> ->].
    unfold Stats.is_knoten, Chart.is_defined. destruct (knoten p); reflexivity. }
  assert (Hfilter2 :
    filter (fun d => Chart.is_defined (knoten d)) samples =
    filter Stats.is_knoten samples).
  { apply filter_ext. intros p. unfold Stats.is_knoten, Chart.is_defined.
    destruct (knoten p); reflexivity. }
  split; [unfold Chart.detailedKnotenPoints; rewrite length_map, Hfilter; reflexivity|].
  split; [unfold Chart.knotenPointsForScatter; rewrite length_map, Hfilter2; reflexivity|].
  split.
  { unfold App.detailedKnotenPoints_length. rewrite E.
    unfold Chart.detailedKnotenPoints. rewrite length_map. f_equal. f_equal.
    apply filter_ext. intros p. unfold Chart.is_defined.
    destruct (knoten p), (energie p), (phase p); reflexivity. }
  split.
  - intros dk Hdk. unfold Chart.detailedKnotenPoints in Hdk.
    apply in_map_iff in Hdk as (p & <- & Hp). rewrite Hfilter in Hp.
    apply filter_In in Hp as [Hp Hkn]. unfold Stats.is_knoten in Hkn.
    destruct (knoten p) as [k|] eqn:Hk; [|discriminate].
    destruct (node_sample_fields M fuel duration noiseFactor threshold _ samples rng' p k
                Hf Hr E Hp Hk) as (He & Hph & label & Hl & Hcases).
    exists k. cbn [DetailedKnoten.energie DetailedKnoten.phase
                   DetailedKnoten.characteristic DetailedKnoten.time].
    split; [exact He|]. split; [exact Hph|]. split.
    + rewrite Hl. unfold Chart.characteristic_or_NA.
      destruct Hcases as [-> | [-> | [-> | ->]]]; cbn; discriminate.
    + unfold Chart.knotenPointsForScatter. apply in_map_iff.
      exists p. rewrite Hk. split; [reflexivity|].
      rewrite Hfilter2. apply filter_In. split; [exact Hp|].
      unfold Stats.is_knoten. rewrite Hk. reflexivity.
  - intros sp Hsp. unfold Chart.knotenPointsForScatter in Hsp.
    apply in_map_iff in Hsp as (p & <- & Hp).
    apply filter_In in Hp as [_ Hkn]. cbn [ScatterPoint.value].
    unfold Chart.is_defined in Hkn. destruct (knoten p); [discriminate|discriminate Hkn].
Qed.

Lemma chart_lists_every_node_witness :
  exists samples rng',
    (2 <= 2)%nat /\
    calculateSimulationData Approx.host 2 0.1 0.5 0.5 (SeededRandom.new (inject_Z 778)) =
      Some (samples, rng') /\
    Chart.detailedKnotenPoints samples =
      [ {| DetailedKnoten.time := 0.03; DetailedKnoten.energie := Some 1.613;
           DetailedKnoten.phase := Some 1.613;
           DetailedKnoten.characteristic := "Hochenergie-Knoten" |} ] /\
    App.detailedKnotenPoints_length Approx.host 2 0.1 0.5 0.5 778 =
      Z.of_nat (List.length (Chart.detailedKnotenPoints samples)).
Proof.
  pose proof run_778_eq as E. unfold run_778 in E.
  eexists. eexists. split; [lia|]. split; [exact E|]. split; [reflexivity|].
  apply (chart_lists_every_node Approx.host 2 0.1 0.5 0.5 778 _ _ (le_n 2) E).
Defined.

Lemma Math_min_with_le xs last :
  Chart.Math_min_with xs last <= last /\
  forall x, In x xs -> Chart.Math_min_with xs last <= x.
Proof.
  induction xs as [|y xs [IH1 IH2]]; cbn [Chart.Math_min_with fold_right].
  - split; [lra|intros x []].
  - fold (Chart.Math_min_with xs last).
    pose proof (Q.le_min_l y (Chart.Math_min_with xs last)).
    pose proof (Q.le_min_r y (Chart.Math_min_with xs last)).
    split; [lra|]. intros x [<-|Hx]; [assumption|]. specialize (IH2 x Hx). lra.
Qed.

Lemma Math_max_with_ge xs last :
  last <= Chart.Math_max_with xs last /\
  forall x, In x xs -> x <= Chart.Math_max_with xs last.
Proof.
  induction xs as [|y xs [IH1 IH2]]; cbn [Chart.Math_max_with fold_right].
  - split; [lra|intros x []].
  - fold (Chart.Math_max_with xs last).
    pose proof (Q.le_max_l y (Chart.Math_max_with xs last)).
    pose proof (Q.le_max_r y (Chart.Math_max_with xs last)).
    split; [lra|]. intros x [<-|Hx]; [assumption|]. specialize (IH2 x Hx). lra.
Qed.

(** X11 -- the y-axis of the chart: for every list of samples the domain
    reaches at least from -2 to 2, its bounds are multiples of 0.1, and
    every [energie] and [phase] value lies inside it with a margin of at
    least 0.5 on both sides. *)
Theorem yDomain_contains_all_values (simulationData : list SimulationDataPoint) :
  fst (Chart.yDomain simulationData) <= -(2) /\
  2 <= snd (Chart.yDomain simulationData) /\
  (exists a b, fst (Chart.yDomain simulationData) == inject_Z a / 10 /\
               snd (Chart.yDomain simulationData) == inject_Z b / 10) /\
  (forall d v, In d simulationData -> energie d = Some v \/ phase d = Some v ->
     fst (Chart.yDomain simulationData) + 0.5 <= v /\
     v + 0.5 <= snd (Chart.yDomain simulationData)).
Proof.
  assert (Hin : forall d v, In d simulationData ->
            energie d = Some v \/ phase d = Some v ->
            In v (Chart.allValues_of simulationData)).
  { intros d v Hd Hv. unfold Chart.allValues_of.
    apply in_flat_map. exists (Some v). split; [|left; reflexivity].
    apply in_flat_map. exists d. split; [exact Hd|].
    destruct Hv as [<-|<-]; simpl; tauto. }
  unfold Chart.yDomain.
  destruct (Nat.eqb_spec (List.length (Chart.allValues_of simulationData)) 0) as [E|E].
  - cbn [fst snd]. split; [lra|]. split; [lra|]. split.
    + exists (-20)%Z, 20%Z. split; reflexivity.
    + intros d v Hd Hv. specialize (Hin d v Hd Hv).
      destruct (Chart.allValues_of simulationData); [destruct Hin|discriminate].
  - cbn [fst snd].
    set (xs := Chart.allValues_of simulationData) in *.
    destruct (Math_min_with_le xs (-(1.5))) as [Hm1 Hm2].
    destruct (Math_max_with_ge xs 1.5) as [HM1 HM2].
    set (minVal := Chart.Math_min_with xs (-(1.5))) in *.
    set (maxVal := Chart.Math_max_with xs 1.5) in *.
    pose proof (Q.le_max_l 0.5 ((maxVal - minVal) * 0.1)) as Hpad.
    set (padding := Qmax 0.5 ((maxVal - minVal) * 0.1)) in *.
    pose proof (Qfloor_le ((minVal - padding) * 10)) as Hlo.
    pose proof (Qle_ceiling ((maxVal + padding) * 10)) as Hhi.
    assert (Elo : inject_Z (Qfloor ((minVal - padding) * 10)) / 10 ==
                  inject_Z (Qfloor ((minVal - padding) * 10)) * (1 # 10))
      by (field; discriminate).
    assert (Ehi : inject_Z (Qceiling ((maxVal + padding) * 10)) / 10 ==
                  inject_Z (Qceiling ((maxVal + padding) * 10)) * (1 # 10))
      by (field; discriminate).
    split; [rewrite Elo; lra|]. split; [rewrite Ehi; lra|]. split.
    + eexists. eexists. split; reflexivity.
    + intros d v Hd Hv. specialize (Hin d v Hd Hv).
      specialize (Hm2 v Hin). specialize (HM2 v Hin).
      rewrite Elo, Ehi. split; lra.
Qed.

(** ** Mean, median and standard deviation *)

Lemma sum_bounds data lo hi :
  (forall x, In x data -> lo <= x <= hi) ->
  inject_Z (Z.of_nat (List.length data)) * lo <= fold_right Qplus 0 data /\
  fold_right Qplus 0 data <= inject_Z (Z.of_nat (List.length data)) * hi.
Proof.
  induction data as [|x data IH]; intros H.
  - cbn [List.length fold_right Z.of_nat]. change (inject_Z 0) with 0. split; lra.
  - destruct IH as [I1 I2]; [intros y Hy; apply H; right; exact Hy|].
    destruct (H x (or_introl eq_refl)) as [X1 X2].
    cbn [List.length fold_right]. rewrite Nat2Z.inj_succ. unfold Z.succ.
    rewrite inject_Z_plus. change (inject_Z 1) with 1. split; lra.
Qed.

(** X12 -- the mean of values between 0 and 1, such as the Re(s) values the
    analysis averages: the mean of the empty list is 0, the mean of values
    that are not negative is not negative, and the mean of values none of
    which exceeds 1 does not exceed 1. *)
Theorem mean_within_bounds (data : list Q) :
  (forall x, In x data -> 0 <= x) ->
  Stats.calculateMean [] = 0 /\
  0 <= Stats.calculateMean data /\
  ((forall x, In x data -> x <= 1) -> Stats.calculateMean data <= 1).
Proof.
  intros Hb. split; [reflexivity|].
  unfold Stats.calculateMean.
  destruct data as [|x0 rest]; [split; [apply Qle_refl|intros _; discriminate]|].
  cbn [List.length Nat.eqb]. rewrite fold_left_sum.
  assert (Hn : 0 < inject_Z (Z.of_nat (S (List.length rest)))).
  { change 0 with (inject_Z 0). rewrite <- Zlt_Qlt. lia. }
  split.
  - assert (S1 : 0 <= fold_right Qplus 0 (x0 :: rest)).
    { clear Hn. induction (x0 :: rest) as [|y l IH]; [apply Qle_refl|].
      cbn [fold_right].
      pose proof (Hb y (or_introl eq_refl)).
      pose proof (IH (fun z Hz => Hb z (or_intror Hz))). lra. }
    apply Qle_shift_div_l; [exact Hn|]. lra.
  - intros H1.
    destruct (sum_bounds (x0 :: rest) 0 1
                (fun x Hx => conj (Hb x Hx) (H1 x Hx))) as [_ S2].
    cbn [List.length] in S2.
    apply Qle_shift_div_r; [exact Hn|]. lra.
Qed.

Lemma mean_within_bounds_witness :
  let data := [0.1; 0.1; 0.1] in
  (forall x, In x data -> 0 <= x) /\
  0 <= Stats.calculateMean data /\ Stats.calculateMean data <= 1.
Proof.
  intros data.
  assert (H0 : forall x, In x data -> 0 <= x)
    by (intros x [<-|[<-|[<-|[]]]]; discriminate).
  assert (H1 : forall x, In x data -> x <= 1)
    by (intros x [<-|[<-|[<-|[]]]]; discriminate).
  split; [exact H0|].
  destruct (mean_within_bounds data H0) as (_ & Lo & Hi).
  split; [exact Lo|exact (Hi H1)].
Defined.

Lemma Qle_transitive : Relations_1.Transitive Qle.
Proof. intros x y z. apply Qle_trans. Qed.

Lemma sorted_nth_le (s : list Q) i j :
  Sorted Qle s -> (i <= j)%nat -> (j < List.length s)%nat -> nth i s 0 <= nth j s 0.
Proof.
  intros Hs. apply (Sorted_StronglySorted Qle_transitive) in Hs.
  revert i j. induction Hs as [|a s Hs IH Ha]; intros i j Hij Hj; simpl in Hj; [lia|].
  destruct i as [|i], j as [|j]; simpl; try lia.
  - lra.
  - rewrite Forall_forall in Ha. apply Ha, nth_In. lia.
  - apply IH; lia.
Qed.

Lemma filter_length_prefix (P : Q -> bool) (s : list Q) k :
  (k <= List.length s)%nat ->
  (forall i, (i < k)%nat -> P (nth i s 0) = true) ->
  (k <= List.length (filter P s))%nat.
Proof.
  revert k. induction s as [|a s IH]; intros k Hk H; simpl in *; [lia|].
  destruct k as [|k]; [lia|].
  rewrite (H 0%nat) by lia. simpl.
  apply le_n_S, IH; [lia|]. intros i Hi. apply (H (S i)). lia.
Qed.

Lemma filter_length_suffix (P : Q -> bool) (s : list Q) k :
  (k <= List.length s)%nat ->
  (forall i, (k <= i < List.length s)%nat -> P (nth i s 0) = true) ->
  (List.length s - k <= List.length (filter P s))%nat.
Proof.
  revert k. induction s as [|a s IH]; intros k Hk H; simpl in *; [lia|].
  destruct k as [|k].
  - rewrite (H 0%nat) by lia. simpl.
    specialize (IH 0%nat). rewrite Nat.sub_0_r in IH.
    apply le_n_S, IH; [lia|]. intros i Hi. apply (H (S i)). lia.
  - specialize (IH k).
    assert (List.length s - k <= List.length (filter P s))%nat.
    { apply IH; [lia|]. intros i Hi. apply (H (S i)). lia. }
    destruct (P a); simpl; lia.
Qed.

Lemma filter_length_perm (P : Q -> bool) (l l' : list Q) :
  Permutation l l' -> List.length (filter P l) = List.length (filter P l').
Proof.
  induction 1; simpl; auto.
  - destruct (P x); simpl; congruence.
  - destruct (P x), (P y); reflexivity.
  - congruence.
Qed.

(** The median in terms of the sorted list. *)
Lemma median_of_sorted data :
  data <> [] ->
  let s := Stats.sort_ascending data in
  let n := List.length data in
  nth ((n - 1) / 2) s 0 <= Stats.calculateMedian data <= nth (n / 2) s 0.
Proof.
  intros Hne. cbv zeta.
  pose proof (sort_ascending_sorted data) as Hs.
  pose proof (sort_ascending_length data) as Hl.
  assert (Hn : (0 < List.length data)%nat) by (destruct data; [congruence|simpl; lia]).
  unfold Stats.calculateMedian.
  destruct (Nat.eqb_spec (List.length data) 0); [lia|].
  rewrite Hl.
  destruct (Nat.eqb_spec (List.length data mod 2) 0) as [Ev|Od]; cbn [negb].
  - assert (E2 : List.length data = (2 * (List.length data / 2))%nat).
    { pose proof (Nat.div_mod_eq (List.length data) 2). lia. }
    assert (E1 : ((List.length data - 1) / 2 = List.length data / 2 - 1)%nat).
    { set (h := (List.length data / 2)%nat) in *.
      rewrite E2. replace (2 * h - 1)%nat with (1 + (h - 1) * 2)%nat by lia.
      rewrite Nat.div_add by lia. reflexivity. }
    rewrite E1.
    pose proof (sorted_nth_le _ (List.length data / 2 - 1) (List.length data / 2) Hs) as Hle.
    assert (nth (List.length data / 2 - 1) (Stats.sort_ascending data) 0
            <= nth (List.length data / 2) (Stats.sort_ascending data) 0)
      by (apply Hle; [lia|rewrite Hl; lia]).
    set (a := nth (List.length data / 2 - 1) (Stats.sort_ascending data) 0) in *.
    set (b := nth (List.length data / 2) (Stats.sort_ascending data) 0) in *.
    assert (E : (a + b) / 2 == (a + b) * (1 # 2)) by (field; discriminate).
    rewrite E. split; lra.
  - assert (E1 : ((List.length data - 1) / 2 = List.length data / 2)%nat).
    { pose proof (Nat.div_mod_eq (List.length data) 2).
      pose proof (Nat.mod_upper_bound (List.length data) 2).
      set (h := (List.length data / 2)%nat) in *.
      replace (List.length data - 1)%nat with (0 + h * 2)%nat by lia.
      rewrite Nat.div_add by lia. reflexivity. }
    rewrite E1. split; lra.
Qed.

(** X13 -- the median splits the data: for a non-empty list, at least half
    of the elements are less than or equal to the median and at least half
    are greater than or equal to it; and the median lies between any bounds
    that hold for all elements. *)
Theorem median_splits_data (data : list Q) (lo hi : Q) :
  data <> [] -> (forall x, In x data -> lo <= x <= hi) ->
  let m := Stats.calculateMedian data in
  (List.length data <= 2 * List.length (filter (fun x => Qle_bool x m) data))%nat /\
  (List.length data <= 2 * List.length (filter (fun x => Qle_bool m x) data))%nat /\
  lo <= m <= hi.
Proof.
  intros Hne Hb. cbv zeta.
  pose proof (sort_ascending_sorted data) as Hs.
  pose proof (sort_ascending_perm data) as Hp.
  pose proof (sort_ascending_length data) as Hl.
  destruct (median_of_sorted data Hne) as [Hlow Hhigh]. cbv zeta in Hlow, Hhigh.
  set (m := Stats.calculateMedian data) in *.
  set (s := Stats.sort_ascending data) in *.
  set (n := List.length data) in *.
  assert (Hn : (0 < n)%nat) by (unfold n; destruct data; [congruence|simpl; lia]).
  assert (Hhalf1 : ((n - 1) / 2 < n)%nat)
    by (apply Nat.Div0.div_lt_upper_bound; lia).
  assert (Hhalf2 : (n / 2 < n)%nat)
    by (apply Nat.Div0.div_lt_upper_bound; lia).
  assert (Hdm := Nat.div_mod_eq n 2).
  assert (Hmu := Nat.mod_upper_bound n 2 ltac:(lia)).
  assert (Hdm' := Nat.div_mod_eq (n - 1) 2).
  assert (Hmu' := Nat.mod_upper_bound (n - 1) 2 ltac:(lia)).
  split; [|split].
  - rewrite <- (filter_length_perm _ _ _ Hp). fold s.
    assert (((n - 1) / 2 + 1 <= List.length (filter (fun x => Qle_bool x m) s))%nat).
    { apply filter_length_prefix; [rewrite Hl; fold n; lia|].
      intros i Hi. apply Qle_bool_iff.
      apply Qle_trans with (nth ((n - 1) / 2) s 0); [|exact Hlow].
      apply sorted_nth_le; [exact Hs|lia|rewrite Hl; fold n; lia]. }
    lia.
  - rewrite <- (filter_length_perm _ _ _ Hp). fold s.
    assert ((List.length s - n / 2 <= List.length (filter (fun x => Qle_bool m x) s))%nat).
    { apply filter_length_suffix; [rewrite Hl; fold n; lia|].
      intros i Hi. apply Qle_bool_iff.
      apply Qle_trans with (nth (n / 2) s 0); [exact Hhigh|].
      apply sorted_nth_le; [exact Hs|lia|lia]. }
    rewrite Hl in H. fold n in H. lia.
  - assert (Hin : forall i, (i < n)%nat -> lo <= nth i s 0 <= hi).
    { intros i Hi. apply Hb. apply (Permutation_in _ Hp). apply nth_In.
      rewrite Hl. exact Hi. }
    destruct (Hin _ Hhalf1) as [A _]. destruct (Hin _ Hhalf2) as [_ B].
    split; lra.
Qed.

Lemma median_splits_data_witness :
  let data := [0.9; 0.2; 0.4; 0.5] in
  data <> [] /\
  Stats.calculateMedian data == 0.45 /\
  (List.length data
   <= 2 * List.length (filter (fun x => Qle_bool x (Stats.calculateMedian data)) data))%nat /\
  0.2 <= Stats.calculateMedian data <= 0.9.
Proof.
  intros data.
  assert (Hne : data <> []) by discriminate.
  split; [exact Hne|]. split; [vm_compute; reflexivity|].
  destruct (median_splits_data data 0.2 0.9 Hne) as (H1 & _ & H3).
  - intros x [<-|[<-|[<-|[<-|[]]]]]; split; discriminate.
  - split; [exact H1|exact H3].
Defined.

Lemma square_nonneg (a : Q) : 0 <= a * a.
Proof.
  destruct (Qlt_le_dec a 0) as [N|P].
  - assert (E : a * a == (- a) * (- a)) by ring.
    rewrite E. apply Qmult_le_0_compat; lra.
  - apply Qmult_le_0_compat; exact P.
Qed.

Lemma sum_of_squares_nonneg data m : 0 <= Stats.sum_of_squares data m.
Proof.
  induction data as [|x data IH]; cbn [Stats.sum_of_squares fold_right]; [lra|].
  fold (Stats.sum_of_squares data m).
  pose proof (square_nonneg (x - m)). lra.
Qed.

(** X14 -- the square root in [calculateStdDev]: for a list of two or more
    values, and whatever mean is passed, the function returns the square
    root of a number that is not negative, namely the sum of squared
    deviations from that mean over [n - 1]. *)
Theorem stddev_radicand_not_negative
    (M : MathHost) (data : list Q) (mean : option Q) :
  (2 <= List.length data)%nat ->
  exists radicand,
    Stats.calculateStdDev M data mean = Math_sqrt M radicand /\
    0 <= radicand /\
    radicand ==
      Stats.sum_of_squares data
        (match mean with None => Stats.calculateMean data | Some m => m end)
      / inject_Z (Z.of_nat (List.length data) - 1).
Proof.
  intros Hn. unfold Stats.calculateStdDev.
  destruct (Nat.leb_spec (List.length data) 1); [lia|].
  set (m := match mean with None => Stats.calculateMean data | Some m => m end).
  assert (Hd : 0 < inject_Z (Z.of_nat (List.length data) - 1)).
  { change 0 with (inject_Z 0). rewrite <- Zlt_Qlt. lia. }
  eexists. split; [reflexivity|].
  assert (E : fold_left (fun sq n => sq + (n - m) ^ 2) data 0
              / inject_Z (Z.of_nat (List.length data) - 1)
              == Stats.sum_of_squares data m / inject_Z (Z.of_nat (List.length data) - 1)).
  { rewrite fold_left_squares. field. lra. }
  split.
  - rewrite E. apply Qle_shift_div_l; [exact Hd|].
    pose proof (sum_of_squares_nonneg data m). lra.
  - exact E.
Qed.

Lemma stddev_radicand_not_negative_witness :
  let data := [0.5; 0.75; 0.25] in
  (2 <= List.length data)%nat /\
  exists radicand,
    Stats.calculateStdDev Approx.host data (Some 0.4) = Math_sqrt Approx.host radicand /\
    0 <= radicand.
Proof.
  intros data. split; [simpl; lia|].
  destruct (stddev_radicand_not_negative Approx.host data (Some 0.4))
    as (v & E & Hv & _); [simpl; lia|].
  exists v. split; [exact E|exact Hv].
Defined.

(** ** Monotonicity of the Riemann scalar *)

Lemma calculatedReS_is_clamped e t n C :
  Stats.calculatedReS e t n C == Stats.clamped_scalar e t n C.
Proof.
  assert (H05 : 0 <= 5) by discriminate.
  assert (H01 : 0 <= 1) by discriminate.
  unfold Stats.calculatedReS, Stats.clamped_scalar, Stats.clamped_relativeExcess.
  cbv zeta. rewrite (max_min_is_clamp _ 0 1 H01).
  apply clamp_compat; [exact H01|].
  rewrite (max_min_is_clamp _ 0 5 H05). reflexivity.
Qed.

Lemma clamp_monotone x y lo hi :
  lo <= hi -> x <= y -> Stats.clamp x lo hi <= Stats.clamp y lo hi.
Proof.
  intros Hlh Hxy.
  destruct (clamp_cases x lo hi Hlh) as [[H ->]|[[H ->]|[[H1 H2] ->]]];
  destruct (clamp_cases y lo hi Hlh) as [[H' ->]|[[H' ->]|[[H1' H2'] ->]]];
  lra.
Qed.

Lemma raw_excess_monotone e1 e2 t :
  e1 <= e2 ->
  (if JS.gtb t 0.001 then (Qmax e1 t - t) / t
   else if JS.gtb e1 0 then e1 * 2 else 0)
  <= (if JS.gtb t 0.001 then (Qmax e2 t - t) / t
      else if JS.gtb e2 0 then e2 * 2 else 0).
Proof.
  intros He.
  destruct (JS.gtb t 0.001) eqn:G.
  - apply gtb_spec in G.
    assert (Ht : 0 < t) by lra.
    assert (Hm : Qmax e1 t <= Qmax e2 t) by (apply Q.max_le_compat_r; exact He).
    unfold Qdiv. apply Qmult_le_compat_r; [lra|].
    apply Qlt_le_weak, Qinv_lt_0_compat, Ht.
  - destruct (JS.gtb e1 0) eqn:G1; destruct (JS.gtb e2 0) eqn:G2;
      try apply gtb_spec in G1; try apply gtb_spec in G2; try lra.
    exfalso.
    assert (e2 <= 0) by (apply Qnot_lt_le; intros X; apply gtb_spec in X; congruence).
    lra.
Qed.

(** X15 -- the Riemann scalar is monotone: with a scaling factor that is
    not negative, a node of higher energy never gets a smaller scalar, and
    a higher noise factor never gives a larger one. *)
Theorem riemann_scalar_monotone (e1 e2 t n1 n2 C : Q) :
  0 <= C -> e1 <= e2 -> n1 <= n2 ->
  Stats.calculatedReS e1 t n1 C <= Stats.calculatedReS e2 t n1 C /\
  Stats.calculatedReS e1 t n2 C <= Stats.calculatedReS e1 t n1 C.
Proof.
  intros HC He Hn.
  assert (H05 : 0 <= 5) by discriminate.
  assert (H01 : 0 <= 1) by discriminate.
  rewrite !calculatedReS_is_clamped. unfold Stats.clamped_scalar.
  split; apply clamp_monotone; try exact H01.
  - assert (Hr : Stats.clamped_relativeExcess e1 t <= Stats.clamped_relativeExcess e2 t).
    { unfold Stats.clamped_relativeExcess.
      apply clamp_monotone; [exact H05|apply raw_excess_monotone, He]. }
    assert ((Stats.clamped_relativeExcess e1 t - n1) * C
            <= (Stats.clamped_relativeExcess e2 t - n1) * C)
      by (apply Qmult_le_compat_r; lra).
    lra.
  - assert ((Stats.clamped_relativeExcess e1 t - n2) * C
            <= (Stats.clamped_relativeExcess e1 t - n1) * C)
      by (apply Qmult_le_compat_r; lra).
    lra.
Qed.

Lemma riemann_scalar_monotone_witness :
  0 <= 0.1 /\ 1.6 <= 2.4 /\ 0.3 <= 0.5 /\
  Stats.calculatedReS 1.6 1.5 0.3 0.1 <= Stats.calculatedReS 2.4 1.5 0.3 0.1 /\
  Stats.calculatedReS 1.6 1.5 0.5 0.1 <= Stats.calculatedReS 1.6 1.5 0.3 0.1.
Proof.
  split; [discriminate|]. split; [discriminate|]. split; [discriminate|].
  apply (riemann_scalar_monotone 1.6 2.4 1.5 0.3 0.5 0.1); discriminate.
Defined.

(** ** The histogram of the Riemann scalars *)

Lemma re_increment_at_length i dist :
  List.length (Riemann.increment_at i dist) = List.length dist.
Proof. revert i; induction dist as [|s rest IH]; intros [|i]; simpl; auto. Qed.

Lemma re_increment_at_total i dist :
  (i < List.length dist)%nat ->
  Riemann.total_count (Riemann.increment_at i dist) = S (Riemann.total_count dist).
Proof.
  revert i; induction dist as [|s rest IH]; intros [|i] Hi; simpl in *; try lia.
  rewrite IH by lia. lia.
Qed.

Lemma re_increment_at_count i dist j dflt :
  (i < List.length dist)%nat ->
  Riemann.count (nth j (Riemann.increment_at i dist) dflt) =
    (Riemann.count (nth j dist dflt) + if (i =? j)%nat then 1 else 0)%nat.
Proof.
  revert i j; induction dist as [|s rest IH]; intros [|i] [|j] Hi; simpl in *;
    try lia.
  apply IH. lia.
Qed.

Lemma binSizeReS_positive : B64.positive_finite Riemann.binSizeReS.
Proof. vm_compute. exact I. Qed.

Lemma reS_index_range v :
  0 <= v ->
  exists j, Riemann.segmentIndex_of v = Some (Z.of_nat j) /\ (j <= 19)%nat.
Proof.
  intros Hv. unfold Riemann.segmentIndex_of.
  destruct (min_floor_range (B64.div (B64.of_Q v) Riemann.binSizeReS)
              (Riemann.reSBins - 1)) as (j & E & Hj).
  - apply div_nonneg; [apply of_Q_nonneg, Hv|exact binSizeReS_positive].
  - unfold Riemann.reSBins. lia.
  - unfold Riemann.reSBins in Hj. exists (Z.to_nat j).
    rewrite Z2Nat.id by lia. split; [exact E|lia].
Qed.

(** With an index from 0 to 19 the branch for index 20 is not taken and the
    value is counted in its bin. *)
Lemma count_reS_at dist v j :
  Riemann.segmentIndex_of v = Some (Z.of_nat j) -> (j <= 19)%nat ->
  List.length dist = 20%nat ->
  Riemann.count_reS dist v = Riemann.increment_at j dist.
Proof.
  intros E Hj Hl. unfold Riemann.count_reS. rewrite E.
  destruct (Z.eqb_spec (Z.of_nat j) Riemann.reSBins) as [X|_];
    [unfold Riemann.reSBins in X; lia|].
  cbn [andb]. unfold Riemann.count_if_present. rewrite Hl.
  destruct (Z.leb_spec 0 (Z.of_nat j)); [|lia].
  destruct (Z.ltb_spec (Z.of_nat j) (Z.of_nat 20)); [|lia].
  cbn [andb]. rewrite Nat2Z.id. reflexivity.
Qed.

Lemma reS_forEach_bins values dflt :
  (forall v, In v values -> 0 <= v) ->
  forall dist, List.length dist = 20%nat ->
  List.length (fold_left Riemann.count_reS values dist) = 20%nat /\
  Riemann.total_count (fold_left Riemann.count_reS values dist) =
    (Riemann.total_count dist + List.length values)%nat /\
  forall j, Riemann.count (nth j (fold_left Riemann.count_reS values dist) dflt) =
            (Riemann.count (nth j dist dflt) + List.length (values_in_bin values j))%nat.
Proof.
  induction values as [|v values IH]; intros Hv dist Hl; cbn [fold_left].
  - split; [exact Hl|]. split; [simpl; lia|]. intros j. simpl. lia.
  - destruct (reS_index_range v (Hv v (or_introl eq_refl))) as (i & Ei & Hi).
    rewrite (count_reS_at dist v i Ei Hi Hl).
    destruct (IH (fun w H => Hv w (or_intror H)) (Riemann.increment_at i dist))
      as (L & T & C); [rewrite re_increment_at_length; exact Hl|].
    split; [exact L|]. split.
    + rewrite T, re_increment_at_total by lia. cbn [List.length]. lia.
    + intros j. rewrite C, re_increment_at_count by lia.
      unfold values_in_bin. cbn [filter]. rewrite Ei.
      destruct (Nat.eqb_spec i j) as [->|Hne].
      * rewrite Z.eqb_refl. cbn [List.length]. lia.
      * destruct (Z.eqb_spec (Z.of_nat i) (Z.of_nat j)); [lia|]. lia.
Qed.


Lemma initial_reSDistribution_counts :
  Forall (fun s => Riemann.count s = 0%nat) Riemann.initial_reSDistribution.
Proof.
  unfold Riemann.initial_reSDistribution. apply Forall_forall. intros s Hs.
  apply in_map_iff in Hs as (i & <- & _). reflexivity.
Qed.

(** X16 -- the histogram of the Re(s) values, on doubles: every value that
    is not negative is counted in the bin
    [min(floor(value / (1 / 20)), 19)], both quotients rounded, which lies
    from 0 to 19, so the extra branch for an index of 20 is never taken;
    the value 1 falls into bin 19; each of the 20 counts is the number of
    values with that bin, and the counts add up to the number of values. *)
Theorem reS_histogram_conservation (allReSValues : list Q) :
  (forall v, In v allReSValues -> 0 <= v) ->
  let reSDistribution := Riemann.reSDistribution_of allReSValues in
  List.length reSDistribution = 20%nat /\
  Riemann.total_count reSDistribution = List.length allReSValues /\
  (forall j, (j < 20)%nat ->
     Riemann.count
       (nth j reSDistribution {| Riemann.reSegment := (0, 0); Riemann.count := 0 |}) =
       List.length (values_in_bin allReSValues j)) /\
  (forall v, In v allReSValues ->
     exists j, Riemann.segmentIndex_of v = Some (Z.of_nat j) /\ (j <= 19)%nat /\
               In v (values_in_bin allReSValues j) /\
               forall dist, List.length dist = 20%nat ->
                 Riemann.count_reS dist v = Riemann.increment_at j dist) /\
  (forall v, v == 1 -> Riemann.segmentIndex_of v = Some 19%Z).
Proof.
  intros Hv. cbv zeta.
  destruct (reS_forEach_bins allReSValues
              {| Riemann.reSegment := (0, 0); Riemann.count := 0 |} Hv
              Riemann.initial_reSDistribution eq_refl) as (L & T & C).
  split; [exact L|]. split; [exact T|]. split; [|split].
  - intros j Hj. unfold Riemann.reSDistribution_of. rewrite C.
    pose proof initial_reSDistribution_counts as Z0. rewrite Forall_forall in Z0.
    rewrite (Z0 (nth j Riemann.initial_reSDistribution _)); [reflexivity|].
    apply nth_In. exact Hj.
  - intros v Hin. destruct (reS_index_range v (Hv v Hin)) as (j & E & Hj).
    exists j. split; [exact E|]. split; [exact Hj|]. split.
    + unfold values_in_bin. apply filter_In. split; [exact Hin|].
      rewrite E. apply Z.eqb_refl.
    + intros dist Hl. apply (count_reS_at dist v j E Hj Hl).
  - intros v E. unfold Riemann.segmentIndex_of.
    rewrite (of_Q_compat v 1 E). vm_compute. reflexivity.
Qed.

Lemma reS_histogram_conservation_witness :
  let values := [0; 0.55; 1; 0.049; 0.3; 0.85] in
  (forall v, In v values -> 0 <= v) /\
  map Riemann.count (Riemann.reSDistribution_of values) =
    [2; 0; 0; 0; 0; 1; 0; 0; 0; 0; 0; 1; 0; 0; 0; 0; 0; 1; 0; 1]%nat /\
  Riemann.total_count (Riemann.reSDistribution_of values) = List.length values.
Proof.
  intros values.
  assert (Hv : forall v, In v values -> 0 <= v).
  { intros v [<-|[<-|[<-|[<-|[<-|[<-|[]]]]]]]; discriminate. }
  split; [exact Hv|]. split; [vm_compute; reflexivity|].
  exact (proj1 (proj2 (reS_histogram_conservation values Hv))).
Defined.

(** ** The density grid of the s-plane points *)






















(** ** The Riemann analysis as a whole *)






(** ** The batch analysis as a whole *)




(** ** The search of [App] over its commits *)

Lemma random_parameters_in_range_witness :
  0 <= 0.999 < 1 /\
  App.random_noise 0.999 == 0.75 /\ App.random_threshold 0.999 == 1.8 /\
  (0 <= App.random_seed 0.999 < 1000000)%Z.
Proof.
  assert (H : 0 <= 0.999 < 1) by (split; [discriminate|reflexivity]).
  split; [exact H|]. split; [reflexivity|]. split; [reflexivity|].
  exact (proj2 (proj2 (random_parameters_in_range 0.999 H))).
Defined.

(** What one commit does to the attempt counter and to the number of
    random draws. *)
Lemma commit_step M fuel rnd st :
  let st' := App.commit M fuel rnd st in
  App.duration st' = App.duration st /\
  ((App.currentSearchAttempt st' = App.currentSearchAttempt st /\
    App.randomCalls st' = App.randomCalls st /\
    App.noise st' = App.noise st /\ App.threshold st' = App.threshold st /\
    App.currentSeed st' = App.currentSeed st) \/
   (App.isSearching st = true /\
    (App.currentSearchAttempt st < App.MAX_SEARCH_ATTEMPTS)%Z /\
    App.currentSearchAttempt st' = (App.currentSearchAttempt st + 1)%Z /\
    App.randomCalls st' = (App.randomCalls st + 3)%nat /\
    App.noise st' = App.random_noise (rnd (App.randomCalls st)) /\
    App.threshold st' = App.random_threshold (rnd (App.randomCalls st + 1)%nat) /\
    App.currentSeed st' = App.random_seed (rnd (App.randomCalls st + 2)%nat))).
Proof.
  destruct st as [d n t s searching a c msg memo calls].
  cbv zeta. unfold App.commit, App.App_effect.
  cbn [App.props_of App.duration App.noise App.threshold App.currentSeed
       App.isSearching App.currentSearchAttempt App.knotenCountFromSim
       App.randomCalls].
  destruct searching; cbn [negb].
  - destruct (Z.eqb_spec c (-1)).
    + destruct (App.recomputes _); cbn; auto 10.
    + destruct (Z.ltb_spec 0 c).
      * destruct (App.recomputes _); cbn; auto 10.
      * destruct (Z.leb_spec App.MAX_SEARCH_ATTEMPTS a).
        -- destruct (App.recomputes _); cbn; auto 10.
        -- destruct (App.recomputes _); cbn; split; try reflexivity; right;
             repeat split; try reflexivity; assumption.
  - destruct (App.recomputes _); cbn; auto 10.
Qed.

Lemma commit_not_searching M fuel rnd st :
  App.isSearching st = false ->
  App.isSearching (App.commit M fuel rnd st) = false /\
  App.searchStatusMessage (App.commit M fuel rnd st) = App.searchStatusMessage st.
Proof.
  destruct st as [d n t s searching a c msg memo calls].
  cbn [App.isSearching]. intros ->.
  unfold App.commit, App.App_effect.
  cbn [App.props_of App.duration App.noise App.threshold App.currentSeed
       App.isSearching negb].
  destruct (App.recomputes _); cbn; auto.
Qed.

(** X23 -- outside a search the commits of [App] change none of the
    parameters: noise, threshold, seed, duration, attempt counter and status
    message stay as they are, no random number is drawn, and no search
    starts by itself. *)
Theorem idle_commits_change_nothing M fuel rnd (k : nat) (st : App.state) :
  App.isSearching st = false ->
  let st' := App.commits M fuel rnd k st in
  App.isSearching st' = false /\
  App.duration st' = App.duration st /\
  App.noise st' = App.noise st /\
  App.threshold st' = App.threshold st /\
  App.currentSeed st' = App.currentSeed st /\
  App.currentSearchAttempt st' = App.currentSearchAttempt st /\
  App.searchStatusMessage st' = App.searchStatusMessage st /\
  App.randomCalls st' = App.randomCalls st.
Proof.
  cbv zeta. revert st. induction k as [|k IH]; intros st Hs; cbn [App.commits].
  - repeat split; auto.
  - destruct (commit_not_searching M fuel rnd st Hs) as [Hs' Hm].
    destruct (commit_step M fuel rnd st) as [Hd [(Ha & Hc & Hn & Ht & Hseed)|(C & _)]];
      [|congruence].
    destruct (IH _ Hs') as (I1 & I2 & I3 & I4 & I5 & I6 & I7 & I8).
    repeat split; congruence.
Qed.

Lemma idle_commits_change_nothing_witness :
  let rnd : RandomOracle := fun _ => 1 # 2 in
  let st := App.initial rnd in
  App.isSearching st = false /\
  App.noise (App.commits Approx.host 2 rnd 5 st) = 0.3 /\
  App.randomCalls (App.commits Approx.host 2 rnd 5 st) = 1%nat.
Proof.
  intros rnd st.
  pose proof (idle_commits_change_nothing Approx.host 2 rnd 5 st eq_refl)
    as (_ & _ & Hn & _ & _ & _ & _ & Hc).
  split; [reflexivity|]. split; [exact Hn|exact Hc].
Defined.

(** X24 -- over any number of commits, from any state: the duration is
    never changed, the attempt counter never decreases and never passes
    50 (or its starting value, if that was larger), and exactly three random
    numbers are drawn for every attempt that is started. *)
Theorem commits_count_attempts M fuel rnd (k : nat) (st : App.state) :
  let st' := App.commits M fuel rnd k st in
  App.duration st' = App.duration st /\
  (App.currentSearchAttempt st <= App.currentSearchAttempt st'
     <= Z.max (App.currentSearchAttempt st) App.MAX_SEARCH_ATTEMPTS)%Z /\
  Z.of_nat (App.randomCalls st') =
    (Z.of_nat (App.randomCalls st) +
     3 * (App.currentSearchAttempt st' - App.currentSearchAttempt st))%Z /\
  (App.currentSearchAttempt st' - App.currentSearchAttempt st <= Z.of_nat k)%Z.
Proof.
  cbv zeta. revert st. induction k as [|k IH]; intros st; cbn [App.commits].
  - repeat split; lia.
  - destruct (IH (App.commit M fuel rnd st)) as (I1 & I2 & I3 & I4).
    destruct (commit_step M fuel rnd st)
      as [Hd [(Ha & Hc & _)|(_ & Hlt & Ha & Hc & _)]].
    + rewrite Hd, Ha, Hc in *. repeat split; try lia; exact I1.
    + rewrite Hd, Ha, Hc in *. repeat split; try lia; exact I1.
Qed.

Lemma commits_not_searching M fuel rnd k st :
  App.isSearching st = false ->
  App.isSearching (App.commits M fuel rnd k st) = false.
Proof.
  revert st. induction k as [|k IH]; intros st Hs; cbn [App.commits];
    [exact Hs|].
  apply IH. apply (commit_not_searching M fuel rnd st Hs).
Qed.

Lemma search_terminates_when_parameters_change_witness :
  let rnd : RandomOracle :=
    fun call => match call with
                | O => 0.999
                | S O => 0
                | _ => 835 # 1000000
                end in
  let st :=
    {| App.duration := 0.1; App.noise := 0.05; App.threshold := 1.8;
       App.currentSeed := 1; App.isSearching := true;
       App.currentSearchAttempt := 49; App.knotenCountFromSim := -1;
       App.searchStatusMessage := App.NoMessage; App.memo := None;
       App.randomCalls := 0 |} in
  App.pending st /\
  App.currentSearchAttempt st = (App.MAX_SEARCH_ATTEMPTS - Z.of_nat 1)%Z /\
  App.searchStatusMessage (App.commits Approx.host 2 rnd 4 st) =
    App.Found 50 (3 # 4) (7 # 10) 835 /\
  exists j,
    (1 <= j <= 2)%nat /\
    App.isSearching (App.commits Approx.host 2 rnd (2 * j) st) = false /\
    App.duration (App.commits Approx.host 2 rnd (2 * j) st) = 0.1.
Proof.
  intros rnd st.
  assert (Hp : App.pending st) by (split; reflexivity).
  assert (Ha : App.currentSearchAttempt st = (App.MAX_SEARCH_ATTEMPTS - Z.of_nat 1)%Z)
    by reflexivity.
  assert (H2 : App.recomputes (App.commits Approx.host 2 rnd 2 st) = true)
    by (vm_compute; reflexivity).
  assert (H4 : App.isSearching (App.commits Approx.host 2 rnd 4 st) = false)
    by (vm_compute; reflexivity).
  assert (Hfresh : forall i,
            App.pending (App.commits Approx.host 2 rnd (2 * i) st) ->
            App.recomputes (App.commits Approx.host 2 rnd (2 * i) st) = true).
  { intros [|[|i]] Hpend.
    - reflexivity.
    - exact H2.
    - exfalso. replace (2 * S (S i))%nat with (4 + 2 * i)%nat in Hpend by lia.
      rewrite commits_add in Hpend. destruct Hpend as [Hs _].
      rewrite (commits_not_searching Approx.host 2 rnd (2 * i) _ H4) in Hs.
      discriminate Hs. }
  split; [exact Hp|]. split; [exact Ha|]. split; [vm_compute; reflexivity|].
  destruct (search_terminates_when_parameters_change Approx.host 2 rnd 1 st Hp Ha Hfresh)
    as (j & Hj & _ & Hs & Hd & _).
  exists j. split; [lia|]. split; [exact Hs|exact Hd].
Defined.

Lemma search_stalls_mid_search_witness :
  let rnd : RandomOracle :=
    fun call => match call with
                | O => 0.999
                | S O => 0
                | _ => 5 # 1000000
                end in
  let st :=
    {| App.duration := 100; App.noise := 3 # 4; App.threshold := 7 # 10;
       App.currentSeed := 5; App.isSearching := true;
       App.currentSearchAttempt := 7; App.knotenCountFromSim := 0;
       App.searchStatusMessage := App.Simulating 7 50;
       App.memo := Some (100, 3 # 4, 7 # 10, 5%Z);
       App.randomCalls := 0 |} in
  App.random_noise (rnd 0%nat) == App.noise st /\
  App.random_threshold (rnd 1%nat) == App.threshold st /\
  App.random_seed (rnd 2%nat) = App.currentSeed st /\
  App.pending (App.commits Approx.host 2 rnd 1000 st) /\
  App.currentSearchAttempt (App.commits Approx.host 2 rnd 1000 st) = 8%Z.
Proof.
  intros rnd st.
  assert (Hn : App.random_noise (rnd 0%nat) == App.noise st) by reflexivity.
  assert (Ht : App.random_threshold (rnd 1%nat) == App.threshold st) by reflexivity.
  assert (Hs : App.random_seed (rnd 2%nat) = App.currentSeed st) by reflexivity.
  split; [exact Hn|]. split; [exact Ht|]. split; [exact Hs|].
  apply (search_stalls_mid_search Approx.host 2 rnd st 999);
    [reflexivity|reflexivity|reflexivity|reflexivity|exact Hn|exact Ht|exact Hs].
Defined.

(** ** The colour of a heat-map cell *)

Lemma approx_sqrt_unit x : 0 <= x <= 1 -> 0 <= Approx.sqrt x <= 1.
Proof.
  intros H. unfold Approx.sqrt. cbv zeta. rewrite Qred_correct.
  rewrite <- (Qred_correct x) in H.
  destruct (Qred x) as [n d]. destruct H as [H0 H1].
  unfold Qle in *. cbn [Qnum Qden] in *.
  assert (Hn : (0 <= n <= Z.pos d)%Z) by lia.
  assert (Hs : (Z.sqrt (n * Z.pos d * 10 ^ 12) <= Z.pos d * 1000000)%Z).
  { rewrite <- (Z.sqrt_square (Z.pos d * 1000000)) by lia.
    apply Z.sqrt_le_mono. change (10 ^ 12)%Z with (1000000 * 1000000)%Z. nia. }
  pose proof (Z.sqrt_nonneg (n * Z.pos d * 10 ^ 12)) as Hp.
  revert Hs Hp. generalize (Z.sqrt (n * Z.pos d * 10 ^ 12)). intros r Hs Hp.
  rewrite Pos2Z.inj_mul. split; lia.
Qed.

(** X25 -- the colour of a heat-map cell, for a host whose square root
    maps the unit interval into itself: a cell with a density between 1 and
    the maximum gets hue 240, saturation 70, a lightness between 30 and 80
    and an opacity between 0.6 and 1; a zero density or a zero maximum gives
    the fixed light colour, without a division. *)
Theorem density_colour_in_range (M : MathHost) (density maxDensity : Q) :
  (forall x, 0 <= x <= 1 -> 0 <= Math_sqrt M x <= 1) ->
  let colour := Heatmap.getColorForDensity M density maxDensity in
  (0 < density <= maxDensity ->
     Heatmap.hue colour = 240 /\ Heatmap.saturation colour = 70 /\
     30 <= Heatmap.lightness colour <= 80 /\
     0.6 <= Heatmap.alpha colour <= 1) /\
  (density == 0 \/ maxDensity == 0 ->
     colour = {| Heatmap.hue := 220; Heatmap.saturation := 40;
                 Heatmap.lightness := 90; Heatmap.alpha := 0.5 |}).
Proof.
  intros Hsqrt. cbv zeta. unfold Heatmap.getColorForDensity, JS.eqb. split.
  - intros [Hpos Hle].
    destruct (Qeq_bool maxDensity 0) eqn:Em;
      [apply Qeq_bool_iff in Em; exfalso; lra|].
    destruct (Qeq_bool density 0) eqn:Ed;
      [apply Qeq_bool_iff in Ed; exfalso; lra|].
    cbn [orb Heatmap.hue Heatmap.saturation Heatmap.lightness Heatmap.alpha].
    assert (Hq : 0 <= density / maxDensity <= 1).
    { split.
      - apply Qle_shift_div_l; lra.
      - apply Qle_shift_div_r; lra. }
    pose proof (Hsqrt _ Hq) as Hi.
    revert Hi. generalize (Math_sqrt M (density / maxDensity)). intros i Hi.
    repeat split; try reflexivity; lra.
  - intros [E|E].
    + rewrite (proj2 (Qeq_bool_iff density 0) E), orb_true_r. reflexivity.
    + rewrite (proj2 (Qeq_bool_iff maxDensity 0) E). reflexivity.
Qed.

Lemma density_colour_in_range_witness :
  (forall x, 0 <= x <= 1 -> 0 <= Math_sqrt Approx.host x <= 1) /\
  Heatmap.lightness (Heatmap.getColorForDensity Approx.host 1 4) == 55 /\
  Heatmap.alpha (Heatmap.getColorForDensity Approx.host 1 4) == 0.8 /\
  30 <= Heatmap.lightness (Heatmap.getColorForDensity Approx.host 1 4) <= 80.
Proof.
  assert (H : forall x, 0 <= x <= 1 -> 0 <= Math_sqrt Approx.host x <= 1)
    by exact approx_sqrt_unit.
  split; [exact H|]. split; [reflexivity|]. split; [reflexivity|].
  destruct (density_colour_in_range Approx.host 1 4 H) as [Hin _].
  destruct Hin as (_ & _ & Hl & _); [split; [reflexivity|discriminate]|].
  exact Hl.
Defined.

(** ** The two versions of the standard deviation *)

Lemma approx_sqrt_zero x : x == 0 -> Approx.sqrt x == 0.
Proof.
  intros E. unfold Approx.sqrt. cbv zeta.
  rewrite (Qred_complete x 0 E). reflexivity.
Qed.

(** X26 -- the earlier [calculateStdDev], which guards the divisor instead
    of returning 0 for a single value, and the later one: they return the
    same result on every list that does not have exactly one element, and,
    for a host whose square root of zero is zero, also on a single value
    when the mean is omitted or is the value's own mean. *)
Theorem stddev_versions_agree (M : MathHost) (data : list Q) (mean : option Q) :
  (forall x, x == 0 -> Math_sqrt M x == 0) ->
  List.length data <> 1%nat \/ mean = None \/
    mean = Some (Stats.calculateMean data) ->
  Earlier.calculateStdDev M data mean == Stats.calculateStdDev M data mean.
Proof.
  intros Hsqrt Hcase. unfold Earlier.calculateStdDev, Stats.calculateStdDev.
  destruct data as [|x [|y rest]].
  - reflexivity.
  - cbn [List.length Nat.eqb Nat.leb Z.of_nat Z.sub Z.ltb Z.compare fold_left].
    apply Hsqrt.
    assert (Em : match mean with
                 | None => Stats.calculateMean [x]
                 | Some m => m
                 end = Stats.calculateMean [x]).
    { destruct Hcase as [H|[->| ->]]; [contradiction H|..]; reflexivity. }
    rewrite Em. unfold Stats.calculateMean.
    cbn [List.length Nat.eqb fold_left Z.of_nat].
    change (inject_Z (Z.pos (Pos.of_succ_nat 0))) with 1.
    change (inject_Z (Z.pos 1 + Z.neg 1)) with 0.
    cbn. field.
  - cbn [List.length].
    destruct (Z.ltb_spec (Z.of_nat (S (S (List.length rest))) - 1) 1) as [H|H]; [lia|].
    reflexivity.
Qed.

Lemma stddev_versions_agree_witness :
  (forall x, x == 0 -> Math_sqrt Approx.host x == 0) /\
  Earlier.calculateStdDev Approx.host [7 # 2] None == 0 /\
  Earlier.calculateStdDev Approx.host [1; 2; 4] None ==
    Stats.calculateStdDev Approx.host [1; 2; 4] None.
Proof.
  assert (H : forall x, x == 0 -> Math_sqrt Approx.host x == 0)
    by exact approx_sqrt_zero.
  split; [exact H|]. split.
  - apply (stddev_versions_agree Approx.host [7 # 2] None H). right. left. reflexivity.
  - apply (stddev_versions_agree Approx.host [1; 2; 4] None H). left. discriminate.
Defined.
